(** * A shallow embedding of the gateway's per-connection pipeline (main.go)

    The development follows the Go source function by function:
    [config], [accept], [handle], [handshake], [handshakeBinary],
    [handshakeText], [dial], [agentInit] and [safeCopy].  Sockets, the
    dialer and the cipher are the environment: their answers are
    parameters, and what the gateway does to them is recorded in a trace
    of events.  The part of [bufio.Reader] that the handshake relies on
    is modelled next to it. *)

From Stdlib Require Import String.
From Stdlib Require Import ZArith List Ascii Bool Lia.
Import ListNotations.

Local Abbreviation length := List.length.

Local Open Scope string_scope.
Local Open Scope list_scope.
Local Open Scope Z_scope.

(* ================================================================== *)
(** ** Bytes, integers and errors *)

Definition byte := ascii.
Definition bytes := list ascii.

(** [len] of a slice or a string is a Go [int]. *)
Definition len {A : Type} (l : list A) : Z := Z.of_nat (length l).

(** The conversion [byte(x)] of an [int] keeps the low eight bits. *)
Definition byte_of_int (x : Z) : byte := ascii_of_N (Z.to_N (x mod 256)).
Definition int_of_byte (b : byte) : Z := Z.of_N (N_of_ascii b).

(** [time.Duration] is an [int64] count of nanoseconds. *)
Definition wrap64 (x : Z) : Z := (x + 2 ^ 63) mod 2 ^ 64 - 2 ^ 63.
Definition Millisecond : Z := 1000000.
Definition Second : Z := 1000 * Millisecond.

Definition bytes_of_string (s : string) : bytes := list_ascii_of_string s.

Definition byte_eqb (a b : byte) : bool := Ascii.eqb a b.

(** Go [error] values.  [NetError] stands for any error that implements
    [net.Error], carrying the answers of its [Timeout] and [Temporary]
    methods; [OtherError] is any error that does not. *)
Inductive error : Type :=
| EOF
| ErrUnexpectedEOF
| ErrBufferFull
| ErrInvalidUnreadByte
| ErrNegativeCount
| NetError (timeout temporary : bool)
| OtherError (msg : string).

Definition is_timeout (e : error) : bool :=
  match e with
  | NetError t _ => t
  | _ => false
  end.

Definition is_temporary (e : error) : bool :=
  match e with
  | NetError _ t => t
  | _ => false
  end.

Definition isNil {A : Type} (o : option A) : bool :=
  match o with
  | None => true
  | Some _ => false
  end.

(** How a Go call ends: it returns, it panics, or (for the loops that are
    run on fuel here) the fuel given was not enough. *)
Inductive outcome (A : Type) : Type :=
| Ret (a : A)
| Panic (msg : string)
| OutOfFuel.

Arguments Ret {A} a.
Arguments Panic {A} msg.
Arguments OutOfFuel {A}.

(* ================================================================== *)
(** ** The client connection and [bufio.Reader] *)

(** The read side of a client socket is the queue of segments it will
    deliver, in order, and the error reported once they are used up
    ([EOF] when the peer closed). *)
Record Conn : Type := mkConn {
  remoteAddr : bytes;
  incoming : list bytes;
  incoming_err : error
}.

(** [conn.Read(p)] with [len(p) = n > 0]: a blocking read gives at least
    one byte or an error, and at most [n] bytes; what does not fit stays
    queued. *)
Fixpoint conn_Read (n : nat) (q : list bytes) : option (bytes * list bytes) :=
  match q with
  | [] => None
  | seg :: q' =>
      match seg with
      | [] => conn_Read n q'
      | _ :: _ =>
          if (length seg <=? n)%nat then Some (seg, q')
          else Some (firstn n seg, skipn n seg :: q')
      end
  end.

Definition defaultBufSize : Z := 4096.

(** [bufio.Reader]: [window] is [b.buf[b.r:b.w]], [rpos] is [b.r],
    [rd] the underlying connection ([None] for nil), [rerr] is [b.err]
    and [lastByte] is [None] for [-1]. *)
Record Reader : Type := mkReader {
  rpos : Z;
  window : bytes;
  rd : option Conn;
  rerr : option error;
  lastByte : option byte
}.

Definition Buffered (b : Reader) : Z := len (window b).

(** [bufio.NewReader(c)] and [b.Reset(c)] both leave
    [Reader{buf: buf, rd: c, lastByte: -1}]: nothing buffered, no error. *)
Definition resetTo (c : option Conn) : Reader :=
  {| rpos := 0; window := []; rd := c; rerr := None; lastByte := None |}.

Definition NewReader (c : Conn) : Reader := resetTo (Some c).
Definition Reset (b : Reader) (c : option Conn) : Reader := resetTo c.

(** [b.readErr()]: hand out the pending error and clear it. *)
Definition readErr (b : Reader) : option error * Reader :=
  (rerr b,
   {| rpos := rpos b; window := window b; rd := rd b; rerr := None;
      lastByte := lastByte b |}).

(** [b.fill()]: slide the window to the start of the buffer and read once
    into the free space behind it. *)
Definition fill (b : Reader) : outcome Reader :=
  if defaultBufSize <=? Buffered b then
    Panic "bufio: tried to fill full buffer"
  else
    match rd b with
    | None => Panic "invalid memory address or nil pointer dereference"
    | Some c =>
        match conn_Read (Z.to_nat (defaultBufSize - Buffered b)) (incoming c) with
        | Some (d, q) =>
            Ret {| rpos := 0; window := window b ++ d;
                   rd := Some (mkConn (remoteAddr c) q (incoming_err c));
                   rerr := rerr b; lastByte := lastByte b |}
        | None =>
            Ret {| rpos := 0; window := window b;
                   rd := Some (mkConn (remoteAddr c) [] (incoming_err c));
                   rerr := Some (incoming_err c); lastByte := lastByte b |}
        end
    end.

(** [b.ReadByte()].  The loop [for b.r == b.w] runs on fuel. *)
Fixpoint ReadByte_loop (fuel : nat) (b : Reader)
  : outcome ((byte * option error) * Reader) :=
  match window b with
  | c :: rest =>
      Ret ((c, None),
           {| rpos := rpos b + 1; window := rest; rd := rd b;
              rerr := rerr b; lastByte := Some c |})
  | [] =>
      match rerr b with
      | Some _ =>
          let '(e, b') := readErr b in Ret ((zero, e), b')
      | None =>
          match fuel with
          | O => OutOfFuel
          | S fuel' =>
              match fill b with
              | Ret b' => ReadByte_loop fuel' b'
              | Panic m => Panic m
              | OutOfFuel => OutOfFuel
              end
          end
      end
  end.

Definition ReadByte (b : Reader) : outcome ((byte * option error) * Reader) :=
  ReadByte_loop 2 b.

(** [b.UnreadByte()]. *)
Definition UnreadByte (b : Reader) : option error * Reader :=
  match lastByte b with
  | None => (Some ErrInvalidUnreadByte, b)
  | Some c =>
      if (rpos b =? 0) && (0 <? Buffered b) then (Some ErrInvalidUnreadByte, b)
      else
        (None,
         {| rpos := (if 0 <? rpos b then rpos b - 1 else 0);
            window := c :: window b; rd := rd b; rerr := rerr b;
            lastByte := None |})
  end.

(** [b.Read(p)] for [len(p) = n], [0 < n < len(b.buf)]: what is copied
    into [p], the error, and the reader afterwards. *)
Definition Read (n : nat) (b : Reader) : outcome ((bytes * option error) * Reader) :=
  match window b with
  | _ :: _ =>
      let got := firstn n (window b) in
      Ret ((got, None),
           {| rpos := rpos b + len got; window := skipn n (window b);
              rd := rd b; rerr := rerr b; lastByte := Some (last got zero) |})
  | [] =>
      match rerr b with
      | Some _ => let '(e, b') := readErr b in Ret (([], e), b')
      | None =>
          match rd b with
          | None => Panic "invalid memory address or nil pointer dereference"
          | Some c =>
              match conn_Read (Z.to_nat defaultBufSize) (incoming c) with
              | None =>
                  Ret (([], Some (incoming_err c)),
                       {| rpos := 0; window := [];
                          rd := Some (mkConn (remoteAddr c) [] (incoming_err c));
                          rerr := None; lastByte := lastByte b |})
              | Some (d, q) =>
                  let got := firstn n d in
                  Ret ((got, None),
                       {| rpos := len got; window := skipn n d;
                          rd := Some (mkConn (remoteAddr c) q (incoming_err c));
                          rerr := None; lastByte := Some (last got zero) |})
              end
          end
      end
  end.

(** [io.ReadFull(b, p)] with [len(p) = n]: [io.ReadAtLeast] calls
    [b.Read(p[got:])] until [p] is full or a read fails.  A failure after
    some bytes arrived is reported as [ErrUnexpectedEOF] when it was
    [EOF]. *)
Fixpoint ReadFull_loop (fuel : nat) (need : nat) (acc : bytes) (b : Reader)
  : outcome ((bytes * option error) * Reader) :=
  match need with
  | O => Ret ((acc, None), b)
  | S _ =>
      match fuel with
      | O => OutOfFuel
      | S fuel' =>
          match Read need b with
          | Ret ((got, None), b') =>
              ReadFull_loop fuel' (need - length got) (acc ++ got) b'
          | Ret ((got, Some e), b') =>
              let e' := match e, acc ++ got with
                        | EOF, _ :: _ => ErrUnexpectedEOF
                        | _, _ => e
                        end in
              Ret ((acc ++ got, Some e'), b')
          | Panic m => Panic m
          | OutOfFuel => OutOfFuel
          end
      end
  end.

Definition ReadFull (n : nat) (b : Reader) : outcome ((bytes * option error) * Reader) :=
  ReadFull_loop (S n) n [] b.

(** [bytes.IndexByte]: the prefix up to and including the first [delim],
    and what follows it. *)
Fixpoint split_at_delim (delim : byte) (l : bytes) : option (bytes * bytes) :=
  match l with
  | [] => None
  | c :: l' =>
      if byte_eqb c delim then Some ([c], l')
      else match split_at_delim delim l' with
           | Some (line, rest) => Some (c :: line, rest)
           | None => None
           end
  end.

Definition last_opt (l : bytes) (d : option byte) : option byte :=
  match l with
  | [] => d
  | _ :: _ => Some (last l zero)
  end.

(** [b.ReadSlice(delim)]. *)
Fixpoint ReadSlice_loop (fuel : nat) (delim : byte) (b : Reader)
  : outcome ((bytes * option error) * Reader) :=
  match split_at_delim delim (window b) with
  | Some (line, rest) =>
      Ret ((line, None),
           {| rpos := rpos b + len line; window := rest; rd := rd b;
              rerr := rerr b; lastByte := last_opt line (lastByte b) |})
  | None =>
      match rerr b with
      | Some e =>
          Ret ((window b, Some e),
               {| rpos := rpos b + Buffered b; window := []; rd := rd b;
                  rerr := None; lastByte := last_opt (window b) (lastByte b) |})
      | None =>
          if defaultBufSize <=? Buffered b then
            Ret ((window b, Some ErrBufferFull),
                 {| rpos := rpos b + Buffered b; window := []; rd := rd b;
                    rerr := None; lastByte := last_opt (window b) (lastByte b) |})
          else
            match fuel with
            | O => OutOfFuel
            | S fuel' =>
                match fill b with
                | Ret b' => ReadSlice_loop fuel' delim b'
                | Panic m => Panic m
                | OutOfFuel => OutOfFuel
                end
            end
      end
  end.

Definition ReadSlice (delim : byte) (b : Reader)
  : outcome ((bytes * option error) * Reader) :=
  ReadSlice_loop (Z.to_nat defaultBufSize + 2) delim b.

(** [b.Peek(n)]. *)
Fixpoint Peek_loop (fuel : nat) (n : Z) (b : Reader) : outcome Reader :=
  if (Buffered b <? n) && (Buffered b <? defaultBufSize) && isNil (rerr b) then
    match fuel with
    | O => OutOfFuel
    | S fuel' =>
        match fill b with
        | Ret b' => Peek_loop fuel' n b'
        | Panic m => Panic m
        | OutOfFuel => OutOfFuel
        end
    end
  else Ret b.

Definition Peek (n : Z) (b : Reader) : outcome ((bytes * option error) * Reader) :=
  if n <? 0 then Ret (([], Some ErrNegativeCount), b)
  else
    let b0 := {| rpos := rpos b; window := window b; rd := rd b;
                 rerr := rerr b; lastByte := None |} in
    match Peek_loop (Z.to_nat defaultBufSize + 2) n b0 with
    | Ret b1 =>
        if defaultBufSize <? n then Ret ((window b1, Some ErrBufferFull), b1)
        else if Buffered b1 <? n then
          let '(e, b2) := readErr b1 in
          Ret ((window b1,
                Some (match e with Some e' => e' | None => ErrBufferFull end)),
               b2)
        else Ret ((firstn (Z.to_nat n) (window b1), None), b1)
    | Panic m => Panic m
    | OutOfFuel => OutOfFuel
    end.

(* ================================================================== *)
(** ** Configuration *)

(** The package-level variables [cfgSecret], [cfgDialRetry] and
    [cfgDialTimeout]. *)
Record Config : Type := mkConfig {
  cfgSecret : bytes;
  cfgDialRetry : Z;
  cfgDialTimeout : Z
}.

Definition digit_of (c : ascii) : option Z :=
  let n := Z.of_N (N_of_ascii c) in
  if (48 <=? n) && (n <=? 57) then Some (n - 48) else None.

Fixpoint parse_digits (s : string) (acc : Z) : option Z :=
  match s with
  | EmptyString => Some acc
  | String c s' =>
      match digit_of c with
      | Some d => parse_digits s' (10 * acc + d)
      | None => None
      end
  end.

(** [strconv.Atoi]: an optional sign, then decimal digits, within the
    range of a 64-bit [int]. *)
Definition Atoi (s : string) : Z * option error :=
  let '(sign, body) :=
    match s with
    | String "+"%char s' => (1, s')
    | String "-"%char s' => (-1, s')
    | _ => (1, s)
    end in
  match body with
  | EmptyString => (0, Some (OtherError "strconv.Atoi: invalid syntax"))
  | String _ _ =>
      match parse_digits body 0 with
      | None => (0, Some (OtherError "strconv.Atoi: invalid syntax"))
      | Some n =>
          let v := sign * n in
          if v <? - 2 ^ 63 then
            (- 2 ^ 63, Some (OtherError "strconv.Atoi: value out of range"))
          else if 2 ^ 63 - 1 <? v then
            (2 ^ 63 - 1, Some (OtherError "strconv.Atoi: value out of range"))
          else (v, None)
      end
  end.

(** How start-up ends: with the configuration, or in [log.Fatalf]. *)
Inductive startup : Type :=
| Configured (c : Config)
| Fatal (msg : string).

Definition isEmpty (s : string) : bool :=
  match s with
  | EmptyString => true
  | String _ _ => false
  end.

(** [config()], over the process environment [getenv].  [cfgDialRetry]
    starts from its initial value [1]. *)
Definition config (getenv : string -> string) : startup :=
  let secret := bytes_of_string (getenv "GW_SECRET") in
  let retry :=
    let v := getenv "GW_DIAL_RETRY" in
    if negb (isEmpty v) then
      let '(n, err) := Atoi v in
      match err with
      | Some _ => inr "GW_DIAL_RETRY"
      | None => inl (if n =? 0 then 1 else n)
      end
    else inl 1 in
  match retry with
  | inr m => Fatal m
  | inl dialRetry =>
      let timeout :=
        let v := getenv "GW_DIAL_TIMEOUT" in
        if negb (isEmpty v) then
          let '(n, err) := Atoi v in
          match err with
          | Some _ => inr "GW_DIAL_TIMEOUT"
          | None => inl n
          end
        else inl 0 in
      match timeout with
      | inr m => Fatal m
      | inl t =>
          let t' := if t =? 0 then 3 else t in
          Configured (mkConfig secret dialRetry (wrap64 (t' * Second)))
      end
  end.

(* ================================================================== *)
(** ** The accept loop *)

(** What the listener answers to one [Accept] call. *)
Inductive accept_answer : Type :=
| Accepted (c : Conn)
| AcceptFailed (e : error).

Record accepted : Type := mkAccepted {
  acc_conn : option Conn;
  acc_err : option error;
  acc_slept : list Z;        (* the arguments of [time.Sleep], in order *)
  acc_tempDelay : Z;         (* [tempDelay] when [accept] returns *)
  acc_rest : list accept_answer
}.

(** [accept(listener)]: the listener is the script of its answers; once
    the script is used up the listener is closed, which [Accept] reports
    as an error that is not temporary. *)
Fixpoint accept_loop (listener : list accept_answer) (tempDelay : Z)
    (slept : list Z) : accepted :=
  match listener with
  | [] =>
      mkAccepted None (Some (OtherError "use of closed network connection"))
        slept tempDelay []
  | Accepted c :: rest => mkAccepted (Some c) None slept 0 rest
  | AcceptFailed e :: rest =>
      if is_temporary e then
        let d1 := if tempDelay =? 0 then 5 * Millisecond
                  else wrap64 (tempDelay * 2) in
        let d2 := if 1 * Second <? d1 then 1 * Second else d1 in
        accept_loop rest d2 (slept ++ [d2])
      else mkAccepted None (Some e) slept tempDelay rest
  end.

Definition accept (listener : list accept_answer) : accepted :=
  accept_loop listener 0 [].

(** [loop(listener)]: the connections handed to [go handle(conn)] and the
    sleeps of every [accept] call, one list per call. *)
Fixpoint loop (fuel : nat) (listener : list accept_answer)
  : list Conn * list (list Z) :=
  match fuel with
  | O => ([], [])
  | S fuel' =>
      let a := accept listener in
      match acc_conn a, acc_err a with
      | Some c, None =>
          let '(cs, ss) := loop fuel' (acc_rest a) in
          (c :: cs, acc_slept a :: ss)
      | _, _ => ([], [acc_slept a])
      end
  end.

(* ================================================================== *)
(** ** The connection handler *)

Definition codeOK : bytes := bytes_of_string "200".
Definition codeBadReq : bytes := bytes_of_string "400".
Definition codeBadAddr : bytes := bytes_of_string "401".
Definition codeDialErr : bytes := bytes_of_string "502".
Definition codeDialTimeout : bytes := bytes_of_string "503".

(** The two sockets of a relay: [conn] and [agent]. *)
Inductive sock : Type := ClientSock | AgentSock.

(** A backend connection returned by [net.DialTimeout], named by the
    number of the dial call that opened it. *)
Inductive AgentConn : Type := agentOf (attempt : nat).

(** A call started with [go]. *)
Inductive task : Type := SafeCopy (dst src : sock).

(** What the handler does to the outside world. *)
Inductive event : Type :=
| ConnWrite (p : bytes)                     (* conn.Write(p) *)
| ConnClose                                 (* conn.Close() *)
| DialTimeout (addr : bytes) (timeout : Z)  (* net.DialTimeout("tcp", addr, timeout) *)
| AgentSetWriteDeadline (after : option Z)  (* now + d, or the zero time *)
| AgentWrite (p : bytes)                    (* agent.Write(p) *)
| AgentClose                                (* agent.Close() *)
| Go (t : task)                             (* go t *)
| IoCopy (dst src : sock)                   (* io.Copy(dst, src) *)
| LogPanic (msg : string).                  (* log.Printf in a recover *)

(** The calls registered with [defer] in [handle]. *)
Inductive deferred : Type :=
| DeferCloseRecover
| DeferReleaseBufio
| DeferAgentClose (agent : AgentConn).

(** The state a handler works on: the [bufio.Reader] its [reader] points
    to ([None] while the variable is nil), the shared [bufioPool], the
    local [bufioReleased], the stack of deferred calls and the trace. *)
Record State : Type := mkState {
  reader : option Reader;
  bufioPool : list Reader;
  bufioReleased : bool;
  defers : list deferred;
  trace : list event
}.

Definition initState (pool : list Reader) : State :=
  mkState None pool false [] [].

Definition M (A : Type) : Type := State -> outcome A * State.

Definition ret {A : Type} (a : A) : M A := fun s => (Ret a, s).

Definition bind {A B : Type} (m : M A) (f : A -> M B) : M B :=
  fun s =>
    match m s with
    | (Ret a, s') => f a s'
    | (Panic msg, s') => (Panic msg, s')
    | (OutOfFuel, s') => (OutOfFuel, s')
    end.

Definition panic {A : Type} (msg : string) : M A := fun s => (Panic msg, s).

Declare Scope gw_scope.
Delimit Scope gw_scope with gw.
Notation "x <- m ;; k" := (bind m (fun x => k))
  (at level 61, m at next level, right associativity) : gw_scope.
Notation "' p <- m ;; k" := (bind m (fun x => let 'p := x in k))
  (at level 61, p pattern, m at next level, right associativity) : gw_scope.
Notation "m ;; k" := (bind m (fun _ => k))
  (at level 61, right associativity) : gw_scope.
Local Open Scope gw_scope.

Definition emit (e : event) : M unit :=
  fun s =>
    (Ret tt,
     mkState (reader s) (bufioPool s) (bufioReleased s) (defers s) (trace s ++ [e])).

Definition defer (d : deferred) : M unit :=
  fun s =>
    (Ret tt,
     mkState (reader s) (bufioPool s) (bufioReleased s) (d :: defers s) (trace s)).

Definition set_reader (r : option Reader) : M unit :=
  fun s =>
    (Ret tt, mkState r (bufioPool s) (bufioReleased s) (defers s) (trace s)).

Definition set_bufioReleased (b : bool) : M unit :=
  fun s => (Ret tt, mkState (reader s) (bufioPool s) b (defers s) (trace s)).

(** A method of [*bufio.Reader] called through the handler's [reader]. *)
Definition onReader {A : Type} (f : Reader -> outcome (A * Reader)) : M A :=
  fun s =>
    match reader s with
    | None => (Panic "invalid memory address or nil pointer dereference", s)
    | Some b =>
        match f b with
        | Ret (a, b') =>
            (Ret a,
             mkState (Some b') (bufioPool s) (bufioReleased s) (defers s) (trace s))
        | Panic msg => (Panic msg, s)
        | OutOfFuel => (OutOfFuel, s)
        end
    end.

(** [reader.Reset(c)]. *)
Definition reader_Reset (c : option Conn) : M unit :=
  onReader (fun b => Ret (tt, Reset b c)).

(** [bufioPool.Put(reader)]. *)
Definition bufioPool_Put : M unit :=
  fun s =>
    match reader s with
    | None => (Ret tt, s)
    | Some b =>
        (Ret tt,
         mkState (reader s) (b :: bufioPool s) (bufioReleased s) (defers s) (trace s))
    end.

Fixpoint remove_nth {A : Type} (n : nat) (l : list A) : list A :=
  match l, n with
  | [], _ => []
  | _ :: l', O => l'
  | x :: l', S n' => x :: remove_nth n' l'
  end.

Definition count_events (p : event -> bool) (t : list event) : nat :=
  length (filter p t).

Definition isDial (e : event) : bool :=
  match e with DialTimeout _ _ => true | _ => false end.
Definition isConnWrite (e : event) : bool :=
  match e with ConnWrite _ => true | _ => false end.
Definition isAgentCall (e : event) : bool :=
  match e with
  | AgentSetWriteDeadline _ | AgentWrite _ | AgentClose => true
  | _ => false
  end.

(** The answers of the environment: the cipher of package [aes256cbc],
    the dialer, the two sockets and [sync.Pool].  Dial calls, calls on
    the agent socket and writes to the client socket are numbered from 0
    in the order the handler makes them. *)
Record Env : Type := mkEnv {
  Decrypt : bytes -> bytes -> bytes * option error;
  DecryptBase64 : bytes -> bytes -> bytes * option error;
  dial_answer : nat -> option error;
  agent_answer : nat -> option error;
  conn_write_answer : nat -> option error;
  pool_choice : option nat   (* which pooled entry [Get] hands out, if any *)
}.

Section Gateway.

Variable env : Env.
Variable cfg : Config.

(** [bufioPool.Get().( *bufio.Reader)]: an entry of the pool, taken out of
    it, or nil. *)
Definition bufioPool_Get : M (option Reader) :=
  fun s =>
    match pool_choice env with
    | None => (Ret None, s)
    | Some i =>
        match nth_error (bufioPool s) i with
        | None => (Ret None, s)
        | Some b =>
            (Ret (Some b),
             mkState (reader s) (remove_nth i (bufioPool s)) (bufioReleased s)
               (defers s) (trace s))
        end
    end.

Definition conn_Write (p : bytes) : M (option error) :=
  fun s =>
    match emit (ConnWrite p) s with
    | (_, s') => (Ret (conn_write_answer env (count_events isConnWrite (trace s))), s')
    end.

Definition net_DialTimeout (addr : bytes) (timeout : Z)
  : M (option AgentConn * option error) :=
  fun s =>
    let k := count_events isDial (trace s) in
    match emit (DialTimeout addr timeout) s with
    | (_, s') =>
        match dial_answer env k with
        | None => (Ret (Some (agentOf k), None), s')
        | Some e => (Ret (None, Some e), s')
        end
    end.

(** A method of the [agent] interface value; calling it on nil panics. *)
Definition agent_call (agent : option AgentConn) (e : event) : M (option error) :=
  fun s =>
    match agent with
    | None => (Panic "invalid memory address or nil pointer dereference", s)
    | Some _ =>
        match emit e s with
        | (_, s') => (Ret (agent_answer env (count_events isAgentCall (trace s))), s')
        end
    end.

(** [handshakeBinary(conn, reader)]. *)
Definition handshakeBinary : M (bytes * option error) :=
  '(n, err) <- onReader ReadByte ;;
  match err with
  | Some _ => conn_Write codeBadReq ;; ret ([], err)
  | None =>
      '(bin, err) <- onReader (ReadFull (Z.to_nat (int_of_byte n))) ;;
      match err with
      | Some _ => conn_Write codeBadReq ;; ret ([], err)
      | None =>
          let '(addr, err) := Decrypt env (cfgSecret cfg) bin in
          match err with
          | Some _ => conn_Write codeBadAddr ;; ret ([], err)
          | None => ret (addr, err)
          end
      end
  end.

Definition newline : byte := "010"%char.

(** [handshakeText(conn, reader)]. *)
Definition handshakeText : M (bytes * option error) :=
  '(base64, err) <- onReader (ReadSlice newline) ;;
  match err with
  | Some _ => conn_Write codeBadReq ;; ret ([], err)
  | None =>
      let '(addr, err) := DecryptBase64 env (cfgSecret cfg) base64 in
      match err with
      | Some _ => conn_Write codeBadAddr ;; ret ([], err)
      | None => ret (addr, err)
      end
  end.

(** [handshake(conn, reader)]. *)
Definition handshake : M (bytes * option error) :=
  '(firstByte, err) <- onReader ReadByte ;;
  match err with
  | Some _ => conn_Write codeBadReq ;; ret ([], err)
  | None =>
      if int_of_byte firstByte =? 0 then handshakeBinary
      else
        err <- onReader (fun b => Ret (UnreadByte b)) ;;
        match err with
        | Some _ => ret ([], err)
        | None => handshakeText
        end
  end.

(** [copy(dst, src)]: the first [min(len(dst), len(src))] elements of
    [dst] are overwritten. *)
Definition copy (dst src : bytes) : bytes :=
  firstn (length dst) src ++ skipn (length src) dst.

(** The preamble built in the array [buf] of [agentInit]:
    [addrBuf := buf[:byte(len(addr)+1)]], then
    [addrBuf[0] = byte(len(addr))], which panics on an empty slice, then
    [copy(addrBuf[1:], addr)]. *)
Definition addrPreamble (addr : bytes) : outcome bytes :=
  let buf := repeat zero 256 in
  let addrBuf := firstn (Z.to_nat (int_of_byte (byte_of_int (len addr + 1)))) buf in
  match addrBuf with
  | [] => Panic "index out of range [0] with length 0"
  | _ :: addrBuf1 => Ret (byte_of_int (len addr) :: copy addrBuf1 addr)
  end.

Definition lift {A : Type} (o : outcome A) : M A := fun s => (o, s).

(** [agentInit(agent, conn, reader)]. *)
Definition agentInit (agent : option AgentConn) (conn : Conn) : M (option error) :=
  err <- agent_call agent (AgentSetWriteDeadline (Some (cfgDialTimeout cfg))) ;;
  match err with
  | Some _ => ret err
  | None =>
      addrBuf <- lift (addrPreamble (remoteAddr conn)) ;;
      err <- agent_call agent (AgentWrite addrBuf) ;;
      match err with
      | Some _ => ret err
      | None =>
          '(data, err) <- onReader (fun b => Peek (Buffered b) b) ;;
          match err with
          | Some _ => ret err
          | None =>
              err <- agent_call agent (AgentWrite data) ;;
              match err with
              | Some _ => ret err
              | None => agent_call agent (AgentSetWriteDeadline None)
              end
          end
      end
  end.

(** How the [for] loop of [dial] is left: through its condition or
    [break], with the current [agent] and [err], or through the [return]
    inside it. *)
Inductive loop_exit : Type :=
| LoopDone (agent : option AgentConn) (err : option error)
| LoopReturn (agent : option AgentConn) (err : option error).

Fixpoint dial_loop (fuel : nat) (i : Z) (addr : bytes)
    (agent : option AgentConn) (err : option error) : M loop_exit :=
  if i <? cfgDialRetry cfg then
    match fuel with
    | O => fun s => (OutOfFuel, s)
    | S fuel' =>
        '(agent, err) <- net_DialTimeout addr (cfgDialTimeout cfg) ;;
        match err with
        | None => ret (LoopDone agent err)
        | Some e =>
            if is_timeout e then dial_loop fuel' (i + 1) addr agent err
            else conn_Write codeDialErr ;; ret (LoopReturn None err)
        end
    end
  else ret (LoopDone agent err).

(** [dial(addr, conn, reader)]. *)
Definition dial (addr : bytes) (conn : Conn) : M (option AgentConn * option error) :=
  x <- dial_loop (Z.to_nat (cfgDialRetry cfg)) 0 addr None None ;;
  match x with
  | LoopReturn agent err => ret (agent, err)
  | LoopDone agent err =>
      match err with
      | Some _ => conn_Write codeDialTimeout ;; ret (None, err)
      | None =>
          err <- agentInit agent conn ;;
          match err with
          | Some _ =>
              agent_call agent AgentClose ;;
              conn_Write codeDialErr ;;
              ret (None, err)
          | None => ret (agent, err)
          end
      end
  end.

(** [io.Copy(dst, src)] copies from [src] to [dst] until [src] ends. *)
Definition io_Copy (dst src : sock) : M unit := emit (IoCopy dst src).

(** [safeCopy(dst, src)]: [io.Copy(dst, src)] under a [recover]. *)
Definition safeCopy (dst src : sock) : M unit :=
  fun s =>
    match io_Copy dst src s with
    | (Panic msg, s') => emit (LogPanic msg) s'
    | r => r
    end.

Definition run_task (t : task) : M unit :=
  match t with
  | SafeCopy dst src => safeCopy dst src
  end.

(** The statement [go t]: the call runs as a goroutine of its own and the
    handler goes on at once. *)
Definition go (t : task) : M unit := emit (Go t).

(** The first lines of [handle]: borrow a reader from the pool and bind
    it to [conn], or make a new one. *)
Definition borrow (conn : Conn) : M unit :=
  r <- bufioPool_Get ;;
  match r with
  | Some b => set_reader (Some b) ;; reader_Reset (Some conn)
  | None => set_reader (Some (NewReader conn))
  end.

(** The body of [handle(conn)], up to the point where it returns or
    panics. *)
Definition handle_body (conn : Conn) : M unit :=
  defer DeferCloseRecover ;;
  borrow conn ;;
  set_bufioReleased false ;;
  defer DeferReleaseBufio ;;
  '(addr, err) <- handshake ;;
  match err with
  | Some _ => ret tt
  | None =>
      '(agent, err) <- dial addr conn ;;
      match err with
      | Some _ => ret tt
      | None =>
          match agent with
          | None => panic "invalid memory address or nil pointer dereference"
          | Some a => defer (DeferAgentClose a)
          end ;;
          set_bufioReleased true ;;
          reader_Reset None ;;
          bufioPool_Put ;;
          err <- conn_Write codeOK ;;
          match err with
          | Some _ => ret tt
          | None =>
              go (SafeCopy AgentSock ClientSock) ;;
              io_Copy ClientSock AgentSock
          end
      end
  end.

(** One deferred call. *)
Definition run_deferred (d : deferred) : M unit :=
  match d with
  | DeferAgentClose a => agent_call (Some a) AgentClose ;; ret tt
  | DeferReleaseBufio =>
      fun s =>
        if negb (bufioReleased s) then (reader_Reset None ;; bufioPool_Put) s
        else (Ret tt, s)
  | DeferCloseRecover => emit ConnClose
  end.

(** The deferred calls run last-in first-out, also while panicking; a
    panic inside one replaces the one in flight, and the [recover] of
    the first deferred function stops the panic and logs it. *)
Fixpoint run_defers (ds : list deferred) (o : outcome unit) (s : State)
  : outcome unit * State :=
  match ds with
  | [] => (o, s)
  | d :: ds' =>
      match run_deferred d s with
      | (o1, s1) =>
          let o2 := match o1 with Ret _ => o | _ => o1 end in
          match d, o2 with
          | DeferCloseRecover, Panic msg =>
              match emit (LogPanic msg) s1 with
              | (_, s2) => run_defers ds' (Ret tt) s2
              end
          | _, _ => run_defers ds' o2 s1
          end
      end
  end.

(** [handle(conn)]. *)
Definition handle (conn : Conn) : M unit :=
  fun s =>
    match handle_body conn s with
    | (o, s1) =>
        run_defers (defers s1) o
          (mkState (reader s1) (bufioPool s1) (bufioReleased s1) [] (trace s1))
    end.

End Gateway.

(* ================================================================== *)
(** ** Vocabulary of the statements *)

(** The delay slept after the [k]-th consecutive temporary failure,
    counted from 0: 5ms doubled [k] times, but at most one second. *)
Definition backoff (k : nat) : Z :=
  Z.min (5 * Millisecond * 2 ^ Z.of_nat k) Second.

(** One dial attempt as it shows in the trace. *)
Definition attempt (cfg : Config) (addr : bytes) : event :=
  DialTimeout addr (cfgDialTimeout cfg).

(** One turn of the back-off arithmetic of [accept]. *)
Definition next_delay (tempDelay : Z) : Z :=
  let d1 := if tempDelay =? 0 then 5 * Millisecond else wrap64 (tempDelay * 2) in
  if 1 * Second <? d1 then 1 * Second else d1.

(** The state [s] with [evs] appended to its trace. *)
Definition extend (s : State) (evs : list event) : State :=
  mkState (reader s) (bufioPool s) (bufioReleased s) (defers s) (trace s ++ evs).

(** The [k]-th dial call, counted from 0, ends in a timeout. *)
Definition timed_out (env : Env) (k : nat) : Prop :=
  exists e, dial_answer env k = Some e /\ is_timeout e = true.

(** [agent] and [err] after [k] attempts that all timed out, the first of
    them being dial call number [d0]. *)
Definition after_timeouts (env : Env) (d0 k : nat) (agent : option AgentConn)
    (err : option error) : option AgentConn * option error :=
  match k with
  | O => (agent, err)
  | S k' => (None, dial_answer env (d0 + k'))
  end.

(** [frame s s' evs]: going from [s] to [s'] appended [evs] to the trace
    and changed nothing but the reader, which is still there. *)
Definition frame (s s' : State) (evs : list event) : Prop :=
  bufioPool s' = bufioPool s /\
  bufioReleased s' = bufioReleased s /\
  defers s' = defers s /\
  trace s' = trace s ++ evs /\
  (reader s <> None -> reader s' <> None).

(** Events on the backend side: they write nothing to the client. *)
Definition quiet (e : event) : bool :=
  match e with
  | DialTimeout _ _ | AgentSetWriteDeadline _ | AgentWrite _ | AgentClose => true
  | _ => false
  end.

(** The bytes the backend is sent, in order. *)
Definition agent_received (t : list event) : bytes :=
  flat_map (fun e => match e with AgentWrite p => p | _ => [] end) t.

(** The status tokens written to the client, in order. *)
Definition tokens (t : list event) : list bytes :=
  flat_map (fun e => match e with ConnWrite p => [p] | _ => [] end) t.

(** The bytes still queued in the socket behind a reader, and everything
    the reader will yield: its window, then what is queued. *)
Definition queued (b : Reader) : bytes :=
  match rd b with
  | Some c => concat (incoming c)
  | None => []
  end.

Definition stream (b : Reader) : bytes := window b ++ queued b.

(** The error the socket behind the reader reports at its end. *)
Definition end_err (b : Reader) : option error :=
  match rd b with
  | Some c => Some (incoming_err c)
  | None => None
  end.

(** A reader bound to a socket, with its window inside the buffer. *)
Definition wf (b : Reader) : Prop :=
  rd b <> None /\ 0 <= rpos b /\ rpos b + Buffered b <= defaultBufSize.

(** A well-formed reader with no error pending. *)
Definition ready (b : Reader) : Prop := wf b /\ rerr b = None.

(** What a handshake comes to: the decrypted address, with the stream
    that follows the frame, or a status token. *)
Inductive verdict : Type :=
| Routed (addr rest : bytes)
| Rejected (code : bytes).

(** The verdict on a binary frame, given the stream behind the marker
    byte: a length byte [n], then [n] bytes of ciphertext. *)
Definition binary_verdict (env : Env) (cfg : Config) (st : bytes) : verdict :=
  match st with
  | [] => Rejected codeBadReq
  | n :: tl =>
      let k := Z.to_nat (int_of_byte n) in
      if (length tl <? k)%nat then Rejected codeBadReq
      else match Decrypt env (cfgSecret cfg) (firstn k tl) with
           | (_, Some _) => Rejected codeBadAddr
           | (addr, None) => Routed addr (skipn k tl)
           end
  end.

(** The verdict on a text frame whose line, the newline included, is
    [line]. *)
Definition text_verdict (env : Env) (cfg : Config) (line rest : bytes) : verdict :=
  match DecryptBase64 env (cfgSecret cfg) line with
  | (_, Some _) => Rejected codeBadAddr
  | (addr, None) => Routed addr rest
  end.

(** A handshake call ended as the verdict says. *)
Definition agrees (v : verdict) (addr : bytes) (err : option error)
    (evs : list event) (b' : Reader) : Prop :=
  match v with
  | Routed a rest => err = None /\ addr = a /\ evs = [] /\ stream b' = rest
  | Rejected c => err <> None /\ addr = [] /\ evs = [ConnWrite c]
  end.

(** On an error exactly one of 400 and 401 was written, else nothing. *)
Definition token_shape (err : option error) (evs : list event) : Prop :=
  match err with
  | None => evs = []
  | Some _ => evs = [ConnWrite codeBadReq] \/ evs = [ConnWrite codeBadAddr]
  end.

(** The state [s] with its reader replaced by [b]. *)
Definition with_reader (s : State) (b : Reader) : State :=
  mkState (Some b) (bufioPool s) (bufioReleased s) (defers s) (trace s).

(** The pool once [Get] has taken its pick out of it. *)
Definition pool_after_get (env : Env) (pool : list Reader) : list Reader :=
  match pool_choice env with
  | Some i =>
      match nth_error pool i with
      | Some _ => remove_nth i pool
      | None => pool
      end
  | None => pool
  end.

(** The state in which [handle] calls [handshake]. *)
Definition atHandshake (env : Env) (conn : Conn) (pool : list Reader) : State :=
  mkState (Some (NewReader conn)) (pool_after_get env pool) false
    [DeferReleaseBufio; DeferCloseRecover] [].

(** What [handle] does once the bootstrap is done. *)
Definition relay (env : Env) (k : nat) : list event :=
  ConnWrite codeOK
  :: match conn_write_answer env k with
     | None => [Go (SafeCopy AgentSock ClientSock); IoCopy ClientSock AgentSock]
     | Some _ => []
     end
  ++ [AgentClose; ConnClose].

(** The five status tokens. *)
Definition statusTokens : list bytes :=
  [codeOK; codeBadReq; codeBadAddr; codeDialErr; codeDialTimeout].

(** The two directions of a relay. *)
Inductive direction : Type := ClientToBackend | BackendToClient.

(** [io.Copy(dst, src)] reads from [src] and writes to [dst]. *)
Definition direction_of (dst src : sock) : option direction :=
  match src, dst with
  | ClientSock, AgentSock => Some ClientToBackend
  | AgentSock, ClientSock => Some BackendToClient
  | _, _ => None
  end.

(** The copies a goroutine runs. *)
Definition task_copies (t : task) : list (option direction) :=
  flat_map (fun e => match e with
                     | IoCopy dst src => [direction_of dst src]
                     | _ => []
                     end)
    (trace (snd (run_task t (initState [])))).

(** The events of the relay phase. *)
Definition isRelay (e : event) : bool :=
  match e with
  | Go _ | IoCopy _ _ => true
  | _ => false
  end.

(** A pooled reader that holds nothing: no buffered byte, no connection,
    no pending error. *)
Definition clean (b : Reader) : Prop :=
  window b = [] /\ rd b = None /\ rerr b = None.

(** Two handler states that differ in the pool at most. *)
Definition same_but_pool (s t : State) : Prop :=
  reader s = reader t /\ bufioReleased s = bufioReleased t /\
  defers s = defers t /\ trace s = trace t.

(** A computation that does not look into the pool: from states that
    differ in the pool at most it ends alike, in states that differ in the
    pool at most. *)
Definition pool_blind {A : Type} (m : M A) : Prop :=
  forall s t, same_but_pool s t ->
    fst (m s) = fst (m t) /\ same_but_pool (snd (m s)) (snd (m t)).

(* ================================================================== *)
(** ** Sample environments and inputs *)

Definition acceptTemporary : error := NetError false true.

(** Nine temporary failures, then a connection. *)
Definition busyListener : list accept_answer :=
  map AcceptFailed (repeat acceptTemporary 9) ++ [Accepted (mkConn [] [] EOF)].

(** A stand-in for the cipher: the plaintext is the ciphertext read
    backwards, and an empty ciphertext does not decrypt. *)
Definition sampleDecrypt (secret bin : bytes) : bytes * option error :=
  match bin with
  | [] => ([], Some (OtherError "aes256cbc: bad ciphertext"))
  | _ :: _ => (rev bin, None)
  end.

Definition b64_value (c : ascii) : option N :=
  let n := N_of_ascii c in
  (if (65 <=? n) && (n <=? 90) then Some (n - 65)
   else if (97 <=? n) && (n <=? 122) then Some (n - 71)
   else if (48 <=? n) && (n <=? 57) then Some (n + 4)
   else if n =? 43 then Some 62
   else if n =? 47 then Some 63
   else None)%N.

Definition isPad (c : ascii) : bool := (N_of_ascii c =? 61)%N.

(** Standard base64 decoding of a text without line breaks. *)
Fixpoint b64_quads (l : bytes) : option bytes :=
  match l with
  | [] => Some []
  | a :: b :: c :: d :: rest =>
      match b64_value a, b64_value b with
      | Some x, Some y =>
          let b1 := ascii_of_N (x * 4 + y / 16) in
          if isPad d then
            match rest with
            | [] =>
                if isPad c then Some [b1]
                else match b64_value c with
                     | Some z => Some [b1; ascii_of_N ((y mod 16) * 16 + z / 4)]
                     | None => None
                     end
            | _ :: _ => None
            end
          else
            match b64_value c, b64_value d, b64_quads rest with
            | Some z, Some w, Some t =>
                Some (b1 :: ascii_of_N ((y mod 16) * 16 + z / 4)
                         :: ascii_of_N ((z mod 4) * 64 + w) :: t)
            | _, _, _ => None
            end
      | _, _ => None
      end
  | _ => None
  end%N.

(** As Go's [base64.StdEncoding.Decode], carriage returns and line feeds
    are skipped. *)
Definition base64_decode (line : bytes) : option bytes :=
  b64_quads
    (filter (fun c => negb ((N_of_ascii c =? 10)%N || (N_of_ascii c =? 13)%N)) line).

Definition sampleDecryptBase64 (secret line : bytes) : bytes * option error :=
  match base64_decode line with
  | Some bin => sampleDecrypt secret bin
  | None => ([], Some (OtherError "illegal base64 data"))
  end.

Definition never : nat -> option error := fun _ => None.

Definition dialTimeoutError : error := NetError true false.
Definition dialRefused : error := OtherError "connection refused".

(** Everything works: every dial connects, every socket call succeeds,
    the pool is empty. *)
Definition envOK : Env :=
  mkEnv sampleDecrypt sampleDecryptBase64 never never never None.

(** Every dial times out. *)
Definition envTimeout : Env :=
  mkEnv sampleDecrypt sampleDecryptBase64 (fun _ => Some dialTimeoutError)
    never never None.

(** The first dial times out and the second is refused. *)
Definition envRefused : Env :=
  mkEnv sampleDecrypt sampleDecryptBase64
    (fun k => match k with O => Some dialTimeoutError | _ => Some dialRefused end)
    never never None.

(** The first dial times out, the second connects. *)
Definition envSecond : Env :=
  mkEnv sampleDecrypt sampleDecryptBase64
    (fun k => match k with O => Some dialTimeoutError | _ => None end)
    never never None.

(** The dial connects but the backend fails the first write. *)
Definition envBootFail : Env :=
  mkEnv sampleDecrypt sampleDecryptBase64 never
    (fun k => match k with 1%nat => Some (NetError false false) | _ => None end)
    never None.

Definition cfgOf (retry : Z) : Config :=
  mkConfig (bytes_of_string "secret") retry (3 * Second).

Definition backendAddr : bytes := bytes_of_string "10.0.0.7:9000".

Definition clientOf (q : list bytes) : Conn :=
  mkConn (bytes_of_string "192.0.2.1:50000") q EOF.

(** A handler state whose reader is bound to [c] and holds [w]. *)
Definition stateWith (c : Conn) (w : bytes) : State :=
  mkState (Some (mkReader 0 w (Some c) None None)) [] false [] [].

Definition sampleGetenv (retry : string) (name : string) : string :=
  if String.eqb name "GW_DIAL_RETRY" then retry else "".

Definition longAddr (n : nat) : bytes := repeat "a"%char n.

(** A binary frame that announces three bytes and ends after one. *)
Definition shortFrame : Conn :=
  clientOf [[zero; "003"%char]; bytes_of_string "a"].

(** A whole binary frame with an empty ciphertext, which the sample
    cipher refuses, and data behind it. *)
Definition emptyCipherFrame : Conn :=
  clientOf [[zero; zero]; bytes_of_string "pipelined"].

(** The address ["CBA"] under the sample cipher: its ciphertext is
    ["ABC"], in base64 ["QUJD"]; the binary frame arrives in two
    segments and the text frame byte by byte. *)
Definition binaryABC : Conn :=
  clientOf [[zero; "003"%char; "A"%char]; bytes_of_string "BChello"].

Definition textABC : Conn :=
  clientOf [["Q"%char]; ["U"%char]; ["J"%char]; ["D"%char]; [newline];
            bytes_of_string "hello"].

(** The same text frame in one segment, with the client's first data
    right behind it. *)
Definition textPipelined : Conn :=
  clientOf [bytes_of_string "QUJD" ++ newline :: bytes_of_string "hello"].

(** A pool that holds one clean reader, which [Get] hands out. *)
Definition envPooled : Env :=
  mkEnv sampleDecrypt sampleDecryptBase64 never never never (Some O).

(* ================================================================== *)
(** ** The answers of a listener, seen from [loop] *)

(** An answer that ends [loop]: an error that is not temporary. *)
Definition fatal_answer (a : accept_answer) : bool :=
  match a with
  | Accepted _ => false
  | AcceptFailed e => negb (is_temporary e)
  end.

(** The answers up to the first one that ends [loop]. *)
Fixpoint until_fatal (l : list accept_answer) : list accept_answer :=
  match l with
  | [] => []
  | a :: l' => if fatal_answer a then [] else a :: until_fatal l'
  end.

(** The connections among some answers, in order. *)
Definition conns_of (l : list accept_answer) : list Conn :=
  flat_map (fun a => match a with Accepted c => [c] | AcceptFailed _ => [] end) l.

Definition acceptRefused : error := OtherError "too many open files in system".

(* ================================================================== *)
(** ** Start-up: [main], [pprof] and [gateway] *)

(** [strconv.Itoa]: the decimal digits of [n], the most significant
    first, behind a minus sign when [n] is negative. *)
Fixpoint digits (fuel : nat) (n : Z) (acc : string) : string :=
  match fuel with
  | O => acc
  | S fuel' =>
      let acc' := String (ascii_of_N (Z.to_N (48 + n mod 10))) acc in
      if n <? 10 then acc' else digits fuel' (n / 10) acc'
  end.

Definition Itoa (n : Z) : string :=
  if n <? 0 then String "-"%char (digits 20 (- n) EmptyString)
  else digits 20 n EmptyString.

Definition pidPath : string := "gateway.pid".

(** What the process asks of the operating system while it starts and
    stops. *)
Inductive syscall : Type :=
| OsStat (name : string)                              (* os.Stat *)
| WriteFile (name : string) (data : bytes) (perm : Z) (* ioutil.WriteFile *)
| OsRemove (name : string)                            (* os.Remove *)
| NetListen (network address : string)                (* net.Listen *)
| ReusablePortListener (network address : string)     (* reuseport.NewReusablePortListener *)
| GoServe                                             (* go http.Serve(listener, nil) *)
| GoLoop                                              (* go loop(listener) *)
| SignalNotify (sig : string)                         (* signal.Notify *)
| Select.                                             (* select on the two signal channels *)

(** The answers of the operating system: the environment variables, the
    process id, whether [gateway.pid] can be written (and what a failed
    write leaves on disk) and removed, what the two ways of listening
    answer, the address of the gateway's listener, and whether SIGINT or
    SIGTERM ever arrives. *)
Record OS : Type := mkOS {
  Getenv : string -> string;
  Getpid : Z;
  write_answer : option (error * option bytes);
  remove_answer : option error;
  listen_answer : string -> string -> option error;
  reusable_answer : string -> string -> option error;
  listener_addr : string;
  signalled : bool
}.

(** The process: the content of [gateway.pid] when the file exists, the
    package variables that [config] and [gateway] set, and the calls
    made so far. *)
Record Process : Type := mkProcess {
  pidFile : option bytes;
  globals : Config;
  gatewayAddr : string;
  calls : list syscall
}.

(** How a stretch of [main] ends: it goes on, it ends the process in
    [log.Fatal] (which exits without running deferred calls), or it
    waits for ever. *)
Inductive ending (A : Type) : Type :=
| Goes (a : A)
| LogFatal (msg : string)
| Blocks.

Arguments Goes {A} a.
Arguments LogFatal {A} msg.
Arguments Blocks {A}.

Definition P (A : Type) : Type := Process -> ending A * Process.

Definition retP {A : Type} (a : A) : P A := fun p => (Goes a, p).

Definition bindP {A B : Type} (m : P A) (f : A -> P B) : P B :=
  fun p =>
    match m p with
    | (Goes a, p') => f a p'
    | (LogFatal msg, p') => (LogFatal msg, p')
    | (Blocks, p') => (Blocks, p')
    end.

Declare Scope proc_scope.
Delimit Scope proc_scope with proc.
Notation "x <- m ;; k" := (bindP m (fun x => k))
  (at level 61, m at next level, right associativity) : proc_scope.
Notation "m ;; k" := (bindP m (fun _ => k))
  (at level 61, right associativity) : proc_scope.

Definition call (c : syscall) : P unit :=
  fun p => (Goes tt, mkProcess (pidFile p) (globals p) (gatewayAddr p) (calls p ++ [c])).

Definition log_Fatal {A : Type} (msg : string) : P A := fun p => (LogFatal msg, p).

Definition set_pidFile (f : option bytes) : P unit :=
  fun p => (Goes tt, mkProcess f (globals p) (gatewayAddr p) (calls p)).

Definition set_globals (c : Config) : P unit :=
  fun p => (Goes tt, mkProcess (pidFile p) c (gatewayAddr p) (calls p)).

Definition set_gatewayAddr (a : string) : P unit :=
  fun p => (Goes tt, mkProcess (pidFile p) (globals p) a (calls p)).

(** The call [config()] in [main]. *)
Definition run_config (os : OS) : P unit :=
  match config (Getenv os) with
  | Configured c => set_globals c
  | Fatal msg => log_Fatal msg
  end.

(** [pprof()]. *)
Definition pprof (os : OS) : P unit :=
  (let v := Getenv os "GW_PPROF_ADDR" in
   if negb (isEmpty v) then
     call (NetListen "tcp" v) ;;
     match listen_answer os "tcp" v with
     | Some _ => log_Fatal "Setup pprof failed"
     | None => call GoServe
     end
   else retP tt)%proc.

(** [gateway()]. *)
Definition gateway (os : OS) : P unit :=
  (let port := Getenv os "GW_PORT" in
   let port := if isEmpty port then "0" else port in
   err <- (if String.eqb (Getenv os "GW_REUSE_PORT") "1" then
             call (ReusablePortListener "tcp4" (String.append "0.0.0.0:" port)) ;;
             retP (reusable_answer os "tcp4" (String.append "0.0.0.0:" port))
           else
             call (NetListen "tcp" (String.append "0.0.0.0:" port)) ;;
             retP (listen_answer os "tcp" (String.append "0.0.0.0:" port))) ;;
   match err with
   | Some _ => log_Fatal "Setup listener failed"
   | None => set_gatewayAddr (listener_addr os) ;; call GoLoop
   end)%proc.

(** [os.Remove("gateway.pid")], its error ignored. *)
Definition os_Remove (os : OS) : P unit :=
  (call (OsRemove pidPath) ;;
   match remove_answer os with
   | Some _ => retP tt
   | None => set_pidFile None
   end)%proc.

(** [main()] behind its [defer]: from [config()] to the end. *)
Definition main_body (os : OS) (testing : bool) : P unit :=
  (run_config os ;;
   pprof os ;;
   gateway os ;;
   call (SignalNotify "SIGTERM") ;;
   call (SignalNotify "SIGINT") ;;
   if negb testing then
     call Select ;;
     if signalled os then retP tt else (fun p => (Blocks, p))
   else retP tt)%proc.

(** [main()].  [os.Stat] succeeds when the file is there; the deferred
    [os.Remove] runs when [main] returns, not when the process ends in
    [log.Fatal] or waits. *)
Definition main (os : OS) (testing : bool) : P unit :=
  fun p =>
    match call (OsStat pidPath) p with
    | (_, p1) =>
        match pidFile p1 with
        | Some _ => (LogFatal "Already a pid file there", p1)
        | None =>
            let data := bytes_of_string (Itoa (Getpid os)) in
            match call (WriteFile pidPath data 420) p1 with
            | (_, p2) =>
                match write_answer os with
                | Some (_, remains) =>
                    (LogFatal "Can't write pid file: %s",
                     mkProcess remains (globals p2) (gatewayAddr p2) (calls p2))
                | None =>
                    match main_body os testing
                            (mkProcess (Some data) (globals p2) (gatewayAddr p2)
                               (calls p2)) with
                    | (Goes _, p3) => os_Remove os p3
                    | r => r
                    end
                end
            end
        end
    end.

(** The process when it starts: the package variables hold their initial
    values and nothing has been called. *)
Definition boot (disk : option bytes) : Process :=
  mkProcess disk (mkConfig [] 1 (3 * Second)) "" [].

(** The calls that open a listener. *)
Definition isListen (c : syscall) : bool :=
  match c with
  | NetListen _ _ | ReusablePortListener _ _ => true
  | _ => false
  end.

(** A numeric environment variable: unset (or empty), or the decimal
    text of a number; and the value [config] settles on, [dflt] standing
    in for an unset variable and for 0. *)
Definition setting (v : option Z) : string :=
  match v with
  | None => EmptyString
  | Some n => Itoa n
  end.

Definition value_or (dflt : Z) (v : option Z) : Z :=
  match v with
  | None => dflt
  | Some n => if n =? 0 then dflt else n
  end.

(** The limits of a Go [int] on a 64-bit platform, and the largest count
    of seconds that fits a [time.Duration]. *)
Definition isInt (n : Z) : Prop := - 2 ^ 63 <= n < 2 ^ 63.
Definition maxSeconds : Z := 9223372036.

Definition getenvOf (retry timeout : string) (name : string) : string :=
  if String.eqb name "GW_DIAL_RETRY" then retry
  else if String.eqb name "GW_DIAL_TIMEOUT" then timeout
  else if String.eqb name "GW_SECRET" then "secret"
  else "".

(** Sample operating systems: one on which everything works and a signal
    arrives, one on which no signal ever arrives, and one on which the
    gateway's port is taken. *)
Definition listenOK (network address : string) : option error := None.

Definition listenTaken (network address : string) : option error :=
  Some (OtherError "bind: address already in use").

Definition osOK (getenv : string -> string) : OS :=
  mkOS getenv 4711 None None listenOK listenOK "0.0.0.0:34567" true.

Definition osQuiet (getenv : string -> string) : OS :=
  mkOS getenv 4711 None None listenOK listenOK "0.0.0.0:34567" false.

Definition osPortTaken (getenv : string -> string) : OS :=
  mkOS getenv 4711 None None listenTaken listenOK "" true.

(** Text frames that go wrong: a line that never ends, one of 4096
    bytes with its newline behind them, and a line that is not base64. *)
Definition textUnfinished : Conn := clientOf [bytes_of_string "QUJD"].

Definition textTooLong : Conn :=
  clientOf [repeat "A"%char 4096; [newline]; bytes_of_string "hello"].

Definition textGarbage : Conn :=
  clientOf [bytes_of_string "???" ++ [newline]; bytes_of_string "hello"].

(** The calls of [agentInit] on the backend socket, and the close. *)
Definition isBoot (e : event) : bool :=
  match e with
  | AgentSetWriteDeadline _ | AgentWrite _ => true
  | _ => false
  end.

(** The four calls of a bootstrap that sends the preamble [p] and the
    buffered bytes [leftover]. *)
Definition bootstrap (cfg : Config) (p leftover : bytes) : list event :=
  [AgentSetWriteDeadline (Some (cfgDialTimeout cfg)); AgentWrite p;
   AgentWrite leftover; AgentSetWriteDeadline None].

(** Events that use the backend: dialling it, a call on its socket, or a
    copy from or to it. *)
Definition usesBackend (e : event) : bool :=
  isDial e || isAgentCall e || isRelay e.

(** A backend that fails the call number [k] on its socket. *)
Definition envAgentFails (k : nat) : Env :=
  mkEnv sampleDecrypt sampleDecryptBase64 never
    (fun i => if Nat.eqb i k then Some (NetError true false) else None)
    never None.

(** A client whose remote address is 255 bytes long, with a whole binary
    frame. *)
Definition client255 : Conn :=
  mkConn (longAddr 255) [[zero; "003"%char; "A"%char; "B"%char; "C"%char]] EOF.

(** A client that is gone by the time it is written to. *)
Definition envClientGone : Env :=
  mkEnv sampleDecrypt sampleDecryptBase64 never never
    (fun _ => Some (OtherError "write: broken pipe")) None.

(** A binary frame for the address ["CBA"] with the first two bytes of
    the client's data in the same segment and the rest in the next. *)
Definition binarySplit : Conn :=
  clientOf [[zero; "003"%char; "A"%char; "B"%char; "C"%char; "h"%char; "e"%char];
            bytes_of_string "llo"].

(* ================================================================== *)
(** * Properties of the accept loop *)

Lemma wrap64_small (x : Z) : - 2 ^ 63 <= x < 2 ^ 63 -> wrap64 x = x.
Proof.
  intros H. unfold wrap64.
  rewrite Z.mod_small by lia. lia.
Qed.

Lemma accept_loop_step (e : error) (l : list accept_answer) (d : Z) (slept : list Z) :
  is_temporary e = true ->
  accept_loop (AcceptFailed e :: l) d slept
  = accept_loop l (next_delay d) (slept ++ [next_delay d]).
Proof.
  intros He. simpl. rewrite He. reflexivity.
Qed.

Lemma accept_loop_temps (es : list error) :
  Forall (fun e => is_temporary e = true) es ->
  forall (l : list accept_answer) (d : Z) (slept : list Z),
    accept_loop (map AcceptFailed es ++ l) d slept
    = accept_loop l (Nat.iter (length es) next_delay d)
        (slept ++ map (fun k => Nat.iter (S k) next_delay d) (seq 0 (length es))).
Proof.
  induction 1 as [| e es He _ IH]; intros l d slept.
  - simpl. now rewrite app_nil_r.
  - cbn [map app length]. rewrite accept_loop_step by assumption.
    rewrite IH. rewrite <- Nat.iter_succ_r. f_equal.
    rewrite <- app_assoc. f_equal.
    cbn [seq map app]. f_equal.
    rewrite <- seq_shift, map_map.
    apply map_ext. intros k. now rewrite <- !Nat.iter_succ_r.
Qed.

Lemma backoff_pos (k : nat) : 0 < backoff k <= Second.
Proof.
  unfold backoff, Millisecond, Second.
  assert (0 < 2 ^ Z.of_nat k) by (apply Z.pow_pos_nonneg; lia).
  unfold Millisecond. lia.
Qed.

Lemma backoff_succ (k : nat) : backoff (S k) = Z.min (2 * backoff k) Second.
Proof.
  unfold backoff. rewrite Nat2Z.inj_succ, Z.pow_succ_r by lia.
  assert (0 < 2 ^ Z.of_nat k) by (apply Z.pow_pos_nonneg; lia).
  unfold Second, Millisecond. lia.
Qed.

Lemma next_delay_backoff (k : nat) : next_delay (backoff k) = backoff (S k).
Proof.
  rewrite backoff_succ. pose proof (backoff_pos k) as Hk.
  unfold next_delay.
  destruct (Z.eqb_spec (backoff k) 0) as [E | _]; [lia |].
  rewrite wrap64_small by (unfold Second, Millisecond in Hk; lia).
  destruct (Z.ltb_spec (1 * Second) (backoff k * 2)); lia.
Qed.

Lemma iter_next_delay (k : nat) : Nat.iter (S k) next_delay 0 = backoff k.
Proof.
  induction k as [| k IH].
  - reflexivity.
  - change (Nat.iter (S (S k)) next_delay 0)
      with (next_delay (Nat.iter (S k) next_delay 0)).
    rewrite IH. apply next_delay_backoff.
Qed.

Lemma backoff_mono (i j : nat) : (i <= j)%nat -> backoff i <= backoff j.
Proof.
  induction 1 as [| j _ IH]; [lia |].
  rewrite backoff_succ. pose proof (backoff_pos i). pose proof (backoff_pos j). lia.
Qed.

Lemma accept_after_temps (es : list error) (c : Conn) (rest : list accept_answer) :
  Forall (fun e => is_temporary e = true) es ->
  accept (map AcceptFailed es ++ Accepted c :: rest)
  = mkAccepted (Some c) None (map backoff (seq 0 (length es))) 0 rest.
Proof.
  intros H. unfold accept. rewrite accept_loop_temps by assumption.
  cbn [accept_loop app]. f_equal.
  apply map_ext. intros k. apply iter_next_delay.
Qed.

(** C8: while [Accept] fails with consecutive temporary errors, [accept]
    sleeps 5ms before the first retry, twice the last delay after each
    further failure, and never more than one second, so the delays never
    decrease; when [Accept] then succeeds the connection is returned with
    [tempDelay] back at 0, and a following run of temporary failures
    starts again from 5ms. *)
Theorem accept_backoff (es : list error) (c : Conn) (rest : list accept_answer)
  (Htemp : Forall (fun e => is_temporary e = true) es) :
  let a := accept (map AcceptFailed es ++ Accepted c :: rest) in
  acc_slept a = map backoff (seq 0 (length es)) /\
  backoff 0 = 5 * Millisecond /\
  (forall k, backoff (S k) = Z.min (2 * backoff k) (1 * Second)) /\
  Forall (fun d => 0 < d <= 1 * Second) (acc_slept a) /\
  (forall i j di dj, (i <= j)%nat ->
     nth_error (acc_slept a) i = Some di ->
     nth_error (acc_slept a) j = Some dj -> di <= dj) /\
  acc_conn a = Some c /\ acc_err a = None /\ acc_tempDelay a = 0 /\
  acc_rest a = rest /\
  (forall es' c' rest',
     Forall (fun e => is_temporary e = true) es' ->
     rest = map AcceptFailed es' ++ Accepted c' :: rest' ->
     acc_slept (accept (acc_rest a)) = map backoff (seq 0 (length es'))).
Proof.
  intros a. subst a. rewrite accept_after_temps by assumption.
  cbn [acc_slept acc_conn acc_err acc_tempDelay acc_rest].
  repeat split.
  - intros k. rewrite backoff_succ. reflexivity.
  - apply Forall_forall. intros d Hd. apply in_map_iff in Hd.
    destruct Hd as [k [<- _]]. pose proof (backoff_pos k). lia.
  - intros i j di dj Hij Hi Hj.
    rewrite nth_error_map in Hi, Hj.
    destruct (nth_error (seq 0 (length es)) i) as [ki |] eqn:Ei; [| discriminate].
    destruct (nth_error (seq 0 (length es)) j) as [kj |] eqn:Ej; [| discriminate].
    injection Hi as <-. injection Hj as <-.
    assert (Hli : (i < length es)%nat).
    { rewrite <- (length_seq (length es) 0). apply nth_error_Some. congruence. }
    assert (Hlj : (j < length es)%nat).
    { rewrite <- (length_seq (length es) 0). apply nth_error_Some. congruence. }
    rewrite nth_error_seq in Ei, Ej.
    apply Nat.ltb_lt in Hli, Hlj. rewrite Hli in Ei. rewrite Hlj in Ej.
    injection Ei as <-. injection Ej as <-.
    apply backoff_mono. lia.
  - intros es' c' rest' Hes' ->. now rewrite accept_after_temps.
Qed.

Lemma accept_backoff_witness :
  Forall (fun e => is_temporary e = true) (repeat acceptTemporary 9) /\
  acc_slept (accept busyListener)
  = [5 * Millisecond; 10 * Millisecond; 20 * Millisecond; 40 * Millisecond;
     80 * Millisecond; 160 * Millisecond; 320 * Millisecond; 640 * Millisecond;
     1 * Second] /\
  acc_tempDelay (accept busyListener) = 0.
Proof.
  assert (H : Forall (fun e => is_temporary e = true) (repeat acceptTemporary 9))
    by (repeat constructor).
  split; [exact H |].
  destruct (accept_backoff (repeat acceptTemporary 9) (mkConn [] [] EOF) [] H)
    as (Hs & _ & _ & _ & _ & _ & _ & Hd & _).
  split; [exact Hs | exact Hd].
Defined.

(** Two bursts of temporary failures, each ended by a connection: [loop]
    hands both connections to handlers, and each burst is slept through
    from 5ms on. *)
Lemma loop_two_bursts (es1 es2 : list error) (c1 c2 : Conn) :
  Forall (fun e => is_temporary e = true) es1 ->
  Forall (fun e => is_temporary e = true) es2 ->
  loop 3 (map AcceptFailed es1 ++ Accepted c1
            :: map AcceptFailed es2 ++ [Accepted c2])
  = ([c1; c2],
     [map backoff (seq 0 (length es1)); map backoff (seq 0 (length es2)); []]).
Proof.
  intros H1 H2. cbn [loop].
  rewrite (accept_after_temps es1 c1 _ H1). cbn [acc_conn acc_err acc_rest acc_slept].
  rewrite (accept_after_temps es2 c2 _ H2). cbn [acc_conn acc_err acc_rest acc_slept].
  reflexivity.
Qed.

(* ================================================================== *)
(** * Running the handler monad *)

Lemma extend_nil (s : State) : extend s [] = s.
Proof. destruct s. unfold extend. cbn. now rewrite app_nil_r. Qed.

Lemma extend_extend (s : State) (a b : list event) :
  extend (extend s a) b = extend s (a ++ b).
Proof. unfold extend. cbn. now rewrite app_assoc. Qed.

Lemma count_events_app (p : event -> bool) (a b : list event) :
  count_events p (a ++ b) = (count_events p a + count_events p b)%nat.
Proof. unfold count_events. now rewrite filter_app, length_app. Qed.

Lemma count_dials_repeat (addr : bytes) (t : Z) (k : nat) :
  count_events isDial (repeat (DialTimeout addr t) k) = k.
Proof.
  unfold count_events. induction k as [| k IH]; cbn; [reflexivity | now rewrite IH].
Qed.

Section Run.

Variable env : Env.
Variable cfg : Config.

Lemma emit_eq (e : event) (s : State) : emit e s = (Ret tt, extend s [e]).
Proof. reflexivity. Qed.

Lemma conn_Write_eq (p : bytes) (s : State) :
  conn_Write env p s
  = (Ret (conn_write_answer env (count_events isConnWrite (trace s))),
     extend s [ConnWrite p]).
Proof. reflexivity. Qed.

Lemma net_DialTimeout_eq (addr : bytes) (t : Z) (s : State) :
  net_DialTimeout env addr t s
  = (Ret (match dial_answer env (count_events isDial (trace s)) with
          | None => (Some (agentOf (count_events isDial (trace s))), None)
          | Some e => (None, Some e)
          end),
     extend s [DialTimeout addr t]).
Proof.
  unfold net_DialTimeout. rewrite emit_eq.
  now destruct (dial_answer env (count_events isDial (trace s))).
Qed.

Lemma agent_call_eq (a : AgentConn) (e : event) (s : State) :
  agent_call env (Some a) e s
  = (Ret (agent_answer env (count_events isAgentCall (trace s))), extend s [e]).
Proof. reflexivity. Qed.

Lemma dial_loop_timeouts (addr : bytes) (k : nat) :
  forall (fuel : nat) (i : Z) (agent : option AgentConn) (err : option error)
         (s : State),
    (forall j, (j < k)%nat -> timed_out env (count_events isDial (trace s) + j)) ->
    i + Z.of_nat k <= cfgDialRetry cfg ->
    dial_loop env cfg (k + fuel) i addr agent err s
    = dial_loop env cfg fuel (i + Z.of_nat k) addr
        (fst (after_timeouts env (count_events isDial (trace s)) k agent err))
        (snd (after_timeouts env (count_events isDial (trace s)) k agent err))
        (extend s (repeat (DialTimeout addr (cfgDialTimeout cfg)) k)).
Proof.
  induction k as [| k IH]; intros fuel i agent err s Hto Hle.
  - cbn [after_timeouts fst snd repeat Nat.add]. rewrite extend_nil.
    now replace (i + Z.of_nat 0) with i by lia.
  - cbn [Nat.add dial_loop].
    destruct (Z.ltb_spec i (cfgDialRetry cfg)) as [_ | Hge]; [| lia].
    unfold bind at 1. rewrite net_DialTimeout_eq.
    destruct (Hto O ltac:(lia)) as [e [He Ht]].
    rewrite Nat.add_0_r in He. rewrite He, Ht.
    rewrite IH.
    + cbn [extend trace]. rewrite extend_extend.
      rewrite count_events_app. cbn [count_events filter isDial length].
      replace (i + 1 + Z.of_nat k) with (i + Z.of_nat (S k)) by lia.
      cbn [app repeat]. f_equal.
      * destruct k; cbn [after_timeouts fst]; reflexivity.
      * destruct k; cbn [after_timeouts snd].
        -- now rewrite Nat.add_0_r.
        -- f_equal. lia.
    + intros j Hj. cbn [extend trace]. rewrite count_events_app.
      cbn [count_events filter isDial length].
      replace (count_events isDial (trace s) + 1 + j)%nat
        with (count_events isDial (trace s) + S j)%nat by lia.
      apply Hto. lia.
    + lia.
Qed.

End Run.

(* ================================================================== *)
(** * What a call leaves untouched *)

Lemma frame_refl (s : State) : frame s s [].
Proof. unfold frame. rewrite app_nil_r. tauto. Qed.

Lemma frame_extend (s : State) (evs : list event) : frame s (extend s evs) evs.
Proof. unfold frame, extend. cbn. tauto. Qed.

Lemma frame_trans (s s1 s2 : State) (a b : list event) :
  frame s s1 a -> frame s1 s2 b -> frame s s2 (a ++ b).
Proof.
  unfold frame. intros (P1 & R1 & D1 & T1 & N1) (P2 & R2 & D2 & T2 & N2).
  rewrite P2, R2, D2, T2, T1, app_assoc. tauto.
Qed.

Lemma frame_onReader {A : Type} (f : Reader -> outcome (A * Reader))
    (s s' : State) (o : outcome A) :
  onReader f s = (o, s') -> frame s s' [].
Proof.
  unfold onReader. intros H.
  destruct (reader s) as [b |] eqn:Eb.
  - destruct (f b) as [[a b'] | m |]; injection H as <- <-;
      unfold frame; cbn; rewrite app_nil_r; repeat split; congruence.
  - injection H as <- <-. apply frame_refl.
Qed.

Lemma int_of_byte_of_int (x : Z) : int_of_byte (byte_of_int x) = x mod 256.
Proof.
  unfold int_of_byte, byte_of_int.
  pose proof (Z.mod_pos_bound x 256 ltac:(lia)) as Hx.
  rewrite N_ascii_embedding by lia. lia.
Qed.

Lemma Peek_loop_enough (fuel : nat) (n : Z) (b : Reader) :
  n <= Buffered b -> Peek_loop fuel n b = Ret b.
Proof.
  intros H. destruct fuel; cbn [Peek_loop];
    destruct (Z.ltb_spec (Buffered b) n); try lia; reflexivity.
Qed.

(** [reader.Peek(reader.Buffered())] never reads: it answers with the
    whole window, or with [ErrBufferFull]. *)
Lemma Peek_Buffered (b : Reader) :
  exists b', window b' = window b /\
    (Peek (Buffered b) b = Ret ((window b, None), b') \/
     Peek (Buffered b) b = Ret ((window b, Some ErrBufferFull), b')).
Proof.
  unfold Peek.
  assert (H0 : 0 <= Buffered b) by (unfold Buffered, len; lia).
  destruct (Z.ltb_spec (Buffered b) 0) as [? | _]; [lia |].
  rewrite Peek_loop_enough by (unfold Buffered; cbn; lia).
  exists {| rpos := rpos b; window := window b; rd := rd b; rerr := rerr b;
            lastByte := None |}.
  split; [reflexivity |].
  destruct (Z.ltb_spec defaultBufSize (Buffered b)) as [_ | _].
  - right. reflexivity.
  - left. unfold Buffered at 1. cbn [window].
    destruct (Z.ltb_spec (len (window b)) (Buffered b)) as [Hlt | _];
      [unfold Buffered in Hlt; lia |].
    unfold Buffered, len. rewrite Nat2Z.id, firstn_all. reflexivity.
Qed.

Lemma Peek_Buffered_ok (b : Reader) :
  Buffered b <= defaultBufSize ->
  Peek (Buffered b) b
  = Ret ((window b, None),
         {| rpos := rpos b; window := window b; rd := rd b; rerr := rerr b;
            lastByte := None |}).
Proof.
  intros Hcap. unfold Peek.
  assert (H0 : 0 <= Buffered b) by (unfold Buffered, len; lia).
  destruct (Z.ltb_spec (Buffered b) 0) as [? | _]; [lia |].
  rewrite Peek_loop_enough by (unfold Buffered; cbn; lia).
  destruct (Z.ltb_spec defaultBufSize (Buffered b)) as [? | _]; [lia |].
  unfold Buffered at 1. cbn [window].
  destruct (Z.ltb_spec (len (window b)) (Buffered b)) as [Hlt | _];
    [unfold Buffered in Hlt; lia |].
  unfold Buffered, len. rewrite Nat2Z.id, firstn_all. reflexivity.
Qed.

(** The routine part of a case: every event is an agent call, and the
    outcome at hand rules the other cases out. *)
Ltac leaf :=
  split;
  [ repeat constructor
  | split;
    [ try (intros; discriminate)
    | split; try (intros; discriminate) ] ].

Section Bootstrap.

Variable env : Env.
Variable cfg : Config.

Lemma agentInit_nil (conn : Conn) (s : State) :
  exists msg, agentInit env cfg None conn s = (Panic msg, s).
Proof. eexists. reflexivity. Qed.

(** Every way [agentInit] can end on a connected agent. *)
Lemma agentInit_run (a : AgentConn) (conn : Conn) (s s' : State)
    (o : outcome (option error)) :
  agentInit env cfg (Some a) conn s = (o, s') ->
  exists evs, frame s s' evs /\ Forall (fun e => isAgentCall e = true) evs /\
    (o = Ret None ->
     exists b p, reader s = Some b /\
       addrPreamble (remoteAddr conn) = Ret p /\
       evs = [AgentSetWriteDeadline (Some (cfgDialTimeout cfg));
              AgentWrite p; AgentWrite (window b);
              AgentSetWriteDeadline None]) /\
    (o = OutOfFuel -> False) /\
    (forall msg, o = Panic msg ->
       reader s = None \/ exists m, addrPreamble (remoteAddr conn) = Panic m).
Proof.
  unfold agentInit, bind. rewrite agent_call_eq.
  destruct (agent_answer env (count_events isAgentCall (trace s))) as [e1 |].
  { intros H. injection H as <- <-. eexists. split; [apply frame_extend |].
    leaf. }
  unfold lift.
  destruct (addrPreamble (remoteAddr conn)) as [p | m |] eqn:Ep.
  2: { intros H. injection H as <- <-. eexists. split; [apply frame_extend |].
       leaf. intros msg _. right. eauto. }
  2: { exfalso. unfold addrPreamble in Ep.
       destruct (firstn _ _); discriminate. }
  rewrite agent_call_eq.
  destruct (agent_answer env _) as [e2 |].
  { intros H. injection H as <- <-. rewrite extend_extend.
    eexists. split; [apply frame_extend |]. leaf. }
  rewrite extend_extend.
  unfold onReader. cbn [extend reader].
  destruct (reader s) as [b |] eqn:Eb.
  2: { intros H. injection H as <- <-.
       eexists. split; [apply frame_extend |].
       leaf. intros msg _. now left. }
  destruct (Peek_Buffered b) as [b' [Hw [Hp | Hp]]]; rewrite Hp.
  2: { intros H. injection H as <- <-.
       eexists. split.
       - unfold frame. cbn. repeat split; try reflexivity. congruence.
       - leaf. }
  match goal with
  | |- context [agent_call env (Some a) ?e ?st] => rewrite (agent_call_eq env a e st)
  end.
  destruct (agent_answer env _) as [e3 |].
  { intros H. injection H as <- <-.
    exists [AgentSetWriteDeadline (Some (cfgDialTimeout cfg)); AgentWrite p;
            AgentWrite (window b)].
    split.
    - unfold frame, extend. cbn. rewrite <- app_assoc.
      repeat split; try reflexivity. congruence.
    - leaf. }
  match goal with
  | |- context [agent_call env (Some a) ?e ?st] => rewrite (agent_call_eq env a e st)
  end.
  intros H. injection H as <- <-.
  exists [AgentSetWriteDeadline (Some (cfgDialTimeout cfg)); AgentWrite p;
          AgentWrite (window b); AgentSetWriteDeadline None].
  split.
  - unfold frame, extend. cbn. rewrite <- !app_assoc.
    repeat split; try reflexivity. congruence.
  - leaf. intros _. exists b, p. repeat split.
Qed.

(** With a backend that takes every call, [agentInit] succeeds on
    whatever preamble the address gives. *)
Lemma agentInit_succeeds (a : AgentConn) (conn : Conn) (s : State)
    (b : Reader) (p : bytes) :
  (forall k, agent_answer env k = None) ->
  reader s = Some b -> Buffered b <= defaultBufSize ->
  addrPreamble (remoteAddr conn) = Ret p ->
  exists s',
    agentInit env cfg (Some a) conn s = (Ret None, s') /\
    trace s'
    = trace s ++ [AgentSetWriteDeadline (Some (cfgDialTimeout cfg)); AgentWrite p;
                  AgentWrite (window b); AgentSetWriteDeadline None].
Proof.
  intros Hans Hb Hcap Hp. unfold agentInit, bind.
  rewrite agent_call_eq, Hans. unfold lift. rewrite Hp.
  rewrite agent_call_eq, Hans, extend_extend.
  unfold onReader. cbn [extend reader]. rewrite Hb, (Peek_Buffered_ok b Hcap).
  match goal with
  | |- context [agent_call env (Some a) ?e ?st] => rewrite (agent_call_eq env a e st)
  end.
  rewrite Hans.
  match goal with
  | |- context [agent_call env (Some a) ?e ?st] => rewrite (agent_call_eq env a e st)
  end.
  rewrite Hans. eexists. split; [reflexivity |].
  cbn [extend trace]. now rewrite <- !app_assoc.
Qed.

End Bootstrap.

(* ================================================================== *)
(** * Properties of [dial] *)

Section Dial.

Variable env : Env.
Variable cfg : Config.

Lemma dial_loop_prefix (addr : bytes) (k : nat) (s : State) :
  (forall j, (j < k)%nat -> timed_out env (count_events isDial (trace s) + j)) ->
  Z.of_nat k <= cfgDialRetry cfg ->
  dial_loop env cfg (Z.to_nat (cfgDialRetry cfg)) 0 addr None None s
  = dial_loop env cfg (Z.to_nat (cfgDialRetry cfg) - k) (Z.of_nat k) addr
      (fst (after_timeouts env (count_events isDial (trace s)) k None None))
      (snd (after_timeouts env (count_events isDial (trace s)) k None None))
      (extend s (repeat (attempt cfg addr) k)).
Proof.
  intros Hto Hk.
  replace (Z.to_nat (cfgDialRetry cfg))
    with (k + (Z.to_nat (cfgDialRetry cfg) - k))%nat at 1 by lia.
  rewrite (dial_loop_timeouts env cfg addr k) by (assumption || lia).
  reflexivity.
Qed.

Lemma count_dials_after (addr : bytes) (k : nat) (s : State) :
  count_events isDial (trace (extend s (repeat (attempt cfg addr) k)))
  = (count_events isDial (trace s) + k)%nat.
Proof.
  cbn [extend trace]. rewrite count_events_app. unfold attempt.
  now rewrite count_dials_repeat.
Qed.

Lemma repeat_snoc {A : Type} (x : A) (k : nat) : repeat x k ++ [x] = repeat x (S k).
Proof. induction k as [| k IH]; cbn; [reflexivity | now rewrite IH]. Qed.

(** After [k] timeouts, a dial error that is not a timeout ends [dial]
    with 502 and no further attempt. *)
Lemma dial_hard_error (addr : bytes) (conn : Conn) (s : State) (k : nat) (e : error) :
  Z.of_nat k < cfgDialRetry cfg ->
  (forall j, (j < k)%nat -> timed_out env (count_events isDial (trace s) + j)) ->
  dial_answer env (count_events isDial (trace s) + k) = Some e ->
  is_timeout e = false ->
  dial env cfg addr conn s
  = (Ret (None, Some e), extend s (repeat (attempt cfg addr) (S k) ++ [ConnWrite codeDialErr])).
Proof.
  intros Hk Hto He Hne. unfold dial, bind at 1.
  rewrite (dial_loop_prefix addr k) by (assumption || lia).
  destruct (Z.to_nat (cfgDialRetry cfg) - k)%nat as [| fuel] eqn:Ef; [lia |].
  cbn [dial_loop].
  destruct (Z.ltb_spec (Z.of_nat k) (cfgDialRetry cfg)) as [_ | ?]; [| lia].
  unfold bind at 1. rewrite net_DialTimeout_eq, count_dials_after, He, Hne.
  unfold bind. rewrite conn_Write_eq. unfold ret.
  rewrite !extend_extend, app_assoc, repeat_snoc. reflexivity.
Qed.

(** When every attempt times out, [dial] makes [cfgDialRetry] attempts
    and ends with 503. *)
Lemma dial_all_timeouts (addr : bytes) (conn : Conn) (s : State) :
  1 <= cfgDialRetry cfg ->
  (forall j, Z.of_nat j < cfgDialRetry cfg ->
     timed_out env (count_events isDial (trace s) + j)) ->
  exists e, is_timeout e = true /\
    dial env cfg addr conn s
    = (Ret (None, Some e),
       extend s (repeat (attempt cfg addr) (Z.to_nat (cfgDialRetry cfg))
                 ++ [ConnWrite codeDialTimeout])).
Proof.
  intros Hr Hto. set (n := Z.to_nat (cfgDialRetry cfg)).
  destruct n as [| n'] eqn:En; [lia |].
  destruct (Hto n' ltac:(lia)) as [e [He Ht]].
  exists e. split; [assumption |].
  unfold dial, bind at 1.
  rewrite (dial_loop_prefix addr (S n')) by (intros; try apply Hto; lia).
  fold n. rewrite En, Nat.sub_diag. cbn [dial_loop].
  destruct (Z.ltb_spec (Z.of_nat (S n')) (cfgDialRetry cfg)) as [? | _]; [lia |].
  cbn [after_timeouts fst snd]. unfold ret at 1. rewrite He.
  unfold bind. rewrite conn_Write_eq. unfold ret.
  rewrite extend_extend. reflexivity.
Qed.

(** After [k] timeouts, an attempt that connects ends the loop; [dial]
    goes on with [agentInit] on the connection just opened. *)
Lemma dial_connected (addr : bytes) (conn : Conn) (s : State) (k : nat) :
  Z.of_nat k < cfgDialRetry cfg ->
  (forall j, (j < k)%nat -> timed_out env (count_events isDial (trace s) + j)) ->
  dial_answer env (count_events isDial (trace s) + k) = None ->
  let a := agentOf (count_events isDial (trace s) + k) in
  dial env cfg addr conn s
  = match agentInit env cfg (Some a) conn (extend s (repeat (attempt cfg addr) (S k))) with
    | (Ret None, s2) => (Ret (Some a, None), s2)
    | (Ret (Some e), s2) =>
        (Ret (None, Some e), extend s2 [AgentClose; ConnWrite codeDialErr])
    | (Panic m, s2) => (Panic m, s2)
    | (OutOfFuel, s2) => (OutOfFuel, s2)
    end.
Proof.
  intros Hk Hto He a. unfold dial, bind at 1.
  rewrite (dial_loop_prefix addr k) by (assumption || lia).
  destruct (Z.to_nat (cfgDialRetry cfg) - k)%nat as [| fuel] eqn:Ef; [lia |].
  cbn [dial_loop].
  destruct (Z.ltb_spec (Z.of_nat k) (cfgDialRetry cfg)) as [_ | ?]; [| lia].
  unfold bind at 1. rewrite net_DialTimeout_eq, count_dials_after, He.
  unfold ret at 1. rewrite extend_extend, repeat_snoc.
  unfold bind at 1. fold a. unfold attempt.
  destruct (agentInit env cfg (Some a) conn
              (extend s (repeat (DialTimeout addr (cfgDialTimeout cfg)) (S k))))
    as [[[e |] | m |] s2]; try reflexivity.
  unfold bind. rewrite agent_call_eq, conn_Write_eq. unfold ret.
  rewrite extend_extend. reflexivity.
Qed.

(** Without a single turn of the loop, [dial] calls [agentInit] on a nil
    connection. *)
Lemma dial_no_attempt (addr : bytes) (conn : Conn) (s : State) :
  cfgDialRetry cfg <= 0 ->
  exists msg, dial env cfg addr conn s = (Panic msg, s).
Proof.
  intros Hr. unfold dial, bind at 1.
  replace (Z.to_nat (cfgDialRetry cfg)) with O by lia. cbn [dial_loop].
  destruct (Z.ltb_spec 0 (cfgDialRetry cfg)) as [? | _]; [lia |].
  unfold ret at 1. unfold bind at 1.
  destruct (agentInit_nil env cfg conn s) as [msg ->]. eauto.
Qed.

End Dial.

Lemma isDial_quiet (e : event) : isDial e = true -> quiet e = true.
Proof. destruct e; cbn; congruence. Qed.

Lemma isAgentCall_quiet (e : event) : isAgentCall e = true -> quiet e = true.
Proof. destruct e; cbn; congruence. Qed.

Lemma Forall_quiet_dials (evs : list event) :
  Forall (fun e => isDial e = true) evs -> Forall (fun e => quiet e = true) evs.
Proof. apply Forall_impl, isDial_quiet. Qed.

Lemma Forall_quiet_agent (evs : list event) :
  Forall (fun e => isAgentCall e = true) evs -> Forall (fun e => quiet e = true) evs.
Proof. apply Forall_impl, isAgentCall_quiet. Qed.

Lemma frame_reader_nil (s s' : State) (evs : list event) :
  frame s s' evs -> reader s' = None -> reader s = None.
Proof.
  intros (_ & _ & _ & _ & H) E. destruct (reader s); [| reflexivity].
  exfalso. apply H; [discriminate | assumption].
Qed.

Section DialRun.

Variable env : Env.
Variable cfg : Config.

(** Every way the loop of [dial] can end. *)
Lemma dial_loop_run (addr : bytes) (fuel : nat) :
  forall (i : Z) (agent : option AgentConn) (err : option error)
         (s s' : State) (o : outcome loop_exit),
    dial_loop env cfg fuel i addr agent err s = (o, s') ->
    exists evs, frame s s' evs /\
      match o with
      | Ret (LoopDone ag er) =>
          Forall (fun e => isDial e = true) evs /\
          ((evs = [] /\ ag = agent /\ er = err /\ cfgDialRetry cfg <= i) \/
           (er = None /\ ag <> None) \/
           (ag = None /\ er <> None))
      | Ret (LoopReturn ag er) =>
          ag = None /\ er <> None /\
          exists pre, evs = pre ++ [ConnWrite codeDialErr] /\
                      Forall (fun e => isDial e = true) pre
      | Panic _ => False
      | OutOfFuel => Z.of_nat fuel < cfgDialRetry cfg - i
      end.
Proof.
  induction fuel as [| fuel IH]; intros i agent err s s' o H.
  - cbn [dial_loop] in H.
    destruct (Z.ltb_spec i (cfgDialRetry cfg)) as [Hlt | Hge];
      injection H as <- <-; exists []; (split; [apply frame_refl |]).
    + lia.
    + split; [constructor | left; repeat split; lia].
  - cbn [dial_loop] in H.
    destruct (Z.ltb_spec i (cfgDialRetry cfg)) as [Hlt | Hge].
    2: { injection H as <- <-. exists []. split; [apply frame_refl |].
         split; [constructor | left; repeat split; lia]. }
    unfold bind at 1 in H. rewrite net_DialTimeout_eq in H.
    destruct (dial_answer env (count_events isDial (trace s))) as [e |] eqn:Ea.
    + destruct (is_timeout e) eqn:Et.
      * apply IH in H. destruct H as [evs [Hf Ho]].
        exists ([DialTimeout addr (cfgDialTimeout cfg)] ++ evs).
        split; [eapply frame_trans; [apply frame_extend | exact Hf] |].
        destruct o as [[ag er | ag er] | m |].
        -- destruct Ho as [Hd Hc]. split; [constructor; [reflexivity | exact Hd] |].
           destruct Hc as [(-> & -> & -> & _) | [Hc | Hc]].
           ++ right. right. split; [reflexivity | discriminate].
           ++ right. left. exact Hc.
           ++ right. right. exact Hc.
        -- destruct Ho as (-> & Her & pre & -> & Hpre).
           repeat split; try assumption.
           exists (DialTimeout addr (cfgDialTimeout cfg) :: pre).
           split; [reflexivity | constructor; [reflexivity | exact Hpre]].
        -- exact Ho.
        -- lia.
      * unfold bind in H. rewrite conn_Write_eq in H. unfold ret in H.
        injection H as <- <-. rewrite extend_extend.
        eexists. split; [apply frame_extend |].
        repeat split; try discriminate.
        exists [DialTimeout addr (cfgDialTimeout cfg)].
        split; [reflexivity | repeat constructor].
    + unfold ret in H. injection H as <- <-.
      eexists. split; [apply frame_extend |].
      split; [repeat constructor |].
      right. left. split; [reflexivity | discriminate].
Qed.

(** Every way [dial] can end: with a connection and nothing written to
    the client, with an error and exactly one of 502 and 503 written
    last, or in a panic with nothing written to the client. *)
Lemma dial_run (addr : bytes) (conn : Conn) (s s' : State)
    (o : outcome (option AgentConn * option error)) :
  dial env cfg addr conn s = (o, s') ->
  exists evs, frame s s' evs /\
    match o with
    | Ret (ag, None) => ag <> None /\ Forall (fun e => quiet e = true) evs
    | Ret (ag, Some _) =>
        ag = None /\
        exists pre c, evs = pre ++ [ConnWrite c] /\
          Forall (fun e => quiet e = true) pre /\
          (c = codeDialErr \/ c = codeDialTimeout)
    | Panic _ =>
        Forall (fun e => quiet e = true) evs /\
        (cfgDialRetry cfg <= 0 \/ reader s = None \/
         exists m, addrPreamble (remoteAddr conn) = Panic m)
    | OutOfFuel => False
    end.
Proof.
  unfold dial, bind at 1. intros H.
  destruct (dial_loop env cfg (Z.to_nat (cfgDialRetry cfg)) 0 addr None None s)
    as [o1 s1] eqn:E1.
  apply dial_loop_run in E1. destruct E1 as [evs1 [F1 O1]].
  destruct o1 as [[ag er | ag er] | m |].
  - destruct O1 as [Hd Hc]. destruct er as [e |].
    + unfold bind in H. rewrite conn_Write_eq in H. unfold ret in H.
      injection H as <- <-.
      exists (evs1 ++ [ConnWrite codeDialTimeout]).
      split; [eapply frame_trans; [exact F1 | apply frame_extend] |].
      split; [reflexivity |].
      exists evs1, codeDialTimeout.
      repeat split; [apply Forall_quiet_dials, Hd | now right].
    + unfold bind at 1 in H.
      destruct ag as [a |].
      2: { destruct (agentInit_nil env cfg conn s1) as [msg Hn].
           rewrite Hn in H. injection H as <- <-.
           exists evs1. split; [exact F1 |].
           split; [apply Forall_quiet_dials, Hd |].
           destruct Hc as [(_ & _ & _ & Hr) | [[_ Hc] | [_ Hc]]];
             [left; lia | congruence | congruence]. }
      destruct (agentInit env cfg (Some a) conn s1) as [o2 s2] eqn:E2.
      apply agentInit_run in E2.
      destruct E2 as (evs2 & F2 & Hq & _ & Hnf & Hp).
      destruct o2 as [[e |] | m |].
      * unfold bind in H. rewrite agent_call_eq, conn_Write_eq in H.
        unfold ret in H. injection H as <- <-. rewrite extend_extend.
        exists (evs1 ++ evs2 ++ [AgentClose; ConnWrite codeDialErr]).
        split; [eapply frame_trans; [exact F1 |];
                eapply frame_trans; [exact F2 | apply frame_extend] |].
        split; [reflexivity |].
        exists (evs1 ++ evs2 ++ [AgentClose]), codeDialErr.
        split; [now rewrite <- !app_assoc |].
        split; [| now left].
        apply Forall_app. split; [apply Forall_quiet_dials, Hd |].
        apply Forall_app. split; [apply Forall_quiet_agent, Hq |].
        repeat constructor.
      * unfold ret in H. injection H as <- <-.
        exists (evs1 ++ evs2).
        split; [eapply frame_trans; eassumption |].
        split; [discriminate |].
        apply Forall_app.
        split; [apply Forall_quiet_dials, Hd | apply Forall_quiet_agent, Hq].
      * injection H as <- <-.
        exists (evs1 ++ evs2).
        split; [eapply frame_trans; eassumption |].
        split.
        -- apply Forall_app.
           split; [apply Forall_quiet_dials, Hd | apply Forall_quiet_agent, Hq].
        -- destruct (Hp m eq_refl) as [Hr | Hr].
           ++ right. left. eapply frame_reader_nil; eassumption.
           ++ right. right. exact Hr.
      * exfalso. now apply Hnf.
  - destruct O1 as (-> & Her & pre & -> & Hpre).
    unfold ret in H. injection H as <- <-.
    exists (pre ++ [ConnWrite codeDialErr]). split; [exact F1 |].
    destruct er as [e |]; [| congruence].
    split; [reflexivity |].
    exists pre, codeDialErr.
    repeat split; [apply Forall_quiet_dials, Hpre | now left].
  - contradiction.
  - lia.
Qed.

(** The loop of [dial] touches nothing but the trace. *)
Lemma dial_loop_extend (addr : bytes) (fuel : nat) :
  forall (i : Z) (agent : option AgentConn) (err : option error)
         (s s' : State) (o : outcome loop_exit),
    dial_loop env cfg fuel i addr agent err s = (o, s') ->
    exists evs, s' = extend s evs.
Proof.
  induction fuel as [| fuel IH]; intros i agent err s s' o H.
  - cbn [dial_loop] in H.
    destruct (i <? cfgDialRetry cfg); injection H as <- <-;
      exists []; now rewrite extend_nil.
  - cbn [dial_loop] in H.
    destruct (i <? cfgDialRetry cfg).
    2: { injection H as <- <-. exists []. now rewrite extend_nil. }
    unfold bind at 1 in H. rewrite net_DialTimeout_eq in H.
    destruct (dial_answer env (count_events isDial (trace s))) as [e |].
    + destruct (is_timeout e).
      * apply IH in H. destruct H as [evs ->]. rewrite extend_extend. eauto.
      * unfold bind in H. rewrite conn_Write_eq in H. unfold ret in H.
        injection H as <- <-. rewrite extend_extend. eauto.
    + unfold ret in H. injection H as <- <-. eauto.
Qed.

(** When [dial] returns a connection, its trace is the dial attempts
    followed by the four calls of the bootstrap. *)
Lemma dial_success (addr : bytes) (conn : Conn) (s s' : State)
    (ag : option AgentConn) :
  dial env cfg addr conn s = (Ret (ag, None), s') ->
  exists dials b p,
    Forall (fun e => isDial e = true) dials /\
    reader s = Some b /\
    addrPreamble (remoteAddr conn) = Ret p /\
    trace s'
    = trace s ++ dials
      ++ [AgentSetWriteDeadline (Some (cfgDialTimeout cfg)); AgentWrite p;
          AgentWrite (window b); AgentSetWriteDeadline None].
Proof.
  unfold dial, bind at 1. intros H.
  destruct (dial_loop env cfg (Z.to_nat (cfgDialRetry cfg)) 0 addr None None s)
    as [o1 s1] eqn:E1.
  pose proof (dial_loop_extend _ _ _ _ _ _ _ _ E1) as [evs' ->].
  apply dial_loop_run in E1. destruct E1 as [evs1 [(_ & _ & _ & Ht & _) O1]].
  cbn [extend trace] in Ht. apply app_inv_head in Ht. subst evs'.
  destruct o1 as [[a er | a er] | m |]; try discriminate.
  - destruct O1 as [Hd _]. destruct er as [e |].
    + unfold bind in H. rewrite conn_Write_eq in H. discriminate.
    + unfold bind at 1 in H. destruct a as [a |].
      2: { destruct (agentInit_nil env cfg conn (extend s evs1)) as [msg Hn].
           rewrite Hn in H. discriminate. }
      destruct (agentInit env cfg (Some a) conn (extend s evs1)) as [o2 s2] eqn:E2.
      apply agentInit_run in E2.
      destruct E2 as (evs2 & (_ & _ & _ & Ht2 & _) & _ & Hs & _ & _).
      destruct o2 as [[e |] | m |]; try discriminate.
      unfold ret in H. injection H as <- <-.
      destruct (Hs eq_refl) as (b & p & Hb & Hp & ->).
      exists evs1, b, p. repeat split; try assumption.
      rewrite Ht2. cbn [extend trace]. now rewrite <- app_assoc.
  - destruct O1 as (_ & Her & _). unfold ret in H. injection H as _ He _.
    congruence.
Qed.

End DialRun.

(* ================================================================== *)
(** * The dial policy *)

Lemma agent_calls_no_token (evs : list event) :
  Forall (fun e => isAgentCall e = true) evs ->
  tokens evs = [] /\ count_events isDial evs = O.
Proof.
  induction 1 as [| e evs He _ [IH1 IH2]]; [split; reflexivity |].
  unfold count_events in *. destruct e; cbn in *; try discriminate; auto.
Qed.

Lemma tokens_app (a b : list event) : tokens (a ++ b) = tokens a ++ tokens b.
Proof. unfold tokens. apply flat_map_app. Qed.

(** C1, as amended: with [cfgDialRetry >= 1], a dial error that is not a
    timeout (after timeouts only) makes [dial] write 502 at once and stop
    dialling; when all [cfgDialRetry] attempts time out [dial] has made
    exactly that many attempts and writes 503; when an attempt connects
    no further attempt is made, and no token is written unless the
    bootstrap that follows fails, in which case 502 is written once. *)
Theorem dial_policy (env : Env) (cfg : Config) (addr : bytes) (conn : Conn)
    (s : State) (Hretry : 1 <= cfgDialRetry cfg) :
  let d0 := count_events isDial (trace s) in
  (forall k e,
     Z.of_nat k < cfgDialRetry cfg ->
     (forall j, (j < k)%nat -> timed_out env (d0 + j)) ->
     dial_answer env (d0 + k) = Some e -> is_timeout e = false ->
     dial env cfg addr conn s
     = (Ret (None, Some e),
        extend s (repeat (attempt cfg addr) (S k) ++ [ConnWrite codeDialErr]))) /\
  ((forall j, Z.of_nat j < cfgDialRetry cfg -> timed_out env (d0 + j)) ->
   exists e, is_timeout e = true /\
     dial env cfg addr conn s
     = (Ret (None, Some e),
        extend s (repeat (attempt cfg addr) (Z.to_nat (cfgDialRetry cfg))
                  ++ [ConnWrite codeDialTimeout]))) /\
  (forall k,
     Z.of_nat k < cfgDialRetry cfg ->
     (forall j, (j < k)%nat -> timed_out env (d0 + j)) ->
     dial_answer env (d0 + k) = None ->
     exists o s' evs,
       dial env cfg addr conn s = (o, s') /\
       trace s' = trace s ++ repeat (attempt cfg addr) (S k) ++ evs /\
       count_events isDial evs = O /\
       match o with
       | Ret (ag, None) => ag = Some (agentOf (d0 + k)) /\ tokens evs = []
       | Ret (ag, Some _) => ag = None /\ tokens evs = [codeDialErr]
       | _ => tokens evs = []
       end).
Proof.
  intros d0. split; [| split].
  - intros k e Hk Hto He Hne. now apply dial_hard_error.
  - intros Hto. now apply dial_all_timeouts.
  - intros k Hk Hto He. subst d0.
    rewrite (dial_connected env cfg addr conn s k Hk Hto He).
    destruct (agentInit env cfg _ conn _) as [o2 s2] eqn:E2.
    apply agentInit_run in E2.
    destruct E2 as (evs & (_ & _ & _ & Ht & _) & Hq & _ & _ & _).
    cbn [extend trace] in Ht. rewrite <- app_assoc in Ht.
    destruct (agent_calls_no_token evs Hq) as [Htok Hnd].
    destruct o2 as [[e |] | m |].
    + exists (Ret (None, Some e)), (extend s2 [AgentClose; ConnWrite codeDialErr]),
        (evs ++ [AgentClose; ConnWrite codeDialErr]).
      split; [reflexivity |]. split.
      { cbn [extend trace]. rewrite Ht. now rewrite <- !app_assoc. }
      split.
      { rewrite count_events_app, Hnd. reflexivity. }
      split; [reflexivity |]. rewrite tokens_app, Htok. reflexivity.
    + exists (Ret (Some (agentOf (count_events isDial (trace s) + k)), None)), s2, evs.
      repeat split; assumption.
    + exists (Panic m), s2, evs. repeat split; assumption.
    + exists OutOfFuel, s2, evs. repeat split; assumption.
Qed.

Lemma dial_policy_witness :
  1 <= cfgDialRetry (cfgOf 3) /\
  dial envRefused (cfgOf 3) backendAddr (clientOf []) (initState [])
  = (Ret (None, Some dialRefused),
     extend (initState [])
       (repeat (attempt (cfgOf 3) backendAddr) 2 ++ [ConnWrite codeDialErr])) /\
  (exists e, is_timeout e = true /\
     dial envTimeout (cfgOf 3) backendAddr (clientOf []) (initState [])
     = (Ret (None, Some e),
        extend (initState [])
          (repeat (attempt (cfgOf 3) backendAddr) 3 ++ [ConnWrite codeDialTimeout]))) /\
  (exists o s' evs,
     dial envSecond (cfgOf 3) backendAddr (clientOf []) (stateWith (clientOf []) [])
     = (o, s') /\
     trace s' = repeat (attempt (cfgOf 3) backendAddr) 2 ++ evs /\
     count_events isDial evs = O /\
     match o with
     | Ret (ag, None) => ag = Some (agentOf 1) /\ tokens evs = []
     | Ret (ag, Some _) => ag = None /\ tokens evs = [codeDialErr]
     | _ => tokens evs = []
     end).
Proof.
  assert (H3 : 1 <= cfgDialRetry (cfgOf 3)) by (cbn; lia).
  split; [exact H3 |]. split; [| split].
  - apply (proj1 (dial_policy envRefused (cfgOf 3) backendAddr (clientOf [])
                    (initState []) H3) 1%nat dialRefused).
    + cbn; lia.
    + intros j Hj. assert (j = O) by lia. subst j.
      exists dialTimeoutError. split; reflexivity.
    + reflexivity.
    + reflexivity.
  - apply (proj1 (proj2 (dial_policy envTimeout (cfgOf 3) backendAddr (clientOf [])
                           (initState []) H3))).
    intros j _. exists dialTimeoutError. split; reflexivity.
  - apply (proj2 (proj2 (dial_policy envSecond (cfgOf 3) backendAddr (clientOf [])
                           (stateWith (clientOf []) []) H3)) 1%nat).
    + cbn; lia.
    + intros j Hj. assert (j = O) by lia. subst j.
      exists dialTimeoutError. split; reflexivity.
    + reflexivity.
Defined.

(** The first attempt connects, and yet [dial] writes an error token: the
    bootstrap on the new connection failed. *)
Lemma dial_connects_then_502 :
  dial_answer envBootFail 0 = None /\
  let r := dial envBootFail (cfgOf 1) backendAddr (clientOf [])
             (stateWith (clientOf []) []) in
  fst r = Ret (None, Some (NetError false false)) /\
  count_events isDial (trace (snd r)) = 1%nat /\
  tokens (trace (snd r)) = [codeDialErr].
Proof. vm_compute. repeat split. Qed.

(** C10, as amended: with [cfgDialRetry >= 1], [dial] never returns a nil
    connection together with a nil error.  [config] turns only the value
    0 into 1 and lets negative retry counts through; with a retry count
    below 1 the loop body never runs and no dial attempt is made, and
    [dial] then does not return at all: it panics on the nil
    connection. *)
Theorem dial_never_nil_nil (env : Env) (cfg : Config) (addr : bytes)
    (conn : Conn) (s : State) (Hretry : 1 <= cfgDialRetry cfg) :
  (forall ag err s',
     dial env cfg addr conn s = (Ret (ag, err), s') -> ~ (ag = None /\ err = None)) /\
  (forall getenv n c,
     isEmpty (getenv "GW_DIAL_RETRY") = false ->
     Atoi (getenv "GW_DIAL_RETRY") = (n, None) ->
     config getenv = Configured c ->
     cfgDialRetry c = if n =? 0 then 1 else n) /\
  (forall cfg',
     cfgDialRetry cfg' <= 0 ->
     exists msg, dial env cfg' addr conn s = (Panic msg, s)).
Proof.
  split; [| split].
  - intros ag err s' H [-> ->].
    apply dial_run in H. destruct H as [evs [_ [H _]]]. now apply H.
  - intros getenv n c Hne Ha. unfold config. rewrite Hne, Ha. cbn [negb].
    destruct (negb (isEmpty (getenv "GW_DIAL_TIMEOUT"))).
    + destruct (Atoi (getenv "GW_DIAL_TIMEOUT")) as [t [e |]];
        [discriminate | intros H; injection H as <-; reflexivity].
    + intros H; injection H as <-; reflexivity.
  - intros cfg' Hr. now apply dial_no_attempt.
Qed.

Lemma dial_never_nil_nil_witness :
  1 <= cfgDialRetry (cfgOf 1) /\
  ~ (fst (dial envOK (cfgOf 1) backendAddr (clientOf []) (stateWith (clientOf []) []))
     = Ret (None, None)) /\
  config (sampleGetenv "0") = Configured (mkConfig [] 1 (3 * Second)) /\
  config (sampleGetenv "-2") = Configured (mkConfig [] (-2) (3 * Second)) /\
  (exists msg,
     dial envOK (cfgOf (-2)) backendAddr (clientOf []) (stateWith (clientOf []) [])
     = (Panic msg, stateWith (clientOf []) [])).
Proof.
  assert (H1 : 1 <= cfgDialRetry (cfgOf 1)) by (cbn; lia).
  pose proof (dial_never_nil_nil envOK (cfgOf 1) backendAddr (clientOf [])
                (stateWith (clientOf []) []) H1) as (Ha & Hb & Hc).
  split; [exact H1 |]. split; [| split; [| split]].
  - intros E.
    destruct (dial envOK (cfgOf 1) backendAddr (clientOf [])
                (stateWith (clientOf []) [])) as [o s'] eqn:Ed.
    cbn [fst] in E. subst o. exact (Ha None None s' eq_refl (conj eq_refl eq_refl)).
  - reflexivity.
  - reflexivity.
  - apply (Hc (cfgOf (-2))). cbn; lia.
Defined.

(** With a negative retry count [dial] does not return nil and nil: it
    does not return. *)
Lemma dial_negative_retry_panics :
  config (sampleGetenv "-1") = Configured (mkConfig [] (-1) (3 * Second)) /\
  dial envOK (mkConfig [] (-1) (3 * Second)) backendAddr (clientOf [])
    (stateWith (clientOf []) [])
  = (Panic "invalid memory address or nil pointer dereference",
     stateWith (clientOf []) []) /\
  fst (dial envOK (mkConfig [] (-1) (3 * Second)) backendAddr (clientOf [])
         (stateWith (clientOf []) []))
  <> Ret (None, None).
Proof. vm_compute. repeat split. discriminate. Qed.

(* ================================================================== *)
(** * The bootstrap preamble *)

Lemma firstn_repeat_le {A : Type} (x : A) (n m : nat) :
  (n <= m)%nat -> firstn n (repeat x m) = repeat x n.
Proof.
  revert m. induction n as [| n IH]; intros m H; [reflexivity |].
  destruct m as [| m]; [lia |]. cbn. f_equal. apply IH. lia.
Qed.

Lemma succ_mod_256 (x : Z) :
  0 <= x -> (x + 1) mod 256 <> 0 -> (x + 1) mod 256 = x mod 256 + 1.
Proof. intros H0 H. Z.div_mod_to_equations. lia. Qed.

(** What [agentInit] builds when the slice is not empty: the length byte
    is the length modulo 256, and that many bytes of the address follow. *)
Lemma addrPreamble_wraps (addr : bytes) :
  (len addr + 1) mod 256 <> 0 ->
  addrPreamble addr
  = Ret (byte_of_int (len addr) :: firstn (Z.to_nat (len addr mod 256)) addr).
Proof.
  intros H. unfold addrPreamble.
  assert (H0 : 0 <= len addr) by (unfold len; lia).
  rewrite int_of_byte_of_int, succ_mod_256 by assumption.
  pose proof (Z.mod_pos_bound (len addr) 256 ltac:(lia)) as Hr.
  assert (Hle : len addr mod 256 <= len addr).
  { apply Z.mod_le; lia. }
  assert (H254 : len addr mod 256 <= 254).
  { clear - H H0. Z.div_mod_to_equations. lia. }
  set (r := len addr mod 256) in *.
  replace (Z.to_nat (r + 1)) with (S (Z.to_nat r)) by lia.
  assert (Hn : (Z.to_nat r <= length addr)%nat) by (unfold len in Hle; lia).
  clearbody r.
  rewrite firstn_repeat_le by lia. cbn [repeat]. unfold copy.
  rewrite repeat_length, skipn_all2, app_nil_r; [reflexivity |].
  now rewrite repeat_length.
Qed.

Lemma addrPreamble_exact (addr : bytes) :
  len addr <= 254 ->
  addrPreamble addr = Ret (byte_of_int (len addr) :: addr) /\
  int_of_byte (byte_of_int (len addr)) = len addr.
Proof.
  intros H. assert (H0 : 0 <= len addr) by (unfold len; lia).
  rewrite int_of_byte_of_int, addrPreamble_wraps.
  - rewrite Z.mod_small by lia. unfold len. rewrite Nat2Z.id, firstn_all.
    split; [reflexivity | lia].
  - rewrite Z.mod_small by lia. lia.
Qed.

(** C9, as amended: [agentInit] does not check the length of the client's
    remote address.  For an address of at most 254 bytes the length byte
    is the length and the whole address follows.  For a longer address
    whose length plus one is not a multiple of 256 the one-byte lengths
    wrap modulo 256: the length byte is the length modulo 256, only that
    many bytes of the address follow, and nothing is reported: with a
    backend that takes every call the bootstrap succeeds. *)
Theorem preamble_length_wraps (addr : bytes) :
  (len addr <= 254 ->
   addrPreamble addr = Ret (byte_of_int (len addr) :: addr) /\
   int_of_byte (byte_of_int (len addr)) = len addr) /\
  (254 < len addr -> (len addr + 1) mod 256 <> 0 ->
   addrPreamble addr
   = Ret (byte_of_int (len addr) :: firstn (Z.to_nat (len addr mod 256)) addr) /\
   int_of_byte (byte_of_int (len addr)) = len addr mod 256 /\
   len addr mod 256 < len addr /\
   forall env cfg a conn s b,
     remoteAddr conn = addr ->
     (forall k, agent_answer env k = None) ->
     reader s = Some b -> Buffered b <= defaultBufSize ->
     exists s',
       agentInit env cfg (Some a) conn s = (Ret None, s') /\
       trace s'
       = trace s
         ++ [AgentSetWriteDeadline (Some (cfgDialTimeout cfg));
             AgentWrite (byte_of_int (len addr)
                           :: firstn (Z.to_nat (len addr mod 256)) addr);
             AgentWrite (window b); AgentSetWriteDeadline None]).
Proof.
  split.
  - apply addrPreamble_exact.
  - intros Hlong Hne. split; [now apply addrPreamble_wraps |].
    split; [apply int_of_byte_of_int |]. split.
    + clear - Hlong Hne. Z.div_mod_to_equations. lia.
    + intros env cfg a conn s b Hconn Hans Hb Hcap.
      apply agentInit_succeeds; try assumption.
      rewrite Hconn. now apply addrPreamble_wraps.
Qed.

Lemma preamble_length_wraps_witness :
  (len (bytes_of_string "192.0.2.1:50000") <= 254 /\
   addrPreamble (bytes_of_string "192.0.2.1:50000")
   = Ret ("015"%char :: bytes_of_string "192.0.2.1:50000")) /\
  (254 < len (longAddr 300) /\ (len (longAddr 300) + 1) mod 256 <> 0 /\
   addrPreamble (longAddr 300) = Ret (","%char :: longAddr 44) /\
   exists s',
     agentInit envOK (cfgOf 1) (Some (agentOf 0)) (mkConn (longAddr 300) [] EOF)
       (stateWith (mkConn (longAddr 300) [] EOF) [])
     = (Ret None, s')).
Proof.
  split.
  - assert (H : len (bytes_of_string "192.0.2.1:50000") <= 254)
      by (vm_compute; discriminate).
    split; [exact H |].
    exact (proj1 (proj1 (preamble_length_wraps (bytes_of_string "192.0.2.1:50000")) H)).
  - assert (H1 : 254 < len (longAddr 300)) by (vm_compute; reflexivity).
    assert (H2 : (len (longAddr 300) + 1) mod 256 <> 0) by (vm_compute; discriminate).
    split; [exact H1 |]. split; [exact H2 |].
    destruct (proj2 (preamble_length_wraps (longAddr 300)) H1 H2)
      as (Hp & _ & _ & Hinit).
    split; [exact Hp |].
    destruct (Hinit envOK (cfgOf 1) (agentOf 0) (mkConn (longAddr 300) [] EOF)
                (stateWith (mkConn (longAddr 300) [] EOF) [])
                (mkReader 0 [] (Some (mkConn (longAddr 300) [] EOF)) None None)
                eq_refl (fun _ => eq_refl) eq_refl)
      as (s' & Hs' & _).
    { vm_compute. discriminate. }
    exists s'. exact Hs'.
Defined.

(** A remote address of 255 bytes: the slice [buf[:byte(256)]] is empty
    and the store into [addrBuf[0]] panics; the handler ends without a
    preamble, without a token and without closing the backend socket. *)
Lemma preamble_255_panics :
  254 < len (longAddr 255) /\
  addrPreamble (longAddr 255) = Panic "index out of range [0] with length 0" /\
  let conn := mkConn (longAddr 255) [bytes_of_string "QUJD"; [newline]] EOF in
  let r := handle envOK (cfgOf 1) conn (initState []) in
  fst r = Ret tt /\
  trace (snd r)
  = [DialTimeout (bytes_of_string "CBA") (3 * Second);
     AgentSetWriteDeadline (Some (3 * Second));
     ConnClose;
     LogPanic "index out of range [0] with length 0"].
Proof. vm_compute. repeat split. Qed.

(* ================================================================== *)
(** * The buffered reader *)

Lemma conn_Read_spec (n : nat) (q : list bytes) :
  (0 < n)%nat ->
  match conn_Read n q with
  | None => concat q = []
  | Some (d, q') => d <> [] /\ (length d <= n)%nat /\ d ++ concat q' = concat q
  end.
Proof.
  intros Hn. induction q as [| seg q IH]; [reflexivity |].
  cbn [conn_Read]. destruct seg as [| x seg]; [exact IH |].
  destruct (Nat.leb_spec (length (x :: seg)) n) as [Hle | Hgt].
  - repeat split; [discriminate | exact Hle].
  - repeat split.
    + destruct n; [lia | discriminate].
    + rewrite length_firstn. lia.
    + cbn [concat]. now rewrite app_assoc, firstn_skipn.
Qed.

(** [fill] on a reader whose buffer is not full: either the socket is at
    its end and the error is recorded, or at least one byte is added to
    the window. *)
Lemma fill_spec (b : Reader) :
  wf b -> Buffered b < defaultBufSize ->
  exists b', fill b = Ret b' /\ wf b' /\ end_err b' = end_err b /\
    lastByte b' = lastByte b /\ stream b' = stream b /\
    ((queued b = [] /\ window b' = window b /\ rerr b' = end_err b) \/
     (exists d, d <> [] /\ window b' = window b ++ d /\ rerr b' = rerr b)).
Proof.
  intros (Hrd & Hpos & Hcap) Hfree. unfold fill.
  destruct (Z.leb_spec defaultBufSize (Buffered b)) as [? | _]; [lia |].
  destruct b as [rp w [c |] re lb]; [| contradiction]. cbn [rd window rerr lastByte] in *.
  unfold Buffered in *. cbn [window] in *.
  pose proof (conn_Read_spec (Z.to_nat (defaultBufSize - len w)) (incoming c)
                ltac:(lia)) as Hr.
  destruct (conn_Read _ (incoming c)) as [[d q] |].
  - destruct Hr as (Hd & Hlen & Hcat).
    eexists. split; [reflexivity |].
    unfold wf, end_err, stream, queued, Buffered, len in *.
    cbn [rd window rerr lastByte rpos incoming incoming_err].
    rewrite length_app.
    repeat split; try discriminate; try lia.
    + now rewrite <- app_assoc, Hcat.
    + right. exists d. repeat split. exact Hd.
  - eexists. split; [reflexivity |].
    unfold wf, end_err, stream, queued, Buffered, len in *.
    cbn [rd window rerr lastByte rpos incoming incoming_err concat].
    rewrite Hr.
    repeat split; try discriminate; try lia.
    left. repeat split.
Qed.

(** [ReadByte] on a ready reader: the next byte of the stream, or the
    error of the socket when the stream is at its end. *)
Lemma ReadByte_spec (b : Reader) :
  ready b ->
  match stream b with
  | [] =>
      exists e b', ReadByte b = Ret ((zero, Some e), b') /\
        end_err b = Some e /\ ready b' /\ stream b' = []
  | x :: rest =>
      exists b', ReadByte b = Ret ((x, None), b') /\ ready b' /\
        stream b' = rest /\ lastByte b' = Some x /\ 1 <= rpos b' /\
        end_err b' = end_err b
  end.
Proof.
  intros [Hwf Herr]. unfold ReadByte. cbn [ReadByte_loop].
  destruct (window b) as [| x w] eqn:Ew.
  - rewrite Herr.
    destruct (fill_spec b Hwf) as (b1 & -> & Hwf1 & He1 & Hl1 & Hs1 & Hcase).
    { unfold Buffered. rewrite Ew. cbn. unfold defaultBufSize. lia. }
    destruct Hcase as [(Hq & Hw1 & Hr1) | (d & Hd & Hw1 & Hr1)].
    + rewrite Hw1, Ew, Hr1.
      unfold stream. rewrite Ew, Hq. cbn [app].
      destruct Hwf as (Hrd & _). unfold end_err in *.
      destruct (rd b) as [c |] eqn:Ec; [| contradiction].
      unfold readErr. rewrite Hr1. eexists. eexists. split; [reflexivity |].
      split; [reflexivity |]. split.
      * destruct Hwf1 as (H1 & H2 & H3).
        unfold ready, wf, Buffered in *. cbn [rd rpos window rerr]. tauto.
      * unfold stream in *. cbn [window rd]. rewrite Hw1, Ew, Hq in Hs1.
        rewrite Hw1, Ew. exact Hs1.
    + rewrite Hw1, Ew. cbn [app]. destruct d as [| x d]; [contradiction |].
      unfold stream at 1. rewrite Ew. cbn [app].
      assert (Hq : queued b = (x :: d) ++ queued b1).
      { unfold stream in Hs1. rewrite Hw1, Ew in Hs1. cbn [app] in Hs1.
        symmetry. exact Hs1. }
      rewrite Hq. cbn [app].
      eexists. split; [reflexivity |].
      destruct Hwf1 as (H1 & H2 & H3).
      unfold ready, wf, stream, queued, end_err, Buffered, len in *.
      cbn [rd rpos window rerr lastByte].
      rewrite Hw1, Ew in H3. cbn [length app] in H3.
      repeat split; try assumption; try lia. congruence.
  - unfold stream. rewrite Ew. cbn [app].
    eexists. split; [reflexivity |].
    destruct Hwf as (H1 & H2 & H3).
    unfold ready, wf, stream, queued, end_err, Buffered, len in *.
    cbn [rd rpos window rerr lastByte]. rewrite Ew in H3. cbn [length] in H3.
    repeat split; try assumption; lia.
Qed.

(** [UnreadByte] right after a successful [ReadByte] puts the byte back. *)
Lemma UnreadByte_spec (b : Reader) (x : byte) :
  ready b -> lastByte b = Some x -> 1 <= rpos b ->
  exists b', UnreadByte b = (None, b') /\ ready b' /\
    stream b' = x :: stream b /\ end_err b' = end_err b.
Proof.
  intros [(H1 & H2 & H3) Herr] Hl Hp. unfold UnreadByte. rewrite Hl.
  destruct (Z.eqb_spec (rpos b) 0) as [? | _]; [lia |]. cbn [andb].
  destruct (Z.ltb_spec 0 (rpos b)) as [_ | ?]; [| lia].
  eexists. split; [reflexivity |].
  unfold ready, wf, stream, queued, end_err, Buffered, len in *.
  cbn [rd rpos window rerr lastByte length].
  repeat split; try assumption; lia.
Qed.

(** [Read] into [n > 0] bytes on a ready reader: the error of the socket
    at the end of the stream, and otherwise a non-empty prefix of the
    stream of at most [n] bytes. *)
Lemma Read_spec (n : nat) (b : Reader) :
  (0 < n)%nat -> ready b ->
  exists b', ready b' /\ end_err b' = end_err b /\
    ((stream b = [] /\ stream b' = [] /\
      exists e, Read n b = Ret (([], Some e), b')) \/
     (exists got, got <> [] /\ (length got <= n)%nat /\
        got ++ stream b' = stream b /\ Read n b = Ret ((got, None), b'))).
Proof.
  intros Hn [(Hrd & Hpos & Hcap) Herr]. unfold Read.
  destruct b as [rp w [c |] re lb]; [| contradiction].
  unfold ready, wf, stream, queued, end_err, Buffered, len in *.
  cbn [rd rpos window rerr lastByte] in *. subst re.
  destruct w as [| x w].
  - pose proof (conn_Read_spec (Z.to_nat defaultBufSize) (incoming c)
                  ltac:(unfold defaultBufSize; lia)) as Hr.
    destruct (conn_Read _ (incoming c)) as [[d q] |].
    + destruct Hr as (Hd & Hlen & Hcat).
      exists (mkReader (Z.of_nat (length (firstn n d))) (skipn n d)
                (Some (mkConn (remoteAddr c) q (incoming_err c))) None
                (Some (last (firstn n d) zero))).
      cbn [rd rpos window rerr incoming incoming_err app].
      split; [| split]; [| reflexivity | right; exists (firstn n d)].
      * rewrite length_skipn. pose proof (length_firstn n d) as Hf.
        repeat split; try discriminate; try lia.
      * split; [| split; [| split; [| reflexivity]]].
        -- destruct d; [contradiction |]. destruct n; [lia | discriminate].
        -- rewrite length_firstn. lia.
        -- now rewrite app_assoc, firstn_skipn.
    + exists (mkReader 0 [] (Some (mkConn (remoteAddr c) [] (incoming_err c)))
                None lb).
      cbn [rd rpos window rerr incoming incoming_err app concat length].
      split; [| split]; [| reflexivity | left].
      * unfold defaultBufSize. repeat split; try discriminate; lia.
      * repeat split; [exact Hr |]. eexists. reflexivity.
  - exists (mkReader (rp + Z.of_nat (length (firstn n (x :: w))))
              (skipn n (x :: w)) (Some c) None
              (Some (last (firstn n (x :: w)) zero))).
    cbn [rd rpos window rerr].
    split; [| split]; [| reflexivity | right; exists (firstn n (x :: w))].
    + rewrite length_skipn. pose proof (length_firstn n (x :: w)) as Hf.
      repeat split; try discriminate; try lia.
    + split; [| split; [| split; [| reflexivity]]].
      * destruct n; [lia | discriminate].
      * rewrite length_firstn. lia.
      * now rewrite app_assoc, firstn_skipn.
Qed.

(** [io.ReadFull]: the next [need] bytes of the stream when it has that
    many, and an error when it is shorter. *)
Lemma ReadFull_loop_spec (fuel : nat) :
  forall (need : nat) (acc : bytes) (b : Reader),
    ready b -> (need < fuel)%nat ->
    exists b', ready b' /\ end_err b' = end_err b /\
      (((need <= length (stream b))%nat /\
        stream b' = skipn need (stream b) /\
        ReadFull_loop fuel need acc b
        = Ret ((acc ++ firstn need (stream b), None), b')) \/
       ((length (stream b) < need)%nat /\
        exists got e, ReadFull_loop fuel need acc b = Ret ((got, Some e), b'))).
Proof.
  induction fuel as [| fuel IH]; intros need acc b Hb Hf; [lia |].
  destruct need as [| m].
  - exists b. split; [exact Hb |]. split; [reflexivity |]. left.
    cbn. rewrite app_nil_r. repeat split. lia.
  - cbn [ReadFull_loop].
    destruct (Read_spec (S m) b ltac:(lia) Hb)
      as (b1 & Hb1 & He1 & [(Hs & Hs1 & e & ->) | (got & Hg & Hl & Hcat & ->)]).
    + exists b1. split; [exact Hb1 |]. split; [exact He1 |]. right.
      rewrite Hs. cbn [length]. split; [lia |]. eauto.
    + destruct (IH (S m - length got)%nat (acc ++ got) b1 Hb1)
        as (b2 & Hb2 & He2 & Hcase).
      { destruct got; [contradiction |]. cbn [length]. lia. }
      exists b2. split; [exact Hb2 |]. split; [congruence |].
      rewrite <- Hcat. rewrite length_app.
      destruct Hcase as [(Hle & Hs2 & ->) | (Hlt & got' & e & ->)].
      * left. split; [lia |]. split.
        -- rewrite skipn_app, (skipn_all2 got) by lia. exact Hs2.
        -- rewrite firstn_app, (firstn_all2 got) by lia.
           now rewrite <- app_assoc.
      * right. split; [lia |]. eauto.
Qed.

Lemma ReadFull_spec (n : nat) (b : Reader) :
  ready b ->
  exists b', ready b' /\ end_err b' = end_err b /\
    (((n <= length (stream b))%nat /\
      stream b' = skipn n (stream b) /\
      ReadFull n b = Ret ((firstn n (stream b), None), b')) \/
     ((length (stream b) < n)%nat /\
      exists got e, ReadFull n b = Ret ((got, Some e), b'))).
Proof.
  intros Hb. unfold ReadFull.
  destruct (ReadFull_loop_spec (S n) n [] b Hb ltac:(lia)) as (b' & H1 & H2 & H3).
  exists b'. split; [exact H1 |]. split; [exact H2 |]. exact H3.
Qed.

Lemma split_at_delim_none (delim : byte) (l : bytes) :
  ~ In delim l -> split_at_delim delim l = None.
Proof.
  induction l as [| c l IH]; intros H; [reflexivity |].
  cbn [split_at_delim]. unfold byte_eqb.
  destruct (Ascii.eqb_spec c delim) as [-> | _].
  - exfalso. apply H. now left.
  - rewrite IH; [reflexivity |]. intros Hin. apply H. now right.
Qed.

Lemma split_at_delim_found (delim : byte) (line rest : bytes) :
  ~ In delim line ->
  split_at_delim delim (line ++ delim :: rest) = Some (line ++ [delim], rest).
Proof.
  induction line as [| c line IH]; intros H; cbn [app split_at_delim]; unfold byte_eqb.
  - now rewrite Ascii.eqb_refl.
  - destruct (Ascii.eqb_spec c delim) as [-> | _].
    + exfalso. apply H. now left.
    + rewrite IH; [reflexivity |]. intros Hin. apply H. now right.
Qed.

Lemma split_at_delim_some (delim : byte) (l line rest : bytes) :
  split_at_delim delim l = Some (line, rest) ->
  l = line ++ rest /\ line <> [].
Proof.
  revert line. induction l as [| c l IH]; intros line H; [discriminate |].
  cbn [split_at_delim] in H. destruct (byte_eqb c delim).
  - injection H as <- <-. split; [reflexivity | discriminate].
  - destruct (split_at_delim delim l) as [[line' rest'] |]; [| discriminate].
    injection H as <- <-. destruct (IH line' eq_refl) as [-> _].
    split; [reflexivity | discriminate].
Qed.

(** [ReadSlice] always returns: the window grows with every turn of its
    loop until the delimiter shows up, the socket ends or the buffer is
    full. *)
Lemma ReadSlice_loop_total (delim : byte) (fuel : nat) :
  forall b : Reader,
    wf b ->
    rerr b = None \/ split_at_delim delim (window b) = None ->
    (match rerr b with
     | None => Z.to_nat (defaultBufSize - Buffered b) + 1
     | Some _ => 0
     end <= fuel)%nat ->
    exists r b', ReadSlice_loop fuel delim b = Ret (r, b') /\ ready b' /\
      end_err b' = end_err b.
Proof.
  induction fuel as [| fuel IH]; intros b Hwf Hpre Hfuel.
  - assert (Hstep :
      ReadSlice_loop 0 delim b
      = match split_at_delim delim (window b) with
        | Some (line, rest) =>
            Ret ((line, None),
                 {| rpos := rpos b + len line; window := rest; rd := rd b;
                    rerr := rerr b; lastByte := last_opt line (lastByte b) |})
        | None =>
            match rerr b with
            | Some e =>
                Ret ((window b, Some e),
                     {| rpos := rpos b + Buffered b; window := []; rd := rd b;
                        rerr := None;
                        lastByte := last_opt (window b) (lastByte b) |})
            | None =>
                if defaultBufSize <=? Buffered b then
                  Ret ((window b, Some ErrBufferFull),
                       {| rpos := rpos b + Buffered b; window := []; rd := rd b;
                          rerr := None;
                          lastByte := last_opt (window b) (lastByte b) |})
                else OutOfFuel
            end
        end) by reflexivity.
    rewrite Hstep. clear Hstep.
    destruct Hwf as (Hrd & Hpos & Hcap).
    destruct (split_at_delim delim (window b)) as [[line rest] |] eqn:Es.
    + destruct Hpre as [Hn | ?]; [| discriminate].
      apply split_at_delim_some in Es. destruct Es as [Ew _].
      eexists. eexists. split; [reflexivity |].
      unfold ready, wf, end_err, Buffered, len in *.
      cbn [rd rpos window rerr]. rewrite Ew, length_app in Hcap.
      repeat split; try assumption; lia.
    + destruct (rerr b) as [e |] eqn:Ee.
      * eexists. eexists. split; [reflexivity |].
        unfold ready, wf, end_err, Buffered, len in *.
        cbn [rd rpos window rerr length]. repeat split; try assumption; lia.
      * lia.
  - cbn [ReadSlice_loop].
    destruct (split_at_delim delim (window b)) as [[line rest] |] eqn:Es.
    + destruct Hwf as (Hrd & Hpos & Hcap).
      destruct Hpre as [Hn | ?]; [| discriminate].
      apply split_at_delim_some in Es. destruct Es as [Ew _].
      eexists. eexists. split; [reflexivity |].
      unfold ready, wf, end_err, Buffered, len in *.
      cbn [rd rpos window rerr]. rewrite Ew, length_app in Hcap.
      repeat split; try assumption; lia.
    + destruct (rerr b) as [e |] eqn:Ee.
      * destruct Hwf as (Hrd & Hpos & Hcap).
        eexists. eexists. split; [reflexivity |].
        unfold ready, wf, end_err, Buffered, len in *.
        cbn [rd rpos window rerr length]. repeat split; try assumption; lia.
      * destruct (Z.leb_spec defaultBufSize (Buffered b)) as [Hfull | Hfree].
        -- destruct Hwf as (Hrd & Hpos & Hcap).
           eexists. eexists. split; [reflexivity |].
           unfold ready, wf, end_err, Buffered, len in *.
           cbn [rd rpos window rerr length]. repeat split; try assumption; lia.
        -- destruct (fill_spec b Hwf Hfree)
             as (b1 & -> & Hwf1 & He1 & _ & _ & Hcase).
           destruct Hcase as [(_ & Hw1 & Hr1) | (d & Hd & Hw1 & Hr1)].
           ++ destruct (IH b1 Hwf1) as (r & b' & Hrun & Hb' & He').
              { right. now rewrite Hw1. }
              { rewrite Hr1. destruct Hwf as (Hrd & _). unfold end_err.
                destruct (rd b); [lia | contradiction]. }
              exists r, b'. split; [exact Hrun |]. split; [exact Hb' | congruence].
           ++ destruct (IH b1 Hwf1) as (r & b' & Hrun & Hb' & He').
              { left. congruence. }
              { rewrite Hr1, Ee. unfold Buffered, len in *. rewrite Hw1, length_app.
                destruct d; [contradiction |]. cbn [length]. lia. }
              exists r, b'. split; [exact Hrun |]. split; [exact Hb' | congruence].
Qed.

Lemma ReadSlice_total (delim : byte) (b : Reader) :
  ready b ->
  exists r b', ReadSlice delim b = Ret (r, b') /\ ready b' /\
    end_err b' = end_err b.
Proof.
  intros [Hwf Herr]. unfold ReadSlice. apply ReadSlice_loop_total.
  - exact Hwf.
  - now left.
  - rewrite Herr. destruct Hwf as (_ & Hpos & Hcap).
    unfold Buffered, len, defaultBufSize in *. lia.
Qed.

(** [ReadSlice] on a stream that holds a whole line within the buffer
    size: the line with its delimiter, and the stream goes on behind it. *)
Lemma ReadSlice_loop_line (delim : byte) (line rest : bytes) (fuel : nat) :
  ~ In delim line ->
  len line + 1 <= defaultBufSize ->
  forall b : Reader,
    ready b ->
    stream b = line ++ delim :: rest ->
    (length line + 2 - length (window b) <= fuel)%nat ->
    exists b', ReadSlice_loop fuel delim b = Ret ((line ++ [delim], None), b') /\
      ready b' /\ stream b' = rest /\ end_err b' = end_err b.
Proof.
  intros Hnot Hlen. induction fuel as [| fuel IH]; intros b Hb Hs Hfuel.
  - (* the window already holds the line *)
    destruct Hb as [(Hrd & Hpos & Hcap) Herr].
    unfold stream in Hs. apply app_eq_app in Hs.
    destruct Hs as [l [[Hw Hq] | [Hw Hq]]].
    2: { exfalso. rewrite Hw, length_app in Hfuel. lia. }
    destruct l as [| x l].
    { exfalso. rewrite Hw, app_nil_r in Hfuel. lia. }
    cbn [app] in Hq. injection Hq as <- Hrest.
    assert (Hstep :
      ReadSlice_loop 0 delim b
      = Ret ((line ++ [delim], None),
             {| rpos := rpos b + len (line ++ [delim]); window := l; rd := rd b;
                rerr := rerr b;
                lastByte := last_opt (line ++ [delim]) (lastByte b) |})).
    { cbn [ReadSlice_loop]. rewrite Hw, split_at_delim_found by assumption.
      reflexivity. }
    rewrite Hstep. eexists. split; [reflexivity |].
    unfold ready, wf, stream, queued, end_err, Buffered, len in *.
    cbn [rd rpos window rerr]. rewrite Hw in Hcap.
    rewrite !length_app in *. cbn [length] in *.
    repeat split; try assumption; try lia. now symmetry.
  - cbn [ReadSlice_loop].
    pose proof Hb as [Hwf Herr]. pose proof Hwf as (Hrd & Hpos & Hcap).
    pose proof Hs as Hs'. unfold stream in Hs'. apply app_eq_app in Hs'.
    destruct Hs' as [l [[Hw Hq] | [Hw Hq]]]; [destruct l as [| x l] |].
    + (* the window is exactly the line without its delimiter *)
      rewrite app_nil_r in Hw. cbn [app] in Hq.
      rewrite split_at_delim_none by (now rewrite Hw).
      rewrite Herr.
      destruct (Z.leb_spec defaultBufSize (Buffered b)) as [Hfull | Hfree].
      { exfalso. unfold Buffered in Hfull. rewrite Hw in Hfull. lia. }
      destruct (fill_spec b Hwf Hfree) as (b1 & -> & Hwf1 & He1 & _ & Hs1 & Hcase).
      destruct Hcase as [(Hq0 & _ & _) | (d & Hd & Hw1 & Hr1)].
      { exfalso. rewrite Hq0 in Hq. discriminate. }
      destruct (IH b1) as (b' & Hrun & Hb' & Hst & He').
      * split; [exact Hwf1 | congruence].
      * congruence.
      * rewrite Hw1, length_app. destruct d; [contradiction |]. cbn [length]. lia.
      * exists b'. split; [exact Hrun |]. split; [exact Hb' |].
        split; [exact Hst | congruence].
    + (* the window holds the line and its delimiter *)
      cbn [app] in Hq. injection Hq as <- Hrest.
      rewrite Hw, split_at_delim_found by assumption.
      eexists. split; [reflexivity |].
      unfold ready, wf, stream, queued, end_err, Buffered, len in *.
      cbn [rd rpos window rerr]. rewrite Hw in Hcap.
      rewrite !length_app in *. cbn [length] in *.
      repeat split; try assumption; try lia. now symmetry.
    + (* the window is a proper part of the line *)
      assert (Hnw : ~ In delim (window b)).
      { intros Hin. apply Hnot. rewrite Hw. apply in_or_app. now left. }
      rewrite split_at_delim_none by assumption.
      rewrite Herr.
      destruct (Z.leb_spec defaultBufSize (Buffered b)) as [Hfull | Hfree].
      { exfalso. unfold Buffered, len in *. rewrite Hw, length_app in Hlen. lia. }
      destruct (fill_spec b Hwf Hfree) as (b1 & -> & Hwf1 & He1 & _ & Hs1 & Hcase).
      destruct Hcase as [(Hq0 & _ & _) | (d & Hd & Hw1 & Hr1)].
      { exfalso. rewrite Hq0 in Hq. destruct l; discriminate. }
      destruct (IH b1) as (b' & Hrun & Hb' & Hst & He').
      * split; [exact Hwf1 | congruence].
      * congruence.
      * rewrite Hw1, length_app. destruct d; [contradiction |]. cbn [length]. lia.
      * exists b'. split; [exact Hrun |]. split; [exact Hb' |].
        split; [exact Hst | congruence].
Qed.

Lemma ReadSlice_line (delim : byte) (line rest : bytes) (b : Reader) :
  ~ In delim line ->
  len line + 1 <= defaultBufSize ->
  ready b ->
  stream b = line ++ delim :: rest ->
  exists b', ReadSlice delim b = Ret ((line ++ [delim], None), b') /\
    ready b' /\ stream b' = rest /\ end_err b' = end_err b.
Proof.
  intros Hnot Hlen Hb Hs. unfold ReadSlice.
  apply ReadSlice_loop_line; try assumption.
  unfold len, defaultBufSize in *. lia.
Qed.

(* ================================================================== *)
(** * The handshake *)

Lemma onReader_eq {A : Type} (f : Reader -> outcome (A * Reader))
    (s : State) (b b' : Reader) (a : A) :
  reader s = Some b -> f b = Ret (a, b') ->
  onReader f s = (Ret a, with_reader s b').
Proof. intros Hb Hf. unfold onReader. now rewrite Hb, Hf. Qed.

Lemma frame_with_reader (s : State) (b : Reader) : frame s (with_reader s b) [].
Proof.
  unfold frame, with_reader. cbn. rewrite app_nil_r.
  repeat split. discriminate.
Qed.

Lemma frame_write (s : State) (b : Reader) (p : bytes) :
  frame s (extend (with_reader s b) [ConnWrite p]) [ConnWrite p].
Proof. unfold frame, with_reader, extend. cbn. repeat split. discriminate. Qed.

Lemma agrees_token_shape (v : verdict) (addr : bytes) (err : option error)
    (evs : list event) (b' : Reader) :
  (forall c, v = Rejected c -> c = codeBadReq \/ c = codeBadAddr) ->
  agrees v addr err evs b' -> token_shape err evs.
Proof.
  intros Hc. destruct v as [a rest | c]; cbn.
  - intros (-> & _ & -> & _). reflexivity.
  - intros (He & _ & ->). destruct err; [| contradiction]. cbn.
    destruct (Hc c eq_refl) as [-> | ->]; auto.
Qed.

Lemma binary_verdict_codes (env : Env) (cfg : Config) (st : bytes) (c : bytes) :
  binary_verdict env cfg st = Rejected c -> c = codeBadReq \/ c = codeBadAddr.
Proof.
  unfold binary_verdict. destruct st as [| n tl].
  - intros H. injection H as <-. now left.
  - destruct (_ <? _)%nat.
    + intros H. injection H as <-. now left.
    + destruct (Decrypt env _ _) as [a [e |]]; [| discriminate].
      intros H. injection H as <-. now right.
Qed.

Section Handshake.

Variable env : Env.
Variable cfg : Config.

Lemma handshakeBinary_ready (s : State) (b : Reader) :
  reader s = Some b -> ready b ->
  exists addr err s' evs b',
    handshakeBinary env cfg s = (Ret (addr, err), s') /\
    frame s s' evs /\ reader s' = Some b' /\ ready b' /\
    agrees (binary_verdict env cfg (stream b)) addr err evs b'.
Proof.
  intros Hs Hb. unfold handshakeBinary, bind at 1.
  pose proof (ReadByte_spec b Hb) as H1. unfold binary_verdict.
  destruct (stream b) as [| n tl].
  - destruct H1 as (e & b1 & Hr & _ & Hb1 & _).
    rewrite (onReader_eq _ s b b1 _ Hs Hr).
    unfold bind. rewrite conn_Write_eq. unfold ret.
    exists [], (Some e), (extend (with_reader s b1) [ConnWrite codeBadReq]),
      [ConnWrite codeBadReq], b1.
    split; [reflexivity |]. split; [apply frame_write |].
    split; [reflexivity |]. split; [exact Hb1 |].
    cbn. repeat split. discriminate.
  - destruct H1 as (b1 & Hr & Hb1 & Hst1 & _).
    rewrite (onReader_eq _ s b b1 _ Hs Hr).
    unfold bind at 1.
    destruct (ReadFull_spec (Z.to_nat (int_of_byte n)) b1 Hb1)
      as (b2 & Hb2 & _ & Hcase).
    rewrite Hst1 in Hcase.
    destruct Hcase as [(Hle & Hst2 & Hrf) | (Hlt & got & e & Hrf)].
    + rewrite (onReader_eq _ (with_reader s b1) b1 b2 _ eq_refl Hrf).
      destruct (Nat.ltb_spec (length tl) (Z.to_nat (int_of_byte n))) as [? | _];
        [lia |].
      destruct (Decrypt env (cfgSecret cfg) (firstn (Z.to_nat (int_of_byte n)) tl))
        as [a [e |]].
      * unfold bind. rewrite conn_Write_eq. unfold ret.
        exists [], (Some e),
          (extend (with_reader (with_reader s b1) b2) [ConnWrite codeBadAddr]),
          [ConnWrite codeBadAddr], b2.
        split; [reflexivity |]. split; [apply (frame_write s b2) |].
        split; [reflexivity |]. split; [exact Hb2 |].
        cbn. repeat split. discriminate.
      * unfold ret.
        exists a, None, (with_reader (with_reader s b1) b2), [], b2.
        split; [reflexivity |]. split; [apply (frame_with_reader s b2) |].
        split; [reflexivity |]. split; [exact Hb2 |].
        cbn. repeat split. exact Hst2.
    + rewrite (onReader_eq _ (with_reader s b1) b1 b2 _ eq_refl Hrf).
      destruct (Nat.ltb_spec (length tl) (Z.to_nat (int_of_byte n))) as [_ | ?];
        [| lia].
      unfold bind. rewrite conn_Write_eq. unfold ret.
      exists [], (Some e),
        (extend (with_reader (with_reader s b1) b2) [ConnWrite codeBadReq]),
        [ConnWrite codeBadReq], b2.
      split; [reflexivity |]. split; [apply (frame_write s b2) |].
      split; [reflexivity |]. split; [exact Hb2 |].
      cbn. repeat split. discriminate.
Qed.

Lemma handshakeText_ready (s : State) (b : Reader) :
  reader s = Some b -> ready b ->
  exists addr err s' evs b',
    handshakeText env cfg s = (Ret (addr, err), s') /\
    frame s s' evs /\ reader s' = Some b' /\ ready b' /\
    token_shape err evs /\
    (forall line rest,
       stream b = line ++ newline :: rest ->
       ~ In newline line -> len line + 1 <= defaultBufSize ->
       agrees (text_verdict env cfg (line ++ [newline]) rest) addr err evs b').
Proof.
  intros Hs Hb. unfold handshakeText, bind at 1.
  destruct (ReadSlice_total newline b Hb) as ([l e] & b1 & Hr & Hb1 & _).
  rewrite (onReader_eq _ s b b1 _ Hs Hr).
  assert (Hline : forall line rest,
            stream b = line ++ newline :: rest ->
            ~ In newline line -> len line + 1 <= defaultBufSize ->
            l = line ++ [newline] /\ e = None /\ stream b1 = rest).
  { intros line rest Hst Hnot Hlen.
    destruct (ReadSlice_line newline line rest b Hnot Hlen Hb Hst)
      as (b2 & Hr2 & _ & Hst2 & _).
    rewrite Hr in Hr2. injection Hr2 as -> -> ->. auto. }
  destruct e as [e |].
  - unfold bind. rewrite conn_Write_eq. unfold ret.
    exists [], (Some e), (extend (with_reader s b1) [ConnWrite codeBadReq]),
      [ConnWrite codeBadReq], b1.
    split; [reflexivity |]. split; [apply frame_write |].
    split; [reflexivity |]. split; [exact Hb1 |].
    split; [now left |].
    intros line rest Hst Hnot Hlen.
    destruct (Hline line rest Hst Hnot Hlen) as (_ & ? & _). discriminate.
  - destruct (DecryptBase64 env (cfgSecret cfg) l) as [a [e |]] eqn:Ed.
    + unfold bind. rewrite conn_Write_eq. unfold ret.
      exists [], (Some e), (extend (with_reader s b1) [ConnWrite codeBadAddr]),
        [ConnWrite codeBadAddr], b1.
      split; [reflexivity |]. split; [apply frame_write |].
      split; [reflexivity |]. split; [exact Hb1 |].
      split; [now right |].
      intros line rest Hst Hnot Hlen.
      destruct (Hline line rest Hst Hnot Hlen) as (-> & _ & _).
      unfold text_verdict. rewrite Ed. cbn. repeat split. discriminate.
    + unfold ret.
      exists a, None, (with_reader s b1), [], b1.
      split; [reflexivity |]. split; [apply frame_with_reader |].
      split; [reflexivity |]. split; [exact Hb1 |].
      split; [reflexivity |].
      intros line rest Hst Hnot Hlen.
      destruct (Hline line rest Hst Hnot Hlen) as (-> & _ & Hst1).
      unfold text_verdict. rewrite Ed. cbn. repeat split. exact Hst1.
Qed.

Lemma int_of_byte_zero (x : byte) : int_of_byte x = 0 <-> x = zero.
Proof.
  unfold int_of_byte. split.
  - intros H. rewrite <- (ascii_N_embedding x).
    replace (N_of_ascii x) with 0%N by lia. reflexivity.
  - intros ->. reflexivity.
Qed.

(** [handshake] on a ready reader always returns, writes a token exactly
    when it returns an error, and decides by the first byte. *)
Lemma handshake_ready (s : State) (b : Reader) :
  reader s = Some b -> ready b ->
  exists addr err s' evs b',
    handshake env cfg s = (Ret (addr, err), s') /\
    frame s s' evs /\ reader s' = Some b' /\ ready b' /\
    token_shape err evs /\
    (stream b = [] -> err <> None /\ evs = [ConnWrite codeBadReq]) /\
    (forall tl, stream b = zero :: tl ->
       agrees (binary_verdict env cfg tl) addr err evs b') /\
    (forall line rest,
       stream b = line ++ newline :: rest ->
       hd newline line <> zero ->
       ~ In newline line -> len line + 1 <= defaultBufSize ->
       agrees (text_verdict env cfg (line ++ [newline]) rest) addr err evs b').
Proof.
  intros Hs Hb. unfold handshake, bind at 1.
  pose proof (ReadByte_spec b Hb) as H1.
  destruct (stream b) as [| x tl] eqn:Est.
  - destruct H1 as (e & b1 & Hr & _ & Hb1 & _).
    rewrite (onReader_eq _ s b b1 _ Hs Hr).
    unfold bind. rewrite conn_Write_eq. unfold ret.
    exists [], (Some e), (extend (with_reader s b1) [ConnWrite codeBadReq]),
      [ConnWrite codeBadReq], b1.
    split; [reflexivity |]. split; [apply frame_write |].
    split; [reflexivity |]. split; [exact Hb1 |].
    split; [now left |]. split; [split; [discriminate | reflexivity] |].
    split.
    + intros tl H. discriminate.
    + intros line rest H. destruct line; discriminate.
  - destruct H1 as (b1 & Hr & Hb1 & Hst1 & Hl1 & Hp1 & _).
    rewrite (onReader_eq _ s b b1 _ Hs Hr).
    destruct (Z.eqb_spec (int_of_byte x) 0) as [Hz | Hnz].
    + apply int_of_byte_zero in Hz. subst x.
      destruct (handshakeBinary_ready (with_reader s b1) b1 eq_refl Hb1)
        as (addr & err & s' & evs & b' & Hrun & Hf & Hrd & Hb' & Hag).
      exists addr, err, s', evs, b'.
      split; [exact Hrun |].
      split; [apply (frame_trans _ _ _ [] evs (frame_with_reader s b1) Hf) |].
      split; [exact Hrd |]. split; [exact Hb' |].
      rewrite Hst1 in Hag.
      split; [eapply agrees_token_shape; [apply binary_verdict_codes | exact Hag] |].
      split; [discriminate |]. split.
      * intros tl' H. injection H as <-. exact Hag.
      * intros line rest H Hhd. exfalso. destruct line as [| y line].
        -- cbn in H. injection H as H _. unfold newline in H. discriminate.
        -- cbn in H, Hhd. injection H as <- _. now apply Hhd.
    + destruct (UnreadByte_spec b1 x Hb1 Hl1 Hp1) as (b2 & Hu & Hb2 & Hst2 & _).
      unfold bind at 1.
      rewrite (onReader_eq (fun b0 => Ret (UnreadByte b0)) (with_reader s b1) b1 b2 None
                 eq_refl (f_equal Ret Hu)).
      destruct (handshakeText_ready (with_reader (with_reader s b1) b2) b2 eq_refl Hb2)
        as (addr & err & s' & evs & b' & Hrun & Hf & Hrd & Hb' & Htok & Hag).
      exists addr, err, s', evs, b'.
      split; [exact Hrun |].
      split; [apply (frame_trans _ _ _ [] evs (frame_with_reader s b2) Hf) |].
      split; [exact Hrd |]. split; [exact Hb' |].
      split; [exact Htok |]. split; [discriminate |]. split.
      * intros tl' H. injection H as -> _. exfalso. now apply Hnz.
      * intros line rest H _ Hnot Hlen. apply Hag; try assumption.
        rewrite Hst2, Hst1. exact H.
Qed.

End Handshake.

(* ================================================================== *)
(** * The connection handler as a whole *)

Section Handle.

Variable env : Env.
Variable cfg : Config.

Lemma borrow_eq (conn : Conn) (s : State) :
  borrow env conn s
  = (Ret tt,
     mkState (Some (resetTo (Some conn))) (pool_after_get env (bufioPool s))
       (bufioReleased s) (defers s) (trace s)).
Proof.
  unfold borrow, bind, bufioPool_Get, pool_after_get.
  destruct (pool_choice env) as [i |]; [| reflexivity].
  destruct (nth_error (bufioPool s) i); reflexivity.
Qed.

Lemma NewReader_ready (conn : Conn) : ready (NewReader conn).
Proof.
  unfold ready, wf, NewReader, resetTo, Buffered, len, defaultBufSize. cbn.
  repeat split; try discriminate; lia.
Qed.

(** Every run of [handle]: it returns, the reader goes back to the pool
    reset, and the trace is that of the handshake, then of [dial], then
    of the relay, closed by the deferred calls. *)
Lemma handle_run (conn : Conn) (pool : list Reader) :
  exists addr err s2 s',
    handshake env cfg (atHandshake env conn pool) = (Ret (addr, err), s2) /\
    handle env cfg conn (initState pool) = (Ret tt, s') /\
    bufioPool s' = resetTo None :: pool_after_get env pool /\
    match err with
    | Some _ => trace s' = trace s2 ++ [ConnClose]
    | None =>
        exists o s3,
          dial env cfg addr conn s2 = (o, s3) /\
          match o with
          | Ret (_, Some _) => trace s' = trace s3 ++ [ConnClose]
          | Ret (_, None) =>
              trace s'
              = trace s3 ++ relay env (count_events isConnWrite (trace s3))
          | Panic m => trace s' = trace s3 ++ [ConnClose; LogPanic m]
          | OutOfFuel => False
          end
    end.
Proof.
  destruct (handshake_ready env cfg (atHandshake env conn pool) (NewReader conn)
              eq_refl (NewReader_ready conn))
    as (addr & err & s2 & evs & b2 & Hh & Hf2 & Hr2 & _).
  exists addr, err, s2.
  unfold handle, handle_body. unfold bind at 1. unfold defer at 1.
  unfold bind at 1. rewrite borrow_eq.
  unfold bind at 1. unfold set_bufioReleased at 1.
  unfold bind at 1. unfold defer at 1.
  unfold bind at 1. cbn [reader bufioPool bufioReleased defers trace initState].
  change (mkState (Some (resetTo (Some conn))) (pool_after_get env pool) false
            [DeferReleaseBufio; DeferCloseRecover] [])
    with (atHandshake env conn pool).
  rewrite Hh.
  destruct s2 as [r2 p2 br2 d2 t2].
  destruct Hf2 as (Hp & Hb & Hd & Ht & _).
  cbn [bufioPool bufioReleased defers trace reader atHandshake] in Hp, Hb, Hd, Ht, Hr2.
  subst r2 p2 br2 d2.
  destruct err as [e |].
  - eexists. split; [reflexivity |]. unfold ret.
    split; [reflexivity |]. cbn. split; reflexivity.
  - unfold bind at 1.
    destruct (dial env cfg addr conn _) as [o s3] eqn:Ed.
    pose proof (dial_run env cfg addr conn _ s3 o Ed) as (devs & Hf3 & Ho).
    destruct s3 as [r3 p3 br3 d3 t3].
    destruct Hf3 as (Hp & Hb & Hd & Ht3 & Hr3).
    cbn [bufioPool bufioReleased defers trace reader] in Hp, Hb, Hd, Ht3, Hr3.
    subst p3 br3 d3.
    destruct r3 as [b3 |]; [| exfalso; apply Hr3; [discriminate | reflexivity]].
    destruct o as [[ag [e |]] | m |].
    + eexists. split; [reflexivity |]. split; [reflexivity |]. cbn. split; [reflexivity |].
      exists (Ret (ag, Some e)). eexists. split; reflexivity.
    + destruct Ho as [Hag _]. destruct ag as [a |]; [| contradiction].
      unfold bind at 1. unfold defer at 1.
      unfold bind at 1. unfold set_bufioReleased at 1.
      unfold bind at 1. unfold reader_Reset, onReader at 1.
      cbn [reader bufioPool bufioReleased defers trace Reset].
      unfold bind at 1. unfold bufioPool_Put at 1.
      cbn [reader bufioPool bufioReleased defers trace].
      unfold bind at 1. rewrite conn_Write_eq. unfold relay.
      cbn [reader bufioPool bufioReleased defers trace extend].
      destruct (conn_write_answer env (count_events isConnWrite t3)) as [e |] eqn:Ew.
      * eexists. split; [reflexivity |]. split; [reflexivity |].
        cbn [run_defers run_deferred bufioPool bufioReleased defers trace reader
             negb bind agent_call emit ret extend].
        split; [reflexivity |].
        exists (Ret (Some a, None)). eexists. split; [reflexivity |].
        cbn [trace]. rewrite Ew, <- !app_assoc. reflexivity.
      * eexists. split; [reflexivity |]. split; [reflexivity |].
        cbn [run_defers run_deferred bufioPool bufioReleased defers trace reader
             negb bind agent_call emit ret extend].
        split; [reflexivity |].
        exists (Ret (Some a, None)). eexists. split; [reflexivity |].
        cbn [trace]. rewrite Ew, <- !app_assoc. reflexivity.
    + eexists. split; [reflexivity |]. split; [reflexivity |]. cbn. split; [reflexivity |].
      exists (Panic m). eexists. split; [reflexivity |].
      cbn. now rewrite <- !app_assoc.
    + contradiction.
Qed.

End Handle.

(* ================================================================== *)
(** * Binary frames that are refused *)

Lemma stream_NewReader (conn : Conn) :
  stream (NewReader conn) = concat (incoming conn).
Proof. reflexivity. Qed.

Lemma handle_binary_rejected (env : Env) (cfg : Config) (conn : Conn)
    (pool : list Reader) (tl c : bytes) :
  concat (incoming conn) = zero :: tl ->
  binary_verdict env cfg tl = Rejected c ->
  exists e s2 s',
    handshake env cfg (atHandshake env conn pool) = (Ret ([], Some e), s2) /\
    handle env cfg conn (initState pool) = (Ret tt, s') /\
    trace s' = [ConnWrite c; ConnClose].
Proof.
  intros Hst Hv.
  destruct (handle_run env cfg conn pool) as (addr & err & s2 & s' & Hh & Hrun & _ & Ht).
  destruct (handshake_ready env cfg (atHandshake env conn pool) (NewReader conn)
              eq_refl (NewReader_ready conn))
    as (addr' & err' & s2' & evs & b2 & Hh' & Hf & _ & _ & _ & _ & Hbin & _).
  rewrite Hh in Hh'. injection Hh' as <- <- <-.
  specialize (Hbin tl). rewrite stream_NewReader in Hbin.
  specialize (Hbin Hst). rewrite Hv in Hbin. destruct Hbin as (He & -> & ->).
  destruct err as [e |]; [| contradiction].
  exists e, s2, s'. split; [exact Hh |]. split; [exact Hrun |].
  destruct Hf as (_ & _ & _ & Ht2 & _). rewrite Ht, Ht2. reflexivity.
Qed.

(** C2: on a binary frame (first byte 0), when the length byte is missing
    or fewer than [n] ciphertext bytes arrive before the stream ends, the
    handler writes 400, and when the [n] bytes arrive but do not decrypt
    it writes 401; either way the handshake fails, the socket is closed
    and no dial is attempted. *)
Theorem binary_frame_errors (env : Env) (cfg : Config) (conn : Conn)
    (pool : list Reader) (tl : bytes)
    (Hbin : concat (incoming conn) = zero :: tl) :
  let failed_with (c : bytes) :=
    exists e s2 s',
      handshake env cfg (atHandshake env conn pool) = (Ret ([], Some e), s2) /\
      handle env cfg conn (initState pool) = (Ret tt, s') /\
      trace s' = [ConnWrite c; ConnClose] /\
      count_events isDial (trace s') = O in
  (tl = [] -> failed_with codeBadReq) /\
  (forall n ct,
     tl = n :: ct -> len ct < int_of_byte n -> failed_with codeBadReq) /\
  (forall n ct rest e,
     tl = n :: ct ++ rest -> len ct = int_of_byte n ->
     snd (Decrypt env (cfgSecret cfg) ct) = Some e ->
     failed_with codeBadAddr).
Proof.
  intros failed_with.
  assert (Hrej : forall c, binary_verdict env cfg tl = Rejected c -> failed_with c).
  { intros c Hv.
    destruct (handle_binary_rejected env cfg conn pool tl c Hbin Hv)
      as (e & s2 & s' & H1 & H2 & H3).
    exists e, s2, s'. repeat split; try assumption. now rewrite H3. }
  split; [| split].
  - intros ->. now apply Hrej.
  - intros n ct -> Hshort. apply Hrej. unfold binary_verdict.
    destruct (Nat.ltb_spec (length ct) (Z.to_nat (int_of_byte n))) as [_ | Hge];
      [reflexivity |].
    unfold len in Hshort. lia.
  - intros n ct rest e -> Hlen Hdec. apply Hrej. unfold binary_verdict.
    assert (Hk : Z.to_nat (int_of_byte n) = length ct) by (unfold len in Hlen; lia).
    rewrite Hk.
    destruct (Nat.ltb_spec (length (ct ++ rest)) (length ct)) as [Hlt | _].
    { rewrite length_app in Hlt. lia. }
    rewrite firstn_app, Nat.sub_diag, firstn_all. cbn [firstn]. rewrite app_nil_r.
    destruct (Decrypt env (cfgSecret cfg) ct) as [a [e' |]]; [reflexivity |].
    discriminate.
Qed.

Lemma binary_frame_errors_witness :
  (exists s',
     handle envOK (cfgOf 1) shortFrame (initState []) = (Ret tt, s') /\
     trace s' = [ConnWrite codeBadReq; ConnClose]) /\
  (exists s',
     handle envOK (cfgOf 1) emptyCipherFrame (initState []) = (Ret tt, s') /\
     trace s' = [ConnWrite codeBadAddr; ConnClose]).
Proof.
  split.
  - destruct (binary_frame_errors envOK (cfgOf 1) shortFrame [] _ eq_refl)
      as (_ & H & _).
    destruct (H "003"%char (bytes_of_string "a") eq_refl ltac:(vm_compute; reflexivity))
      as (e & s2 & s' & _ & H2 & H3 & _).
    exists s'. split; assumption.
  - destruct (binary_frame_errors envOK (cfgOf 1) emptyCipherFrame [] _ eq_refl)
      as (_ & _ & H).
    destruct (H zero [] (bytes_of_string "pipelined")
                (OtherError "aes256cbc: bad ciphertext") eq_refl eq_refl eq_refl)
      as (e & s2 & s' & _ & H2 & H3 & _).
    exists s'. split; assumption.
Defined.

(* ================================================================== *)
(** * The two framings decode alike *)

(** C6: let [A] be the plaintext of the ciphertext [ct] under the secret,
    and let the cipher's [DecryptBase64] be [Decrypt] after base64
    decoding.  Then the binary frame that carries [ct] and the text frame
    that carries its base64 text [enc] and a newline make [handshake]
    return the same address [A], however the bytes are cut into
    segments; what follows the frame stays in the reader. *)
Theorem codec_equivalence (env : Env) (cfg : Config)
    (base64 : bytes -> option bytes)
    (A ct enc restB restT : bytes) (connB connT : Conn)
    (poolB poolT : list Reader)
    (Hcipher : forall line raw,
        base64 line = Some raw ->
        DecryptBase64 env (cfgSecret cfg) line = Decrypt env (cfgSecret cfg) raw)
    (Henc : base64 (enc ++ [newline]) = Some ct)
    (HA : Decrypt env (cfgSecret cfg) ct = (A, None))
    (Hct : len ct <= 255)
    (Htext : Forall (fun c => c <> newline /\ c <> zero) enc)
    (Hline : len enc + 1 <= defaultBufSize)
    (HB : concat (incoming connB) = zero :: byte_of_int (len ct) :: ct ++ restB)
    (HT : concat (incoming connT) = enc ++ newline :: restT) :
  exists sB sT bB bT,
    handshake env cfg (atHandshake env connB poolB) = (Ret (A, None), sB) /\
    handshake env cfg (atHandshake env connT poolT) = (Ret (A, None), sT) /\
    reader sB = Some bB /\ stream bB = restB /\
    reader sT = Some bT /\ stream bT = restT.
Proof.
  destruct (handshake_ready env cfg (atHandshake env connB poolB) (NewReader connB)
              eq_refl (NewReader_ready connB))
    as (aB & eB & sB & evB & bB & HhB & _ & HrB & _ & _ & _ & HbinB & _).
  destruct (handshake_ready env cfg (atHandshake env connT poolT) (NewReader connT)
              eq_refl (NewReader_ready connT))
    as (aT & eT & sT & evT & bT & HhT & _ & HrT & _ & _ & _ & _ & HtxtT).
  specialize (HbinB _ HB).
  assert (HvB : binary_verdict env cfg (byte_of_int (len ct) :: ct ++ restB)
                = Routed A restB).
  { unfold binary_verdict. rewrite int_of_byte_of_int.
    assert (H0 : 0 <= len ct) by (unfold len; lia).
    rewrite Z.mod_small by lia. unfold len. rewrite Nat2Z.id.
    destruct (Nat.ltb_spec (length (ct ++ restB)) (length ct)) as [Hlt | _].
    { rewrite length_app in Hlt. lia. }
    rewrite firstn_app, Nat.sub_diag, firstn_all. cbn [firstn]. rewrite app_nil_r.
    rewrite HA.
    rewrite skipn_app, Nat.sub_diag, skipn_all. reflexivity. }
  rewrite HvB in HbinB. destruct HbinB as (-> & -> & _ & HsB).
  assert (Hnot : ~ In newline enc).
  { intros Hin. rewrite Forall_forall in Htext. now destruct (Htext _ Hin). }
  assert (Hhd : hd newline enc <> zero).
  { destruct enc as [| x enc']; [discriminate |].
    inversion Htext as [| ? ? [_ Hx] _]. exact Hx. }
  specialize (HtxtT enc restT HT Hhd Hnot Hline).
  pose proof (Hcipher _ _ Henc) as Hd. rewrite HA in Hd.
  unfold text_verdict in HtxtT.
  destruct (DecryptBase64 _ _ _) as [a' e'] eqn:Ed in HtxtT.
  assert (Heq : (a', e') = (A, None)) by exact (eq_trans (eq_sym Ed) Hd).
  injection Heq as -> ->.
  destruct HtxtT as (-> & -> & _ & HsT).
  exists sB, sT, bB, bT. repeat split; assumption.
Qed.

Lemma codec_equivalence_witness :
  exists sB sT,
    handshake envOK (cfgOf 1) (atHandshake envOK binaryABC [])
    = (Ret (bytes_of_string "CBA", None), sB) /\
    handshake envOK (cfgOf 1) (atHandshake envOK textABC [])
    = (Ret (bytes_of_string "CBA", None), sT).
Proof.
  assert (Hcipher : forall line raw,
            base64_decode line = Some raw ->
            DecryptBase64 envOK (cfgSecret (cfgOf 1)) line
            = Decrypt envOK (cfgSecret (cfgOf 1)) raw).
  { intros line raw H. cbn [DecryptBase64 Decrypt envOK].
    unfold sampleDecryptBase64. now rewrite H. }
  assert (Htext : Forall (fun c => c <> newline /\ c <> zero) (bytes_of_string "QUJD")).
  { repeat constructor; discriminate. }
  destruct (codec_equivalence envOK (cfgOf 1) base64_decode
              (bytes_of_string "CBA") (bytes_of_string "ABC") (bytes_of_string "QUJD")
              (bytes_of_string "hello") (bytes_of_string "hello")
              binaryABC textABC [] []
              Hcipher eq_refl eq_refl ltac:(vm_compute; discriminate) Htext
              ltac:(vm_compute; discriminate) eq_refl eq_refl)
    as (sB & sT & _ & _ & HB & HT & _).
  exists sB, sT. split; assumption.
Defined.

(* ================================================================== *)
(** * Status tokens *)

Lemma quiet_no_token (evs : list event) :
  Forall (fun e => quiet e = true) evs ->
  tokens evs = [] /\ ~ In ConnClose evs.
Proof.
  induction 1 as [| e evs He _ [IH1 IH2]]; [split; [reflexivity | intros []] |].
  destruct e; cbn in He; try discriminate; cbn [tokens flat_map app];
    (split; [exact IH1 | intros [Hc | Hc]; [discriminate | now apply IH2]]).
Qed.

(** C3, as amended: [handle] always returns and never writes two tokens.
    With [cfgDialRetry >= 1] (and a remote address whose length plus one
    is not a multiple of 256) every run writes exactly one token, one of
    the five, and closes the client socket after it.  This includes the
    run in which the first read fails before any byte arrived: 400 is
    written there too. *)
Theorem one_status_token (env : Env) (cfg : Config) (conn : Conn)
    (pool : list Reader) :
  let run := handle env cfg conn (initState pool) in
  fst run = Ret tt /\
  (length (tokens (trace (snd run))) <= 1)%nat /\
  (1 <= cfgDialRetry cfg -> (len (remoteAddr conn) + 1) mod 256 <> 0 ->
   exists pre c post,
     trace (snd run) = pre ++ ConnWrite c :: post ++ [ConnClose] /\
     tokens pre = [] /\ tokens post = [] /\
     ~ In ConnClose pre /\ ~ In ConnClose post /\
     In c statusTokens) /\
  (concat (incoming conn) = [] ->
   trace (snd run) = [ConnWrite codeBadReq; ConnClose]).
Proof.
  intros run. subst run.
  destruct (handle_run env cfg conn pool) as (addr & err & s2 & s' & Hh & Hrun & _ & Ht).
  destruct (handshake_ready env cfg (atHandshake env conn pool) (NewReader conn)
              eq_refl (NewReader_ready conn))
    as (addr' & err' & s2' & evs & b2 & Hh' & Hf & Hr2 & _ & Htok & Heof & _).
  rewrite Hh in Hh'. injection Hh' as <- <- <-.
  destruct Hf as (_ & _ & _ & Ht2 & _). cbn [trace atHandshake app] in Ht2.
  rewrite Hrun. cbn [fst snd]. split; [reflexivity |].
  destruct err as [e |].
  - (* the handshake failed *)
    rewrite Ht, Ht2. cbn [token_shape] in Htok.
    split; [destruct Htok as [-> | ->]; cbn; lia |]. split.
    + intros _ _. exists [].
      destruct Htok as [-> | ->]; eexists; exists [];
        (split; [reflexivity |]); cbn; unfold statusTokens; intuition.
    + intros Hempty. rewrite stream_NewReader in Heof.
      destruct (Heof Hempty) as [_ ->]. reflexivity.
  - cbn [token_shape] in Htok. rewrite Htok in Ht2.
    destruct Ht as (o & s3 & Hd & Ho).
    pose proof (dial_run env cfg addr conn s2 s3 o Hd) as (devs & Hf3 & Hshape).
    destruct Hf3 as (_ & _ & _ & Ht3 & _). rewrite Ht2 in Ht3. cbn [app] in Ht3.
    split; [| split].
    + destruct o as [[ag [e |]] | m |]; [| | | contradiction]; rewrite Ho, Ht3.
      * destruct Hshape as (_ & pre & c & -> & Hq & _).
        rewrite !tokens_app, (proj1 (quiet_no_token pre Hq)). cbn. lia.
      * destruct Hshape as [_ Hq]. unfold relay.
        rewrite tokens_app, (proj1 (quiet_no_token devs Hq)).
        destruct (conn_write_answer env _); cbn; lia.
      * destruct Hshape as [Hq _].
        rewrite tokens_app, (proj1 (quiet_no_token devs Hq)). cbn. lia.
    + intros Hretry Haddr.
      destruct o as [[ag [e |]] | m |].
      * destruct Hshape as (_ & pre & c & -> & Hq & Hc).
        exists pre, c, []. rewrite Ho, Ht3.
        destruct (quiet_no_token pre Hq) as [Hp1 Hp2].
        split; [now rewrite <- app_assoc |].
        repeat split; try assumption; try (intros []).
        unfold statusTokens. destruct Hc as [-> | ->]; cbn; intuition.
      * destruct Hshape as [_ Hq].
        destruct (quiet_no_token devs Hq) as [Hp1 Hp2].
        rewrite Ho, Ht3. unfold relay.
        destruct (conn_write_answer env _).
        -- exists devs, codeOK, [AgentClose].
           repeat split; try assumption; try reflexivity.
           ++ intros [H | []]. discriminate.
           ++ now left.
        -- exists devs, codeOK,
             [Go (SafeCopy AgentSock ClientSock); IoCopy ClientSock AgentSock;
              AgentClose].
           repeat split; try assumption; try reflexivity.
           ++ intros [H | [H | [H | []]]]; discriminate.
           ++ now left.
      * exfalso. destruct Hshape as [_ [Hr | [Hr | [m' Hp]]]].
        -- lia.
        -- congruence.
        -- rewrite addrPreamble_wraps in Hp by assumption. discriminate.
      * contradiction.
    + intros Hempty. exfalso. rewrite stream_NewReader in Heof.
      destruct (Heof Hempty) as [Hne _]. now apply Hne.
Qed.

Lemma one_status_token_witness :
  1 <= cfgDialRetry (cfgOf 2) /\
  (len (remoteAddr textABC) + 1) mod 256 <> 0 /\
  (exists pre c post,
     trace (snd (handle envTimeout (cfgOf 2) textABC (initState [])))
     = pre ++ ConnWrite c :: post ++ [ConnClose] /\
     tokens pre = [] /\ tokens post = [] /\
     ~ In ConnClose pre /\ ~ In ConnClose post /\ In c statusTokens) /\
  trace (snd (handle envTimeout (cfgOf 2) (clientOf []) (initState [])))
  = [ConnWrite codeBadReq; ConnClose].
Proof.
  assert (H1 : 1 <= cfgDialRetry (cfgOf 2)) by (cbn; lia).
  assert (H2 : (len (remoteAddr textABC) + 1) mod 256 <> 0)
    by (vm_compute; discriminate).
  split; [exact H1 |]. split; [exact H2 |]. split.
  - exact (proj1 (proj2 (proj2 (one_status_token envTimeout (cfgOf 2) textABC [])))
             H1 H2).
  - exact (proj2 (proj2 (proj2 (one_status_token envTimeout (cfgOf 2) (clientOf []) [])))
             eq_refl).
Defined.

(** The client connects and closes at once: nothing was read, and the
    handler still writes a token before it closes the socket. *)
Lemma token_written_before_any_byte :
  concat (incoming (clientOf [])) = [] /\
  let run := handle envOK (cfgOf 1) (clientOf []) (initState []) in
  fst run = Ret tt /\
  trace (snd run) = [ConnWrite codeBadReq; ConnClose] /\
  tokens (trace (snd run)) <> [].
Proof. vm_compute. repeat split. discriminate. Qed.

(* ================================================================== *)
(** * The relay *)

Lemma quiet_not_relay (evs : list event) :
  Forall (fun e => quiet e = true) evs ->
  Forall (fun e => isRelay e = false) evs /\ count_events isConnWrite evs = O.
Proof.
  induction 1 as [| e evs He _ [IH1 IH2]]; [split; [constructor | reflexivity] |].
  unfold count_events in *.
  destruct e; cbn in He; try discriminate; cbn [filter isConnWrite];
    (split; [constructor; [reflexivity | exact IH1] | exact IH2]).
Qed.

Lemma not_relay_in (evs : list event) (e : event) :
  Forall (fun e => isRelay e = false) evs -> In e evs -> isRelay e = false.
Proof. intros H Hin. rewrite Forall_forall in H. now apply H. Qed.

(** The traces of [handle], by the way the run ends: with the relay,
    with an error token, or with a recovered panic. *)
Lemma handle_traces (env : Env) (cfg : Config) (conn : Conn) (pool : list Reader) :
  let t := trace (snd (handle env cfg conn (initState pool))) in
  (exists pre, Forall (fun e => quiet e = true) pre /\
     t = pre ++ relay env 0) \/
  (exists pre c, Forall (fun e => quiet e = true) pre /\
     t = pre ++ [ConnWrite c; ConnClose] /\ c <> codeOK) \/
  (exists pre m, Forall (fun e => quiet e = true) pre /\
     t = pre ++ [ConnClose; LogPanic m]).
Proof.
  intros t. subst t.
  destruct (handle_run env cfg conn pool) as (addr & err & s2 & s' & Hh & Hrun & _ & Ht).
  destruct (handshake_ready env cfg (atHandshake env conn pool) (NewReader conn)
              eq_refl (NewReader_ready conn))
    as (addr' & err' & s2' & evs & b2 & Hh' & Hf & _ & _ & Htok & _).
  rewrite Hh in Hh'. injection Hh' as <- <- <-.
  destruct Hf as (_ & _ & _ & Ht2 & _). cbn [trace atHandshake app] in Ht2.
  rewrite Hrun. cbn [snd].
  destruct err as [e |].
  - right. left. rewrite Ht, Ht2. exists [].
    destruct Htok as [-> | ->]; eexists;
      (split; [constructor |]); (split; [reflexivity | discriminate]).
  - cbn [token_shape] in Htok. rewrite Htok in Ht2.
    destruct Ht as (o & s3 & Hd & Ho).
    pose proof (dial_run env cfg addr conn s2 s3 o Hd) as (devs & Hf3 & Hshape).
    destruct Hf3 as (_ & _ & _ & Ht3 & _). rewrite Ht2 in Ht3. cbn [app] in Ht3.
    destruct o as [[ag [e |]] | m |]; [| | | contradiction]; rewrite Ho, Ht3.
    + right. left. destruct Hshape as (_ & pre & c & -> & Hq & Hc).
      exists pre, c. split; [exact Hq |].
      split; [now rewrite <- app_assoc |].
      destruct Hc as [-> | ->]; discriminate.
    + left. destruct Hshape as [_ Hq]. exists devs. split; [exact Hq |].
      now rewrite (proj2 (quiet_not_relay devs Hq)).
    + right. right. destruct Hshape as [Hq _]. exists devs, m. now split.
Qed.

(** C4, as amended: in the relay of every bootstrapped connection the
    copy started as a goroutine is [safeCopy(agent, conn)], which reads
    from the client and writes to the backend, and the copy the handler
    runs itself is [io.Copy(conn, agent)], which reads from the backend
    and writes to the client; both follow the 200 when its write
    succeeds. *)
Theorem relay_directions (env : Env) (cfg : Config) (conn : Conn)
    (pool : list Reader) :
  let t := trace (snd (handle env cfg conn (initState pool))) in
  (forall task, In (Go task) t ->
     task = SafeCopy AgentSock ClientSock /\
     task_copies task = [Some ClientToBackend]) /\
  (forall dst src, In (IoCopy dst src) t ->
     direction_of dst src = Some BackendToClient) /\
  (In (ConnWrite codeOK) t -> conn_write_answer env 0 = None ->
   exists pre,
     t = pre ++ [ConnWrite codeOK; Go (SafeCopy AgentSock ClientSock);
                 IoCopy ClientSock AgentSock; AgentClose; ConnClose]).
Proof.
  intros t. subst t.
  destruct (handle_traces env cfg conn pool)
    as [(pre & Hq & ->) | [(pre & c & Hq & -> & Hc) | (pre & m & Hq & ->)]];
    pose proof (proj1 (quiet_not_relay pre Hq)) as Hnr.
  - unfold relay. split; [| split].
    + intros task Hin. apply in_app_or in Hin. destruct Hin as [Hin | Hin].
      { apply (not_relay_in _ _ Hnr) in Hin. discriminate. }
      destruct (conn_write_answer env 0); cbn in Hin.
      * destruct Hin as [H | [H | [H | []]]]; discriminate.
      * destruct Hin as [H | [H | [H | [H | [H | []]]]]]; try discriminate.
        injection H as <-. split; reflexivity.
    + intros dst src Hin. apply in_app_or in Hin. destruct Hin as [Hin | Hin].
      { apply (not_relay_in _ _ Hnr) in Hin. discriminate. }
      destruct (conn_write_answer env 0); cbn in Hin.
      * destruct Hin as [H | [H | [H | []]]]; discriminate.
      * destruct Hin as [H | [H | [H | [H | [H | []]]]]]; try discriminate.
        injection H as <- <-. reflexivity.
    + intros _ ->. exists pre. reflexivity.
  - split; [| split].
    + intros task Hin. apply in_app_or in Hin. destruct Hin as [Hin | Hin].
      { apply (not_relay_in _ _ Hnr) in Hin. discriminate. }
      destruct Hin as [H | [H | []]]; discriminate.
    + intros dst src Hin. apply in_app_or in Hin. destruct Hin as [Hin | Hin].
      { apply (not_relay_in _ _ Hnr) in Hin. discriminate. }
      destruct Hin as [H | [H | []]]; discriminate.
    + intros Hin _. exfalso. apply in_app_or in Hin. destruct Hin as [Hin | Hin].
      * rewrite Forall_forall in Hq. apply Hq in Hin. discriminate.
      * destruct Hin as [H | [H | []]]; [| discriminate].
        injection H as ->. now apply Hc.
  - split; [| split].
    + intros task Hin. apply in_app_or in Hin. destruct Hin as [Hin | Hin].
      { apply (not_relay_in _ _ Hnr) in Hin. discriminate. }
      destruct Hin as [H | [H | []]]; discriminate.
    + intros dst src Hin. apply in_app_or in Hin. destruct Hin as [Hin | Hin].
      { apply (not_relay_in _ _ Hnr) in Hin. discriminate. }
      destruct Hin as [H | [H | []]]; discriminate.
    + intros Hin _. exfalso. apply in_app_or in Hin. destruct Hin as [Hin | Hin].
      * rewrite Forall_forall in Hq. apply Hq in Hin. discriminate.
      * destruct Hin as [H | [H | []]]; discriminate.
Qed.

Lemma relay_directions_witness :
  In (ConnWrite codeOK) (trace (snd (handle envOK (cfgOf 1) textABC (initState [])))) /\
  conn_write_answer envOK 0 = None /\
  exists pre,
    trace (snd (handle envOK (cfgOf 1) textABC (initState [])))
    = pre ++ [ConnWrite codeOK; Go (SafeCopy AgentSock ClientSock);
              IoCopy ClientSock AgentSock; AgentClose; ConnClose].
Proof.
  assert (H1 : In (ConnWrite codeOK)
                 (trace (snd (handle envOK (cfgOf 1) textABC (initState [])))))
    by (vm_compute; tauto).
  split; [exact H1 |]. split; [reflexivity |].
  exact (proj2 (proj2 (relay_directions envOK (cfgOf 1) textABC [])) H1 eq_refl).
Defined.

(** A bootstrapped connection: the goroutine copies from the client to
    the backend, not from the backend to the client, and the handler's
    own copy runs from the backend to the client. *)
Lemma background_copy_reads_client :
  let t := trace (snd (handle envOK (cfgOf 1) textABC (initState []))) in
  In (Go (SafeCopy AgentSock ClientSock)) t /\
  task_copies (SafeCopy AgentSock ClientSock) = [Some ClientToBackend] /\
  task_copies (SafeCopy AgentSock ClientSock) <> [Some BackendToClient] /\
  In (IoCopy ClientSock AgentSock) t /\
  direction_of ClientSock AgentSock = Some BackendToClient /\
  direction_of ClientSock AgentSock <> Some ClientToBackend.
Proof. vm_compute. repeat split; try tauto; discriminate. Qed.

(* ================================================================== *)
(** * The reader pool *)

Lemma Forall_remove_nth {A : Type} (P : A -> Prop) (i : nat) (l : list A) :
  Forall P l -> Forall P (remove_nth i l).
Proof.
  intros H. revert i.
  induction H as [| x l Hx Hl IH]; intros i; [destruct i; constructor |].
  destruct i; cbn; [assumption | constructor; [exact Hx | apply IH]].
Qed.

Lemma Forall_pool_after_get (env : Env) (P : Reader -> Prop) (pool : list Reader) :
  Forall P pool -> Forall P (pool_after_get env pool).
Proof.
  intros H. unfold pool_after_get.
  destruct (pool_choice env) as [i |]; [| exact H].
  destruct (nth_error pool i); [now apply Forall_remove_nth | exact H].
Qed.

Lemma pool_blind_ret {A : Type} (a : A) : pool_blind (ret a).
Proof. intros s t H. now split. Qed.

Lemma pool_blind_panic {A : Type} (msg : string) : pool_blind (@panic A msg).
Proof. intros s t H. now split. Qed.

Lemma pool_blind_lift {A : Type} (o : outcome A) : pool_blind (lift o).
Proof. intros s t H. now split. Qed.

Lemma pool_blind_bind {A B : Type} (m : M A) (f : A -> M B) :
  pool_blind m -> (forall a, pool_blind (f a)) -> pool_blind (bind m f).
Proof.
  intros Hm Hf s t H. unfold bind.
  destruct (Hm s t H) as [Ho Hs].
  destruct (m s) as [o1 s1], (m t) as [o2 t1]. cbn [fst snd] in Ho, Hs. subst o2.
  destruct o1 as [a | msg |]; [now apply Hf | now split | now split].
Qed.

Lemma pool_blind_emit (e : event) : pool_blind (emit e).
Proof.
  intros s t (H1 & H2 & H3 & H4). unfold emit, same_but_pool. cbn.
  rewrite H1, H2, H3, H4. repeat split.
Qed.

Lemma pool_blind_defer (d : deferred) : pool_blind (defer d).
Proof.
  intros s t (H1 & H2 & H3 & H4). unfold defer, same_but_pool. cbn.
  rewrite H1, H2, H3, H4. repeat split.
Qed.

Lemma pool_blind_set_bufioReleased (b : bool) : pool_blind (set_bufioReleased b).
Proof.
  intros s t (H1 & H2 & H3 & H4). unfold set_bufioReleased, same_but_pool. cbn.
  rewrite H1, H3, H4. repeat split.
Qed.

Lemma pool_blind_onReader {A : Type} (f : Reader -> outcome (A * Reader)) :
  pool_blind (onReader f).
Proof.
  intros s t (H1 & H2 & H3 & H4). unfold onReader, same_but_pool. rewrite H1.
  destruct (reader t) as [b |] eqn:Et; [| cbn; repeat split; congruence].
  destruct (f b) as [[a b'] | msg |]; cbn; repeat split; congruence.
Qed.

Lemma pool_blind_Put : pool_blind bufioPool_Put.
Proof.
  intros s t (H1 & H2 & H3 & H4). unfold bufioPool_Put, same_but_pool. rewrite H1.
  destruct (reader t) eqn:Et; cbn; repeat split; congruence.
Qed.

Lemma pool_blind_conn_Write (env : Env) (p : bytes) : pool_blind (conn_Write env p).
Proof.
  intros s t (H1 & H2 & H3 & H4). unfold conn_Write, same_but_pool. cbn.
  rewrite H1, H2, H3, H4. repeat split.
Qed.

Lemma pool_blind_net_DialTimeout (env : Env) (addr : bytes) (d : Z) :
  pool_blind (net_DialTimeout env addr d).
Proof.
  intros s t (H1 & H2 & H3 & H4). rewrite !net_DialTimeout_eq.
  unfold same_but_pool. cbn. rewrite H1, H2, H3, H4. repeat split.
Qed.

Lemma pool_blind_agent_call (env : Env) (agent : option AgentConn) (e : event) :
  pool_blind (agent_call env agent e).
Proof.
  intros s t (H1 & H2 & H3 & H4). unfold agent_call, same_but_pool.
  destruct agent; cbn; repeat split; congruence.
Qed.

Lemma pool_blind_borrow (env : Env) (conn : Conn) : pool_blind (borrow env conn).
Proof.
  intros s t (H1 & H2 & H3 & H4). rewrite !borrow_eq.
  unfold same_but_pool. cbn. rewrite H2, H3, H4. repeat split.
Qed.

(** One step of a proof that a computation is blind to the pool. *)
Ltac blind_step :=
  match goal with
  | |- pool_blind (bind _ _) => apply pool_blind_bind; [| intros ?]
  | |- pool_blind (ret _) => apply pool_blind_ret
  | |- pool_blind (panic _) => apply pool_blind_panic
  | |- pool_blind (lift _) => apply pool_blind_lift
  | |- pool_blind (emit _) => apply pool_blind_emit
  | |- pool_blind (go _) => apply pool_blind_emit
  | |- pool_blind (io_Copy _ _) => apply pool_blind_emit
  | |- pool_blind (defer _) => apply pool_blind_defer
  | |- pool_blind (set_bufioReleased _) => apply pool_blind_set_bufioReleased
  | |- pool_blind (onReader _) => apply pool_blind_onReader
  | |- pool_blind (reader_Reset _) => apply pool_blind_onReader
  | |- pool_blind bufioPool_Put => apply pool_blind_Put
  | |- pool_blind (conn_Write _ _) => apply pool_blind_conn_Write
  | |- pool_blind (net_DialTimeout _ _ _) => apply pool_blind_net_DialTimeout
  | |- pool_blind (agent_call _ _ _) => apply pool_blind_agent_call
  | |- pool_blind (borrow _ _) => apply pool_blind_borrow
  | |- pool_blind (match ?x with _ => _ end) => destruct x
  end.

Section PoolBlind.

Variable env : Env.
Variable cfg : Config.

Lemma pool_blind_handshake : pool_blind (handshake env cfg).
Proof.
  unfold handshake, handshakeBinary, handshakeText. repeat blind_step.
Qed.

Lemma pool_blind_agentInit (agent : option AgentConn) (conn : Conn) :
  pool_blind (agentInit env cfg agent conn).
Proof. unfold agentInit. repeat blind_step. Qed.

Lemma pool_blind_dial_loop (addr : bytes) (fuel : nat) :
  forall (i : Z) (agent : option AgentConn) (err : option error),
    pool_blind (dial_loop env cfg fuel i addr agent err).
Proof.
  induction fuel as [| fuel IH]; intros i agent err; cbn [dial_loop].
  - destruct (i <? cfgDialRetry cfg); [intros s t H; now split | apply pool_blind_ret].
  - destruct (i <? cfgDialRetry cfg); [| apply pool_blind_ret].
    repeat blind_step. apply IH.
Qed.

Lemma pool_blind_dial (addr : bytes) (conn : Conn) :
  pool_blind (dial env cfg addr conn).
Proof.
  unfold dial. apply pool_blind_bind; [apply pool_blind_dial_loop | intros x].
  repeat blind_step; apply pool_blind_agentInit.
Qed.

Lemma pool_blind_handle_body (conn : Conn) : pool_blind (handle_body env cfg conn).
Proof.
  unfold handle_body.
  repeat first [apply pool_blind_handshake | apply pool_blind_dial | blind_step].
Qed.

Lemma pool_blind_run_deferred (d : deferred) : pool_blind (run_deferred env d).
Proof.
  destruct d; cbn [run_deferred].
  - apply pool_blind_emit.
  - assert (Hb : pool_blind (reader_Reset None ;; bufioPool_Put))
      by (repeat blind_step).
    intros s t H. pose proof H as (_ & H2 & _). rewrite H2.
    destruct (negb (bufioReleased t)); [now apply Hb | now split].
  - repeat blind_step.
Qed.

Lemma run_defers_blind (ds : list deferred) :
  forall (o : outcome unit) (s t : State),
    same_but_pool s t ->
    fst (run_defers env ds o s) = fst (run_defers env ds o t) /\
    same_but_pool (snd (run_defers env ds o s)) (snd (run_defers env ds o t)).
Proof.
  induction ds as [| d ds IH]; intros o s t H; [now split |].
  cbn [run_defers].
  destruct (pool_blind_run_deferred d s t H) as [Ho Hs].
  destruct (run_deferred env d s) as [o1 s1], (run_deferred env d t) as [o2 t1].
  cbn [fst snd] in Ho, Hs. subst o2.
  destruct d;
    destruct (match o1 with Ret _ => o | _ => o1 end);
    try (now apply IH);
    apply IH; now apply pool_blind_emit.
Qed.

(** [handle] ends alike and leaves the same trace whatever the pool
    holds. *)
Lemma handle_pool_blind (conn : Conn) (pool pool' : list Reader) :
  fst (handle env cfg conn (initState pool)) = fst (handle env cfg conn (initState pool')) /\
  trace (snd (handle env cfg conn (initState pool)))
  = trace (snd (handle env cfg conn (initState pool'))).
Proof.
  unfold handle.
  assert (H0 : same_but_pool (initState pool) (initState pool')) by (repeat split).
  destruct (pool_blind_handle_body conn _ _ H0) as [Ho Hs].
  destruct (handle_body env cfg conn (initState pool)) as [o1 s1].
  destruct (handle_body env cfg conn (initState pool')) as [o2 t1].
  cbn [fst snd] in Ho, Hs. subst o2.
  destruct Hs as (H1 & H2 & H3 & H4). rewrite H3.
  destruct (run_defers_blind (defers t1) o1
              (mkState (reader s1) (bufioPool s1) (bufioReleased s1) [] (trace s1))
              (mkState (reader t1) (bufioPool t1) (bufioReleased t1) [] (trace t1)))
    as [Hf (_ & _ & _ & Ht)].
  { repeat split; assumption. }
  split; assumption.
Qed.

End PoolBlind.

(** C7: whatever the pool holds, the reader a handler works with after
    borrowing is bound to its own connection and has nothing buffered, so
    that it yields the bytes of this connection only; on every path
    through [handle], the deferred one and the explicit one, the reader
    is put back once and reset, so that a pool of clean readers stays a
    pool of clean readers; and a run of [handle] ends alike and leaves
    the same trace whatever the pool held. *)
Theorem pooled_reader_clean (env : Env) (cfg : Config) (conn : Conn)
    (pool : list Reader) :
  (forall s, exists s1,
     borrow env conn s = (Ret tt, s1) /\
     reader s1 = Some (NewReader conn) /\
     Buffered (NewReader conn) = 0 /\
     rd (NewReader conn) = Some conn /\
     stream (NewReader conn) = concat (incoming conn)) /\
  (let s' := snd (handle env cfg conn (initState pool)) in
   bufioPool s' = resetTo None :: pool_after_get env pool /\
   clean (resetTo None) /\
   Buffered (resetTo None) = 0 /\
   (Forall clean pool -> Forall clean (bufioPool s'))) /\
  (forall pool',
     fst (handle env cfg conn (initState pool))
     = fst (handle env cfg conn (initState pool')) /\
     trace (snd (handle env cfg conn (initState pool)))
     = trace (snd (handle env cfg conn (initState pool')))).
Proof.
  split; [| split].
  - intros s. eexists. split; [apply borrow_eq |]. repeat split.
  - destruct (handle_run env cfg conn pool) as (addr & err & s2 & s' & _ & Hrun & Hp & _).
    rewrite Hrun. cbn [snd]. rewrite Hp.
    split; [reflexivity |]. split; [repeat split |]. split; [reflexivity |].
    intros Hclean. constructor; [repeat split |].
    now apply Forall_pool_after_get.
  - intros pool'. apply handle_pool_blind.
Qed.

Lemma pooled_reader_clean_witness :
  Forall clean [resetTo None] /\
  Forall clean
    (bufioPool (snd (handle envPooled (cfgOf 1) textABC (initState [resetTo None])))).
Proof.
  assert (H : Forall clean [resetTo None]) by (repeat constructor).
  split; [exact H |].
  exact (proj2 (proj2 (proj2 (proj1 (proj2
           (pooled_reader_clean envPooled (cfgOf 1) textABC [resetTo None]))))) H).
Defined.

(** A reader left in the pool with bytes of another connection in its
    window: the handler that borrows it resets it first, and its run is
    the run on a new reader. *)
Example stale_reader_is_reset :
  let stale := mkReader 3 (bytes_of_string "stale") (Some binaryABC) None None in
  trace (snd (handle envPooled (cfgOf 1) textABC (initState [stale])))
  = trace (snd (handle envOK (cfgOf 1) textABC (initState []))) /\
  bufioPool (snd (handle envPooled (cfgOf 1) textABC (initState [stale])))
  = [resetTo None].
Proof. vm_compute. split; reflexivity. Qed.

(* ================================================================== *)
(** * What the backend is sent first *)

Lemma dials_send_nothing (evs : list event) :
  Forall (fun e => isDial e = true) evs ->
  agent_received evs = [] /\ count_events isConnWrite evs = O.
Proof.
  induction 1 as [| e evs He _ [IH1 IH2]]; [split; reflexivity |].
  unfold count_events in *. destruct e; cbn in *; try discriminate; auto.
Qed.

Lemma relay_sends_nothing (env : Env) (k : nat) : agent_received (relay env k) = [].
Proof. unfold relay. now destruct (conn_write_answer env k). Qed.

Lemma agent_received_app (a b : list event) :
  agent_received (a ++ b) = agent_received a ++ agent_received b.
Proof. unfold agent_received. apply flat_map_app. Qed.

(** C5, as amended: for a client whose remote address is at most 254
    bytes long, a successful bootstrap has sent the backend exactly one
    byte holding the length of the address, then the address, then every
    byte the reader still held buffered behind the handshake frame, in
    this order and with nothing in between; in a run of [handle] that
    reaches the 200 these are all the bytes the backend is sent before the
    relay starts. *)
Theorem bootstrap_bytes (env : Env) (cfg : Config) (conn : Conn)
    (Hlen : len (remoteAddr conn) <= 254) :
  let preamble := byte_of_int (len (remoteAddr conn)) :: remoteAddr conn in
  let bootstrap (leftover : bytes) :=
    [AgentSetWriteDeadline (Some (cfgDialTimeout cfg)); AgentWrite preamble;
     AgentWrite leftover; AgentSetWriteDeadline None] in
  int_of_byte (byte_of_int (len (remoteAddr conn))) = len (remoteAddr conn) /\
  (forall agent s s',
     agentInit env cfg agent conn s = (Ret None, s') ->
     exists b,
       reader s = Some b /\
       trace s' = trace s ++ bootstrap (window b) /\
       agent_received (trace s') = agent_received (trace s) ++ preamble ++ window b) /\
  (forall pool,
     In (ConnWrite codeOK) (trace (snd (handle env cfg conn (initState pool)))) ->
     exists addr s2 b2 dials,
       handshake env cfg (atHandshake env conn pool) = (Ret (addr, None), s2) /\
       reader s2 = Some b2 /\
       Forall (fun e => isDial e = true) dials /\
       trace (snd (handle env cfg conn (initState pool)))
       = dials ++ bootstrap (window b2) ++ relay env 0 /\
       agent_received (trace (snd (handle env cfg conn (initState pool))))
       = preamble ++ window b2).
Proof.
  intros preamble bootstrap.
  destruct (addrPreamble_exact (remoteAddr conn) Hlen) as [Hp Hi].
  split; [exact Hi |]. split.
  - intros agent s s' Hok. destruct agent as [a |].
    2: { destruct (agentInit_nil env cfg conn s) as [msg Hn]. congruence. }
    apply agentInit_run in Hok.
    destruct Hok as (evs & (_ & _ & _ & Ht & _) & _ & Hs & _ & _).
    destruct (Hs eq_refl) as (b & p & Hb & Hp' & ->).
    rewrite Hp in Hp'. injection Hp' as <-.
    exists b. split; [exact Hb |]. split; [exact Ht |].
    rewrite Ht, agent_received_app. cbn. now rewrite app_nil_r.
  - intros pool Hin.
    destruct (handle_run env cfg conn pool)
      as (addr & err & s2 & s' & Hh & Hrun & _ & Ht).
    destruct (handshake_ready env cfg (atHandshake env conn pool) (NewReader conn)
                eq_refl (NewReader_ready conn))
      as (addr' & err' & s2' & evs & b2 & Hh' & Hf & Hr2 & _ & Htok & _).
    rewrite Hh in Hh'. injection Hh' as <- <- <-.
    destruct Hf as (_ & _ & _ & Ht2 & _). cbn [trace atHandshake app] in Ht2.
    rewrite Hrun in Hin |- *. cbn [snd] in Hin |- *.
    destruct err as [e |].
    { exfalso. rewrite Ht, Ht2 in Hin.
      destruct Htok as [-> | ->]; destruct Hin as [H | [H | []]]; discriminate. }
    cbn [token_shape] in Htok. rewrite Htok in Ht2.
    destruct Ht as (o & s3 & Hd & Ho).
    pose proof (dial_run env cfg addr conn s2 s3 o Hd) as (devs & Hf3 & Hshape).
    destruct Hf3 as (_ & _ & _ & Ht3 & _). rewrite Ht2 in Ht3. cbn [app] in Ht3.
    destruct o as [[ag [e |]] | m |]; [| | | contradiction].
    + exfalso. rewrite Ho, Ht3 in Hin.
      destruct Hshape as (_ & pre & c & -> & Hq & Hc).
      rewrite <- app_assoc in Hin. apply in_app_or in Hin.
      destruct Hin as [Hin | [H | [H | []]]]; try discriminate.
      * rewrite Forall_forall in Hq. apply Hq in Hin. discriminate.
      * injection H as ->. destruct Hc; discriminate.
    + destruct (dial_success env cfg addr conn s2 s3 ag Hd)
        as (dials & b & p & Hdials & Hb & Hp' & Ht3').
      rewrite Hr2 in Hb. injection Hb as <-.
      rewrite Hp in Hp'. injection Hp' as <-.
      rewrite Ht2 in Ht3'. cbn [app] in Ht3'.
      exists addr, s2, b2, dials.
      split; [exact Hh |]. split; [exact Hr2 |]. split; [exact Hdials |].
      destruct (dials_send_nothing dials Hdials) as [Hr0 Hc0].
      assert (Hk : count_events isConnWrite (trace s3) = O).
      { rewrite Ht3', count_events_app, Hc0. reflexivity. }
      rewrite Ho, Hk, Ht3'. split; [now rewrite <- app_assoc |].
      rewrite !agent_received_app, Hr0, relay_sends_nothing.
      cbn. now rewrite !app_nil_r.
    + exfalso. rewrite Ho, Ht3 in Hin. destruct Hshape as [Hq _].
      apply in_app_or in Hin. destruct Hin as [Hin | [H | [H | []]]];
        try discriminate.
      rewrite Forall_forall in Hq. apply Hq in Hin. discriminate.
Qed.

Lemma bootstrap_bytes_witness :
  len (remoteAddr textPipelined) <= 254 /\
  In (ConnWrite codeOK)
    (trace (snd (handle envOK (cfgOf 1) textPipelined (initState [])))) /\
  agent_received (trace (snd (handle envOK (cfgOf 1) textPipelined (initState []))))
  = "015"%char :: bytes_of_string "192.0.2.1:50000" ++ bytes_of_string "hello".
Proof.
  assert (Hlen : len (remoteAddr textPipelined) <= 254) by (vm_compute; discriminate).
  assert (Hin : In (ConnWrite codeOK)
                  (trace (snd (handle envOK (cfgOf 1) textPipelined (initState [])))))
    by (vm_compute; tauto).
  split; [exact Hlen |]. split; [exact Hin |].
  destruct (proj2 (proj2 (bootstrap_bytes envOK (cfgOf 1) textPipelined Hlen)) [] Hin)
    as (addr & s2 & b2 & dials & Hh & Hr & _ & _ & Hrecv).
  vm_compute in Hh. injection Hh as <- <-.
  cbn [reader] in Hr. injection Hr as <-.
  exact Hrecv.
Defined.

(** A remote address of 256 bytes: the bootstrap succeeds, and the
    backend is sent the single byte 0 in place of the length and the
    address. *)
Lemma long_address_truncated :
  let conn := mkConn (longAddr 256) [] EOF in
  let r := agentInit envOK (cfgOf 1) (Some (agentOf 0)) conn (stateWith conn []) in
  fst r = Ret None /\
  agent_received (trace (snd r)) = [zero] /\
  agent_received (trace (snd r))
  <> byte_of_int (len (remoteAddr conn)) :: remoteAddr conn ++ [].
Proof. vm_compute. repeat split. discriminate. Qed.

(* ================================================================== *)
(** * The accept loop when the listener fails *)

Lemma iter_next_delay_pred (n : nat) :
  Nat.iter n next_delay 0 = match n with O => 0 | S k => backoff k end.
Proof. destruct n; [reflexivity | apply iter_next_delay]. Qed.

(** X1: an [Accept] error that is not temporary ends [accept] at once:
    the error is returned as it is, with a nil connection and without a
    sleep for it; the temporary errors before it were slept through with
    the same back-off as before a connection, and nothing behind the
    error is asked of the listener. *)
Theorem accept_returns_error (es : list error) (e : error)
    (rest : list accept_answer)
    (Htemp : Forall (fun e => is_temporary e = true) es)
    (Hfatal : is_temporary e = false) :
  accept (map AcceptFailed es ++ AcceptFailed e :: rest)
  = mkAccepted None (Some e) (map backoff (seq 0 (length es)))
      (match length es with O => 0 | S k => backoff k end) rest.
Proof.
  unfold accept. rewrite accept_loop_temps by assumption.
  cbn [accept_loop app]. rewrite Hfatal. f_equal.
  - apply map_ext. intros k. apply iter_next_delay.
  - apply iter_next_delay_pred.
Qed.

Lemma accept_returns_error_witness :
  accept (map AcceptFailed [acceptTemporary; acceptTemporary]
          ++ AcceptFailed acceptRefused :: [Accepted (mkConn [] [] EOF)])
  = mkAccepted None (Some acceptRefused) [5 * Millisecond; 10 * Millisecond]
      (10 * Millisecond) [Accepted (mkConn [] [] EOF)].
Proof.
  assert (H : Forall (fun e => is_temporary e = true) [acceptTemporary; acceptTemporary])
    by (repeat constructor).
  exact (accept_returns_error [acceptTemporary; acceptTemporary] acceptRefused
           [Accepted (mkConn [] [] EOF)] H eq_refl).
Defined.

Lemma accept_loop_until_fatal (l : list accept_answer) :
  forall (d : Z) (slept : list Z),
    match acc_conn (accept_loop l d slept), acc_err (accept_loop l d slept) with
    | Some c, None =>
        conns_of (until_fatal l)
        = c :: conns_of (until_fatal (acc_rest (accept_loop l d slept))) /\
        (length (acc_rest (accept_loop l d slept)) < length l)%nat
    | _, _ => conns_of (until_fatal l) = []
    end.
Proof.
  induction l as [| a l IH]; intros d slept.
  - reflexivity.
  - destruct a as [c | e].
    + cbn. split; [reflexivity | lia].
    + cbn [accept_loop until_fatal fatal_answer].
      destruct (is_temporary e); cbn [negb].
      * specialize (IH (if 1 * Second <? (if d =? 0 then 5 * Millisecond
                                           else wrap64 (d * 2))
                        then 1 * Second
                        else if d =? 0 then 5 * Millisecond else wrap64 (d * 2))
                       (slept ++ [if 1 * Second <? (if d =? 0 then 5 * Millisecond
                                                    else wrap64 (d * 2))
                                  then 1 * Second
                                  else if d =? 0 then 5 * Millisecond
                                       else wrap64 (d * 2)])).
        cbv zeta.
        destruct (acc_conn _) as [c |]; [| exact IH].
        destruct (acc_err _); [exact IH |].
        destruct IH as [IH1 IH2]. split; [exact IH1 | cbn [length]; lia].
      * reflexivity.
Qed.

Lemma loop_until_fatal (fuel : nat) :
  forall script : list accept_answer,
    (length script < fuel)%nat ->
    fst (loop fuel script) = conns_of (until_fatal script) /\
    length (snd (loop fuel script)) = S (length (fst (loop fuel script))).
Proof.
  induction fuel as [| fuel IH]; intros script Hlen; [lia |].
  cbn [loop]. unfold accept.
  pose proof (accept_loop_until_fatal script 0 []) as Ha.
  destruct (acc_conn (accept_loop script 0 [])) as [c |].
  - destruct (acc_err (accept_loop script 0 [])).
    + rewrite Ha. split; reflexivity.
    + destruct Ha as [Ha Hl].
      destruct (IH (acc_rest (accept_loop script 0 [])) ltac:(lia)) as [I1 I2].
      destruct (loop fuel (acc_rest (accept_loop script 0 []))) as [cs ss].
      cbn [fst snd] in *. rewrite Ha, I1. split; [reflexivity |].
      cbn [length]. now rewrite I2, I1.
  - rewrite Ha. split; reflexivity.
Qed.

Lemma until_fatal_app (pre post : list accept_answer) (e : error) :
  Forall (fun a => fatal_answer a = false) pre ->
  is_temporary e = false ->
  until_fatal (pre ++ AcceptFailed e :: post) = pre.
Proof.
  intros Hpre He. induction Hpre as [| a pre Ha _ IH].
  - cbn. now rewrite He.
  - cbn [app until_fatal]. now rewrite Ha, IH.
Qed.

(** X2: [loop] hands to [go handle(conn)] exactly the connections the
    listener gives before its first error that is not temporary, in the
    order they were accepted, each from an [accept] call of its own; that
    error ends the loop for good, so whatever the listener would have
    answered after it is never accepted.  Temporary errors in between do
    not end the loop. *)
Theorem loop_hands_over (pre post : list accept_answer) (e : error) (extra : nat)
    (Hpre : Forall (fun a => fatal_answer a = false) pre)
    (He : is_temporary e = false) :
  let run := loop (S (length (pre ++ AcceptFailed e :: post)) + extra)
               (pre ++ AcceptFailed e :: post) in
  fst run = conns_of pre /\
  length (snd run) = S (length (conns_of pre)).
Proof.
  intros run. subst run.
  destruct (loop_until_fatal (S (length (pre ++ AcceptFailed e :: post)) + extra)
              (pre ++ AcceptFailed e :: post) ltac:(lia)) as [H1 H2].
  rewrite until_fatal_app in H1 by assumption.
  rewrite H2, H1. split; reflexivity.
Qed.

Lemma loop_hands_over_witness :
  let c1 := mkConn (bytes_of_string "192.0.2.1:50000") [] EOF in
  let c2 := mkConn (bytes_of_string "192.0.2.2:50000") [] EOF in
  let c3 := mkConn (bytes_of_string "192.0.2.3:50000") [] EOF in
  fst (loop 6 ([Accepted c1; AcceptFailed acceptTemporary; Accepted c2]
               ++ AcceptFailed acceptRefused :: [Accepted c3]))
  = [c1; c2].
Proof.
  intros c1 c2 c3.
  assert (H : Forall (fun a => fatal_answer a = false)
                [Accepted c1; AcceptFailed acceptTemporary; Accepted c2])
    by (repeat constructor).
  exact (proj1 (loop_hands_over [Accepted c1; AcceptFailed acceptTemporary; Accepted c2]
                  [Accepted c3] acceptRefused 0 H eq_refl)).
Defined.

(* ================================================================== *)
(** * Reading the configuration *)

Lemma digit_of_digit (d : Z) :
  0 <= d <= 9 -> digit_of (ascii_of_N (Z.to_N (48 + d))) = Some d.
Proof.
  intros H.
  assert (C : d = 0 \/ d = 1 \/ d = 2 \/ d = 3 \/ d = 4 \/ d = 5 \/ d = 6 \/
              d = 7 \/ d = 8 \/ d = 9) by lia.
  repeat (destruct C as [-> | C]; [reflexivity |]). now subst.
Qed.

Lemma parse_digits_digits (fuel : nat) :
  forall (n : Z) (acc : string),
    0 <= n < 10 ^ Z.of_nat fuel ->
    parse_digits (digits fuel n acc) 0 = parse_digits acc n.
Proof.
  induction fuel as [| fuel IH]; intros n acc Hn.
  - cbn in Hn. assert (n = 0) by lia. now subst.
  - cbn [digits].
    assert (Hd : 0 <= n mod 10 <= 9) by (pose proof (Z.mod_pos_bound n 10); lia).
    rewrite Nat2Z.inj_succ, Z.pow_succ_r in Hn by lia.
    destruct (Z.ltb_spec n 10) as [Hlt | Hge].
    + cbn [parse_digits]. rewrite digit_of_digit by exact Hd.
      rewrite Z.mod_small by lia. f_equal.
    + rewrite IH by (split; [apply Z.div_pos; lia | apply Z.div_lt_upper_bound; lia]).
      cbn [parse_digits]. rewrite digit_of_digit by exact Hd.
      f_equal. rewrite Z.add_0_r || idtac. symmetry. apply Z.div_mod. lia.
Qed.

Lemma digits_head (fuel : nat) :
  forall (n : Z) (acc : string),
    (fuel = O -> exists d s, 0 <= d <= 9 /\
                   acc = String (ascii_of_N (Z.to_N (48 + d))) s) ->
    exists d s, 0 <= d <= 9 /\
      digits fuel n acc = String (ascii_of_N (Z.to_N (48 + d))) s.
Proof.
  induction fuel as [| fuel IH]; intros n acc Hacc.
  - now apply Hacc.
  - cbn [digits].
    assert (Hd : 0 <= n mod 10 <= 9) by (pose proof (Z.mod_pos_bound n 10); lia).
    destruct (n <? 10).
    + exists (n mod 10), acc. now split.
    + apply IH. intros _. exists (n mod 10), acc. now split.
Qed.

Lemma digit_char (d : Z) :
  0 <= d <= 9 ->
  In (ascii_of_N (Z.to_N (48 + d))) (list_ascii_of_string "0123456789").
Proof.
  intros H.
  assert (C : d = 0 \/ d = 1 \/ d = 2 \/ d = 3 \/ d = 4 \/ d = 5 \/ d = 6 \/
              d = 7 \/ d = 8 \/ d = 9) by lia.
  repeat (destruct C as [-> | C]; [vm_compute; tauto |]).
  subst d. vm_compute. tauto.
Qed.

Lemma Atoi_unsigned (s : string) (n : Z) :
  (exists d s', 0 <= d <= 9 /\ s = String (ascii_of_N (Z.to_N (48 + d))) s') ->
  parse_digits s 0 = Some n -> isInt n ->
  Atoi s = (n, None).
Proof.
  intros (d & s' & Hd & ->) Hp [Hlo Hhi].
  pose proof (digit_char d Hd) as C.
  set (c := ascii_of_N (Z.to_N (48 + d))) in *. clearbody c.
  cbn [list_ascii_of_string In] in C.
  unfold Atoi.
  repeat (destruct C as [<- | C];
          [cbv beta iota; rewrite Hp, Z.mul_1_l;
           destruct (Z.ltb_spec n (- 2 ^ 63)); [lia |];
           destruct (Z.ltb_spec (2 ^ 63 - 1) n); [lia | reflexivity] |]).
  destruct C.
Qed.

(** [strconv.Atoi] reads back what [strconv.Itoa] prints. *)
Lemma Atoi_Itoa (n : Z) : isInt n -> Atoi (Itoa n) = (n, None).
Proof.
  intros Hn. pose proof Hn as [Hlo Hhi]. unfold Itoa.
  assert (Hbig : 2 ^ 63 < 10 ^ Z.of_nat 20) by (vm_compute; reflexivity).
  destruct (Z.ltb_spec n 0) as [Hneg | Hpos].
  - destruct (digits_head 20 (- n) EmptyString ltac:(discriminate))
      as (d & s & Hd & Es).
    pose proof (parse_digits_digits 20 (- n) EmptyString ltac:(lia)) as Hp.
    cbn [parse_digits] in Hp.
    unfold Atoi. cbv beta iota. rewrite Es in Hp |- *. rewrite Hp.
    replace (-1 * - n) with n by lia.
    destruct (Z.ltb_spec n (- 2 ^ 63)); [lia |].
    destruct (Z.ltb_spec (2 ^ 63 - 1) n); [lia | reflexivity].
  - apply Atoi_unsigned.
    + apply digits_head. discriminate.
    + rewrite parse_digits_digits by lia. reflexivity.
    + exact Hn.
Qed.

Lemma Itoa_not_empty (n : Z) : isEmpty (Itoa n) = false.
Proof.
  unfold Itoa. destruct (n <? 0); [reflexivity |].
  destruct (digits_head 20 n EmptyString ltac:(discriminate)) as (d & s & _ & ->).
  reflexivity.
Qed.

(** [config] on numeric variables that are unset or hold a number. *)
Lemma config_of_settings (getenv : string -> string) (retry timeout : option Z) :
  getenv "GW_DIAL_RETRY" = setting retry ->
  getenv "GW_DIAL_TIMEOUT" = setting timeout ->
  match retry with Some n => isInt n | None => True end ->
  match timeout with Some n => isInt n | None => True end ->
  config getenv
  = Configured (mkConfig (bytes_of_string (getenv "GW_SECRET"))
                  (value_or 1 retry) (wrap64 (value_or 3 timeout * Second))).
Proof.
  intros Hretry Htimeout Hr Ht. unfold config. rewrite Hretry, Htimeout.
  destruct retry as [r |]; destruct timeout as [t |]; cbn [setting value_or];
    rewrite ?Itoa_not_empty, ?Atoi_Itoa by assumption; reflexivity.
Qed.

(** X3: [config] takes the secret as it stands and reads the two
    numbers in decimal.  A retry count that is unset or 0 becomes 1 and
    any other count, negative ones included, is kept; a timeout that is
    unset or 0 becomes 3 seconds and any other count of seconds between
    -9223372036 and 9223372036 becomes that many seconds exactly, as
    nanoseconds, a negative one included. *)
Theorem config_reads_settings (getenv : string -> string) (retry timeout : option Z)
    (Hretry : getenv "GW_DIAL_RETRY" = setting retry)
    (Htimeout : getenv "GW_DIAL_TIMEOUT" = setting timeout)
    (Hr : match retry with Some n => isInt n | None => True end)
    (Ht : match timeout with
          | Some n => - maxSeconds <= n <= maxSeconds
          | None => True
          end) :
  config getenv
  = Configured (mkConfig (bytes_of_string (getenv "GW_SECRET"))
                  (value_or 1 retry) (value_or 3 timeout * Second)) /\
  value_or 1 retry <> 0 /\ value_or 3 timeout <> 0.
Proof.
  split.
  - rewrite (config_of_settings getenv retry timeout Hretry Htimeout Hr).
    + f_equal. f_equal. apply wrap64_small.
      unfold maxSeconds, Second, Millisecond in *.
      destruct timeout as [t |]; cbn [value_or]; [destruct (t =? 0) |]; lia.
    + destruct timeout as [t |]; [unfold isInt, maxSeconds in *; lia | exact I].
  - split.
    + destruct retry as [r |]; cbn; [destruct (Z.eqb_spec r 0) |]; lia.
    + destruct timeout as [t |]; cbn; [destruct (Z.eqb_spec t 0) |]; lia.
Qed.

Lemma config_reads_settings_witness :
  config (getenvOf "-2" "30")
  = Configured (mkConfig (bytes_of_string "secret") (-2) (30 * Second)) /\
  config (getenvOf "0" "")
  = Configured (mkConfig (bytes_of_string "secret") 1 (3 * Second)).
Proof.
  split.
  - refine (proj1 (config_reads_settings (getenvOf "-2" "30") (Some (-2)) (Some 30)
                     eq_refl eq_refl _ _)).
    + unfold isInt. lia.
    + unfold maxSeconds. lia.
  - refine (proj1 (config_reads_settings (getenvOf "0" "") (Some 0) None
                     eq_refl eq_refl _ _)).
    + unfold isInt. lia.
    + exact I.
Defined.

Lemma parse_digits_bad (s : string) (x : ascii) :
  In x (list_ascii_of_string s) -> digit_of x = None ->
  forall acc, parse_digits s acc = None.
Proof.
  intros Hin Hx. induction s as [| c s IH]; intros acc; [destruct Hin |].
  cbn [parse_digits]. destruct Hin as [-> | Hin].
  - now rewrite Hx.
  - destruct (digit_of c); [now apply IH | reflexivity].
Qed.

(** [strconv.Atoi] fails on a text with a character behind the first one
    that is not a digit. *)
Lemma Atoi_bad (c x : ascii) (s : string) :
  In x (list_ascii_of_string s) -> digit_of x = None ->
  exists e, snd (Atoi (String c s)) = Some e.
Proof.
  intros Hin Hx.
  assert (H1 : parse_digits s 0 = None) by now apply (parse_digits_bad s x).
  assert (H2 : parse_digits (String c s) 0 = None).
  { apply (parse_digits_bad (String c s) x); [now right | exact Hx]. }
  unfold Atoi.
  destruct c as [[] [] [] [] [] [] [] []]; cbv beta iota;
    try (rewrite H2; eexists; reflexivity);
    (destruct s; [destruct Hin | rewrite H1; eexists; reflexivity]).
Qed.

(** X4: a value of GW_DIAL_RETRY or GW_DIAL_TIMEOUT with a character
    behind its first one that is not a decimal digit (as in "3s", "1.5"
    or "0x10") ends start-up in [log.Fatalf]: no configuration comes out
    of [config]. *)
Theorem config_rejects_garbage (getenv : string -> string) (name : string)
    (c x : ascii) (s : string)
    (Hname : name = "GW_DIAL_RETRY" \/ name = "GW_DIAL_TIMEOUT")
    (Hvalue : getenv name = String c s)
    (Hin : In x (list_ascii_of_string s)) (Hbad : digit_of x = None) :
  exists msg, config getenv = Fatal msg /\
    (msg = "GW_DIAL_RETRY" \/ msg = "GW_DIAL_TIMEOUT").
Proof.
  destruct (Atoi_bad c x s Hin Hbad) as [e He].
  unfold config. destruct Hname as [-> | ->].
  - rewrite Hvalue. cbn [isEmpty negb].
    destruct (Atoi (String c s)) as [n err]. cbn [snd] in He. subst err.
    eexists. split; [reflexivity | now left].
  - destruct (if negb (isEmpty (getenv "GW_DIAL_RETRY")) then _ else _) as [r | m] eqn:Er.
    + rewrite Hvalue. cbn [isEmpty negb].
      destruct (Atoi (String c s)) as [n err]. cbn [snd] in He. subst err.
      eexists. split; [reflexivity | now right].
    + exists m. split; [reflexivity |]. left.
      destruct (negb (isEmpty (getenv "GW_DIAL_RETRY"))); [| discriminate].
      destruct (Atoi (getenv "GW_DIAL_RETRY")) as [n [e' |]];
        [injection Er as <-; reflexivity | discriminate].
Qed.

Lemma config_rejects_garbage_witness :
  exists msg, config (getenvOf "2" "3s") = Fatal msg /\
    (msg = "GW_DIAL_RETRY" \/ msg = "GW_DIAL_TIMEOUT").
Proof.
  refine (config_rejects_garbage (getenvOf "2" "3s") "GW_DIAL_TIMEOUT"
            "3"%char "s"%char "s" _ eq_refl _ eq_refl).
  - now right.
  - now left.
Defined.

(** X5: [config] does not check the range of GW_DIAL_TIMEOUT.  A count
    of seconds above 9223372036 (or below its negative) that still fits
    an [int] is accepted, and the multiplication by [time.Second]
    overflows the 64-bit [time.Duration]: [cfgDialTimeout] is the
    product wrapped around, not the timeout that was asked for. *)
Theorem config_timeout_overflows (getenv : string -> string) (retry : option Z)
    (timeout : Z)
    (Hretry : getenv "GW_DIAL_RETRY" = setting retry)
    (Htimeout : getenv "GW_DIAL_TIMEOUT" = Itoa timeout)
    (Hr : match retry with Some n => isInt n | None => True end)
    (Ht : isInt timeout)
    (Hbig : maxSeconds < timeout \/ timeout < - maxSeconds) :
  exists c,
    config getenv = Configured c /\
    cfgDialRetry c = value_or 1 retry /\
    cfgDialTimeout c = wrap64 (timeout * Second) /\
    cfgDialTimeout c <> timeout * Second /\
    - 2 ^ 63 <= cfgDialTimeout c < 2 ^ 63.
Proof.
  assert (Hz : (timeout =? 0) = false).
  { apply Z.eqb_neq. unfold maxSeconds in Hbig. lia. }
  assert (Hw : - 2 ^ 63 <= wrap64 (timeout * Second) < 2 ^ 63).
  { unfold wrap64.
    pose proof (Z.mod_pos_bound (timeout * Second + 2 ^ 63) (2 ^ 64) ltac:(lia)). lia. }
  assert (Hne : wrap64 (timeout * Second) <> timeout * Second).
  { unfold maxSeconds, Second, Millisecond in *. lia. }
  exists (mkConfig (bytes_of_string (getenv "GW_SECRET")) (value_or 1 retry)
            (wrap64 (timeout * Second))).
  split; [| split; [reflexivity | split; [reflexivity | split; [exact Hne | exact Hw]]]].
  rewrite (config_of_settings getenv retry (Some timeout) Hretry Htimeout Hr Ht).
  cbn [value_or]. now rewrite Hz.
Qed.

Lemma config_timeout_overflows_witness :
  exists c,
    config (getenvOf "" "9223372037") = Configured c /\
    cfgDialTimeout c = - 9223372036709551616 /\
    cfgDialTimeout c <> 9223372037 * Second.
Proof.
  assert (Ht : isInt 9223372037) by (unfold isInt; lia).
  assert (Hbig : maxSeconds < 9223372037 \/ 9223372037 < - maxSeconds)
    by (left; unfold maxSeconds; lia).
  destruct (config_timeout_overflows (getenvOf "" "9223372037") None 9223372037
              eq_refl eq_refl I Ht Hbig)
    as (c & Hc & _ & Hd & Hne & _).
  exists c. split; [exact Hc |]. split; [| exact Hne].
  rewrite Hd. reflexivity.
Defined.

(* ================================================================== *)
(** * Start-up and shutdown *)

Ltac main_leaf :=
  cbn [fst snd calls pidFile globals gatewayAddr];
  rewrite <- ?app_assoc; cbn [app];
  eexists; split; [reflexivity |];
  split; [reflexivity |];
  split; [cbn [In]; intros H; repeat (destruct H as [H | H]; try discriminate); contradiction |].

(** Every way [main] can go on behind its [defer]: the pid file is not
    touched, and [go loop(listener)] has been started unless the process
    ended in [log.Fatal]. *)
Lemma main_body_run (os : OS) (testing : bool) (p : Process) :
  exists new,
    calls (snd (main_body os testing p)) = calls p ++ new /\
    pidFile (snd (main_body os testing p)) = pidFile p /\
    ~ In (OsRemove pidPath) new /\
    match fst (main_body os testing p) with
    | LogFatal _ => ~ In GoLoop new
    | Goes _ =>
        In GoLoop new /\
        config (Getenv os) = Configured (globals (snd (main_body os testing p))) /\
        gatewayAddr (snd (main_body os testing p)) = listener_addr os /\
        (testing = true \/ signalled os = true)
    | Blocks =>
        In GoLoop new /\
        config (Getenv os) = Configured (globals (snd (main_body os testing p))) /\
        gatewayAddr (snd (main_body os testing p)) = listener_addr os /\
        testing = false /\ signalled os = false /\
        exists before, new = before ++ [Select]
    end.
Proof.
  unfold main_body, run_config, pprof, gateway, bindP, call, log_Fatal, retP,
    set_globals, set_gatewayAddr.
  destruct (config (Getenv os)) as [c | m].
  2: { exists []. cbn. rewrite app_nil_r. repeat split; intros []. }
  cbn [fst snd calls pidFile globals gatewayAddr].
  destruct (negb (isEmpty (Getenv os "GW_PPROF_ADDR")));
    [destruct (listen_answer os "tcp" (Getenv os "GW_PPROF_ADDR")) |];
    cbn [fst snd calls pidFile globals gatewayAddr];
    try (main_leaf; cbn [In]; intros H;
         repeat (destruct H as [H | H]; try discriminate); contradiction);
    (destruct (String.eqb (Getenv os "GW_REUSE_PORT") "1");
     cbn [fst snd calls pidFile globals gatewayAddr];
     [destruct (reusable_answer os _ _) | destruct (listen_answer os "tcp" (String.append _ _))];
     cbn [fst snd calls pidFile globals gatewayAddr];
     try (main_leaf; cbn [In]; intros H;
          repeat (destruct H as [H | H]; try discriminate); contradiction);
     (destruct testing; cbn [negb fst snd calls pidFile globals gatewayAddr];
      [| destruct (signalled os) eqn:Es;
         cbn [fst snd calls pidFile globals gatewayAddr]];
      main_leaf;
      (split; [cbn [In]; tauto |]);
      (split; [reflexivity |]);
      (split; [reflexivity |]);
      try (left; reflexivity); try (right; reflexivity);
      (split; [reflexivity |]);
      (split; [reflexivity |]);
      match goal with
      | |- exists before, ?l = _ => exists (removelast l); reflexivity
      end)).
Qed.

(** X6: when start-up fails once the pid file is written (a setting that
    does not parse, or a listener that cannot be opened), the process
    ends in [log.Fatal] and the deferred [os.Remove] never runs:
    [gateway.pid] stays behind with the pid in it, the accept loop was
    never started, and every later start, whatever its environment,
    stops at "Already a pid file there" after its [os.Stat], before it
    reads a setting or opens a listener. *)
Theorem failed_start_keeps_pid_file (os : OS) (testing : bool) (msg : string)
    (p' : Process)
    (Hwrite : write_answer os = None)
    (Hrun : main os testing (boot None) = (LogFatal msg, p')) :
  pidFile p' = Some (bytes_of_string (Itoa (Getpid os))) /\
  ~ In GoLoop (calls p') /\
  ~ In (OsRemove pidPath) (calls p') /\
  forall (os' : OS) (testing' : bool),
    exists p'',
      main os' testing' (boot (pidFile p'))
      = (LogFatal "Already a pid file there", p'') /\
      pidFile p'' = pidFile p' /\
      calls p'' = [OsStat pidPath].
Proof.
  unfold main in Hrun. cbn [call boot pidFile globals gatewayAddr calls app] in Hrun.
  rewrite Hwrite in Hrun.
  match type of Hrun with
  | context [main_body os testing ?p] =>
      destruct (main_body_run os testing p) as (new & Hc & Hf & Hrm & Hcase);
      destruct (main_body os testing p) as [[[] | m |] p3]
  end; cbn [fst snd] in *.
  - unfold os_Remove, bindP, call in Hrun.
    destruct (remove_answer os); discriminate.
  - injection Hrun as <- <-.
    assert (Hfile : pidFile p3 = Some (bytes_of_string (Itoa (Getpid os)))) by exact Hf.
    cbn [calls] in Hc.
    split; [exact Hfile |]. split; [| split].
    + rewrite Hc. cbn [In app]. intros [H | [H | H]]; try discriminate.
      now apply Hcase.
    + rewrite Hc. cbn [In app]. intros [H | [H | H]]; try discriminate.
      now apply Hrm.
    + intros os' testing'. rewrite Hfile. eexists. split; [reflexivity |].
      split; reflexivity.
  - discriminate.
Qed.

Lemma failed_start_keeps_pid_file_witness :
  let p' := snd (main (osPortTaken (getenvOf "" "")) false (boot None)) in
  fst (main (osPortTaken (getenvOf "" "")) false (boot None))
  = LogFatal "Setup listener failed" /\
  pidFile p' = Some (bytes_of_string "4711") /\
  fst (main (osOK (getenvOf "" "")) false (boot (pidFile p')))
  = LogFatal "Already a pid file there".
Proof.
  intros p'. split; [reflexivity |].
  destruct (failed_start_keeps_pid_file (osPortTaken (getenvOf "" "")) false
              "Setup listener failed" p' eq_refl eq_refl) as (Hfile & _ & _ & Hnext).
  split; [exact Hfile |].
  destruct (Hnext (osOK (getenvOf "" "")) false) as (p'' & Hrun & _).
  now rewrite Hrun.
Defined.

(** X7: [main] returns only after a start-up in which everything worked
    (no pid file was there, it could be written, the settings parsed,
    the listeners opened and the accept loop was started) and then only
    because SIGINT or SIGTERM arrived or the package runs under test.
    Its last call is the deferred [os.Remove("gateway.pid")], the only
    one it makes, and the pid file is gone afterwards unless that call
    failed. *)
Theorem main_returns_after_signal (os : OS) (testing : bool) (disk : option bytes)
    (p' : Process)
    (Hrun : main os testing (boot disk) = (Goes tt, p')) :
  disk = None /\ write_answer os = None /\
  config (Getenv os) = Configured (globals p') /\
  (testing = true \/ signalled os = true) /\
  (exists before,
     calls p'
     = OsStat pidPath
       :: WriteFile pidPath (bytes_of_string (Itoa (Getpid os))) 420
       :: before ++ [OsRemove pidPath] /\
     In GoLoop before /\ ~ In (OsRemove pidPath) before) /\
  pidFile p'
  = match remove_answer os with
    | None => None
    | Some _ => Some (bytes_of_string (Itoa (Getpid os)))
    end.
Proof.
  unfold main in Hrun. cbn [call boot pidFile globals gatewayAddr calls app] in Hrun.
  destruct disk as [d |]; [discriminate |].
  destruct (write_answer os) as [[e remains] |]; [discriminate |].
  match type of Hrun with
  | context [main_body os testing ?p] =>
      destruct (main_body_run os testing p) as (new & Hc & Hf & Hrm & Hcase);
      destruct (main_body os testing p) as [[[] | m |] p3]
  end; cbn [fst snd calls pidFile] in *; try discriminate.
  destruct Hcase as (Hloop & Hcfg & _ & Hwhy).
  unfold os_Remove, bindP, call, retP, set_pidFile in Hrun.
  destruct (remove_answer os); injection Hrun as <-;
    cbn [globals calls pidFile]; rewrite Hc; cbn [app];
    (split; [reflexivity |]); (split; [reflexivity |]);
    (split; [exact Hcfg |]); (split; [exact Hwhy |]);
    (split; [exists new; repeat split; assumption |]);
    [exact Hf | reflexivity].
Qed.

Lemma main_returns_after_signal_witness :
  let p' := snd (main (osOK (getenvOf "2" "5")) false (boot None)) in
  globals p' = mkConfig (bytes_of_string "secret") 2 (5 * Second) /\
  pidFile p' = None /\
  calls p'
  = [OsStat pidPath; WriteFile pidPath (bytes_of_string "4711") 420;
     NetListen "tcp" "0.0.0.0:0"; GoLoop; SignalNotify "SIGTERM";
     SignalNotify "SIGINT"; Select; OsRemove pidPath].
Proof.
  intros p'.
  destruct (main_returns_after_signal (osOK (getenvOf "2" "5")) false None p' eq_refl)
    as (_ & _ & _ & _ & _ & Hfile).
  split; [reflexivity | split; [exact Hfile | reflexivity]].
Defined.

(** X8: while the gateway serves, that is while [main] waits for a
    signal that has not arrived, [gateway.pid] exists and holds the
    decimal text of the process id, which [strconv.Atoi] reads back to
    the very pid; the accept loop runs, and [os.Remove] has not been
    called. *)
Theorem serving_keeps_pid_file (os : OS) (testing : bool) (disk : option bytes)
    (p' : Process)
    (Hpid : isInt (Getpid os))
    (Hrun : main os testing (boot disk) = (Blocks, p')) :
  disk = None /\ testing = false /\ signalled os = false /\
  In GoLoop (calls p') /\ ~ In (OsRemove pidPath) (calls p') /\
  exists data,
    pidFile p' = Some data /\
    Atoi (string_of_list_ascii data) = (Getpid os, None).
Proof.
  unfold main in Hrun. cbn [call boot pidFile globals gatewayAddr calls app] in Hrun.
  destruct disk as [d |]; [discriminate |].
  destruct (write_answer os) as [[e remains] |]; [discriminate |].
  match type of Hrun with
  | context [main_body os testing ?p] =>
      destruct (main_body_run os testing p) as (new & Hc & Hf & Hrm & Hcase);
      destruct (main_body os testing p) as [[[] | m |] p3]
  end; cbn [fst snd calls pidFile] in *; try discriminate.
  - unfold os_Remove, bindP, call in Hrun. destruct (remove_answer os); discriminate.
  - injection Hrun as <-.
    destruct Hcase as (Hloop & _ & _ & Ht & Hs & _).
    split; [reflexivity |]. split; [exact Ht |]. split; [exact Hs |].
    rewrite Hc. cbn [app In]. split; [tauto |]. split.
    + intros [H | [H | H]]; try discriminate. now apply Hrm.
    + exists (bytes_of_string (Itoa (Getpid os))). split; [exact Hf |].
      unfold bytes_of_string. rewrite string_of_list_ascii_of_string.
      now apply Atoi_Itoa.
Qed.

Lemma serving_keeps_pid_file_witness :
  let p' := snd (main (osQuiet (getenvOf "" "")) false (boot None)) in
  fst (main (osQuiet (getenvOf "" "")) false (boot None)) = Blocks /\
  In GoLoop (calls p') /\
  exists data,
    pidFile p' = Some data /\ Atoi (string_of_list_ascii data) = (4711, None).
Proof.
  intros p'. split; [reflexivity |].
  assert (Hpid : isInt (Getpid (osQuiet (getenvOf "" "")))) by (unfold isInt; cbn; lia).
  destruct (serving_keeps_pid_file (osQuiet (getenvOf "" "")) false None p' Hpid eq_refl)
    as (_ & _ & _ & Hloop & _ & Hdata).
  split; [exact Hloop | exact Hdata].
Defined.

(* ================================================================== *)
(** * Text frames that are refused *)

Lemma window_in_buffer (b : Reader) (x : byte) :
  wf b -> In x (window b) ->
  In x (firstn (Z.to_nat defaultBufSize) (stream b)).
Proof.
  intros (_ & Hpos & Hcap) Hin. unfold stream.
  rewrite firstn_app. apply in_or_app. left.
  rewrite firstn_all2; [exact Hin |].
  unfold Buffered, len, defaultBufSize in *. lia.
Qed.

(** [ReadSlice] with no delimiter among the first 4096 bytes of the
    stream reports an error, whatever the fuel. *)
Lemma ReadSlice_loop_no_delim (delim : byte) (fuel : nat) :
  forall b : Reader,
    wf b ->
    ~ In delim (window b) ->
    (rerr b = None -> ~ In delim (firstn (Z.to_nat defaultBufSize) (stream b))) ->
    forall l e b', ReadSlice_loop fuel delim b = Ret ((l, e), b') -> e <> None.
Proof.
  induction fuel as [| fuel IH]; intros b Hwf Hw Hs l e b' Hrun.
  - cbn [ReadSlice_loop] in Hrun. rewrite split_at_delim_none in Hrun by exact Hw.
    destruct (rerr b); [injection Hrun as _ <- _; discriminate |].
    destruct (defaultBufSize <=? Buffered b); [| discriminate].
    injection Hrun as _ <- _. discriminate.
  - cbn [ReadSlice_loop] in Hrun. rewrite split_at_delim_none in Hrun by exact Hw.
    destruct (rerr b) as [e0 |] eqn:Ee; [injection Hrun as _ <- _; discriminate |].
    destruct (Z.leb_spec defaultBufSize (Buffered b)) as [Hfull | Hfree];
      [injection Hrun as _ <- _; discriminate |].
    destruct (fill_spec b Hwf Hfree) as (b1 & Hfill & Hwf1 & _ & _ & Hs1 & Hcase).
    rewrite Hfill in Hrun.
    apply (IH b1 Hwf1) in Hrun; [exact Hrun | |].
    + destruct Hcase as [(_ & Hw1 & _) | (d & _ & Hw1 & Hr1)].
      * now rewrite Hw1.
      * intros Hin. apply (Hs eq_refl). rewrite <- Hs1.
        now apply window_in_buffer.
    + intros _. rewrite Hs1. now apply Hs.
Qed.

Lemma ReadSlice_eq (delim : byte) (b : Reader) :
  ReadSlice delim b = ReadSlice_loop (Z.to_nat defaultBufSize + 2) delim b.
Proof. reflexivity. Qed.

Lemma ReadSlice_no_delim (delim : byte) (b : Reader) :
  ready b ->
  ~ In delim (firstn (Z.to_nat defaultBufSize) (stream b)) ->
  exists l e b', ReadSlice delim b = Ret ((l, Some e), b') /\ ready b'.
Proof.
  intros Hb Hs. destruct (ReadSlice_total delim b Hb) as ([l e] & b' & Hrun & Hb' & _).
  destruct e as [e |].
  - exists l, e, b'. now split.
  - exfalso. rewrite ReadSlice_eq in Hrun.
    generalize dependent (Z.to_nat defaultBufSize + 2)%nat. intros fuel Hrun.
    apply ReadSlice_loop_no_delim in Hrun.
    + apply Hrun. reflexivity.
    + apply Hb.
    + intros Hin. apply Hs. apply window_in_buffer; [apply Hb | exact Hin].
    + intros _. exact Hs.
Qed.

(** A text frame without a newline among its first 4096 bytes: the
    handshake fails with 400. *)
Lemma handshake_no_line (env : Env) (cfg : Config) (s : State) (b : Reader)
    (x : byte) (tl : bytes) :
  reader s = Some b -> ready b ->
  stream b = x :: tl -> x <> zero ->
  ~ In newline (firstn (Z.to_nat defaultBufSize) (x :: tl)) ->
  exists e s',
    handshake env cfg s = (Ret ([], Some e), s') /\
    trace s' = trace s ++ [ConnWrite codeBadReq].
Proof.
  intros Hs Hb Hst Hx Hnot. unfold handshake, bind at 1.
  pose proof (ReadByte_spec b Hb) as H1. rewrite Hst in H1.
  destruct H1 as (b1 & Hr & Hb1 & Hst1 & Hl1 & Hp1 & _).
  rewrite (onReader_eq _ s b b1 _ Hs Hr).
  destruct (Z.eqb_spec (int_of_byte x) 0) as [Hz | _].
  { apply int_of_byte_zero in Hz. contradiction. }
  destruct (UnreadByte_spec b1 x Hb1 Hl1 Hp1) as (b2 & Hu & Hb2 & Hst2 & _).
  unfold bind at 1.
  rewrite (onReader_eq (fun b0 => Ret (UnreadByte b0)) (with_reader s b1) b1 b2 None
             eq_refl (f_equal Ret Hu)).
  unfold handshakeText, bind at 1.
  destruct (ReadSlice_no_delim newline b2 Hb2) as (l & e & b3 & Hrs & _).
  { rewrite Hst2, Hst1. exact Hnot. }
  rewrite (onReader_eq _ (with_reader (with_reader s b1) b2) b2 b3 _ eq_refl Hrs).
  unfold bind. rewrite conn_Write_eq. unfold ret.
  exists e. eexists. split; reflexivity.
Qed.

(** X9: a frame whose first byte is not 0 is a text frame, and it is
    refused before any dial in two ways.  When there is no newline among
    the first 4096 bytes of the stream, because the client stopped
    sending before the end of the line or because the line does not fit
    the 4096-byte buffer of the reader, the handler writes 400 and
    closes; when the line is there but [DecryptBase64] rejects it, the
    handler writes 401 and closes.  Nothing else happens in either run. *)
Theorem text_frame_errors (env : Env) (cfg : Config) (conn : Conn)
    (pool : list Reader) (x : byte) (tl : bytes)
    (Htext : concat (incoming conn) = x :: tl) (Hx : x <> zero) :
  let t := trace (snd (handle env cfg conn (initState pool))) in
  (~ In newline (firstn (Z.to_nat defaultBufSize) (x :: tl)) ->
   t = [ConnWrite codeBadReq; ConnClose]) /\
  (forall line rest e,
     x :: tl = line ++ newline :: rest ->
     ~ In newline line -> len line + 1 <= defaultBufSize ->
     snd (DecryptBase64 env (cfgSecret cfg) (line ++ [newline])) = Some e ->
     t = [ConnWrite codeBadAddr; ConnClose]).
Proof.
  intros t. subst t.
  destruct (handle_run env cfg conn pool) as (addr & err & s2 & s' & Hh & Hrun & _ & Ht).
  rewrite Hrun. cbn [snd]. split.
  - intros Hnot.
    assert (Hst : stream (NewReader conn) = x :: tl)
      by now rewrite stream_NewReader.
    destruct (handshake_no_line env cfg (atHandshake env conn pool) (NewReader conn)
                x tl eq_refl (NewReader_ready conn) Hst Hx Hnot)
      as (e & s2' & Hh' & Ht2).
    rewrite Hh in Hh'. injection Hh' as -> -> ->.
    rewrite Ht, Ht2. reflexivity.
  - intros line rest e Hst Hnot Hlen Hd.
    destruct (handshake_ready env cfg (atHandshake env conn pool) (NewReader conn)
                eq_refl (NewReader_ready conn))
      as (addr' & err' & s2' & evs & b2 & Hh' & Hf & _ & _ & _ & _ & _ & Htxt).
    rewrite Hh in Hh'. injection Hh' as <- <- <-.
    destruct Hf as (_ & _ & _ & Ht2 & _). cbn [trace atHandshake app] in Ht2.
    specialize (Htxt line rest).
    rewrite stream_NewReader, Htext in Htxt.
    assert (Hhd : hd newline line <> zero).
    { destruct line as [| y line]; cbn [hd].
      - unfold newline. discriminate.
      - cbn [app] in Hst. injection Hst as <- _. exact Hx. }
    specialize (Htxt Hst Hhd Hnot Hlen).
    unfold text_verdict in Htxt.
    destruct (DecryptBase64 env (cfgSecret cfg) (line ++ [newline])) as [a [e' |]];
      [| discriminate].
    destruct Htxt as (Hne & _ & ->).
    destruct err as [e'' |]; [| contradiction].
    rewrite Ht, Ht2. reflexivity.
Qed.

Lemma text_frame_errors_witness :
  trace (snd (handle envOK (cfgOf 1) textUnfinished (initState [])))
  = [ConnWrite codeBadReq; ConnClose] /\
  trace (snd (handle envOK (cfgOf 1) textTooLong (initState [])))
  = [ConnWrite codeBadReq; ConnClose] /\
  trace (snd (handle envOK (cfgOf 1) textGarbage (initState [])))
  = [ConnWrite codeBadAddr; ConnClose].
Proof.
  split; [| split].
  - refine (proj1 (text_frame_errors envOK (cfgOf 1) textUnfinished []
                     "Q"%char (bytes_of_string "UJD") eq_refl _) _).
    + discriminate.
    + vm_compute. intros H. repeat (destruct H as [H | H]; [discriminate |]).
      exact H.
  - refine (proj1 (text_frame_errors envOK (cfgOf 1) textTooLong []
                     "A"%char (repeat "A"%char 4095 ++ newline :: bytes_of_string "hello")
                     eq_refl _) _).
    + discriminate.
    + intros H. apply (In_nth _ _ zero) in H. destruct H as (n & Hn & Hnth).
      rewrite length_firstn in Hn.
      rewrite nth_firstn in Hnth.
      destruct (n <? Z.to_nat defaultBufSize)%nat eqn:En;
        [| unfold newline in Hnth; discriminate].
      apply Nat.ltb_lt in En.
      change ("A"%char :: repeat "A"%char 4095 ++ newline :: bytes_of_string "hello")
        with (repeat "A"%char 4096 ++ newline :: bytes_of_string "hello") in Hnth.
      rewrite app_nth1 in Hnth by (rewrite repeat_length; exact En).
      rewrite nth_repeat_lt in Hnth by exact En.
      unfold newline in Hnth. discriminate.
  - refine (proj2 (text_frame_errors envOK (cfgOf 1) textGarbage []
                     "?"%char (bytes_of_string "??" ++ newline :: bytes_of_string "hello")
                     eq_refl _) (bytes_of_string "???") (bytes_of_string "hello")
              (OtherError "illegal base64 data") eq_refl _ _ eq_refl).
    + discriminate.
    + vm_compute. intros H. repeat (destruct H as [H | H]; [discriminate |]).
      exact H.
    + vm_compute. discriminate.
Defined.

(* ================================================================== *)
(** * Every way [dial] can go *)

(** The answers to [n] dial calls from call [d0] on: all of them are
    timeouts, or there is a first one that is not. *)
Lemma dial_answers_cases (env : Env) (d0 n : nat) :
  (forall j, (j < n)%nat -> timed_out env (d0 + j)) \/
  exists k, (k < n)%nat /\
    (forall j, (j < k)%nat -> timed_out env (d0 + j)) /\
    (dial_answer env (d0 + k) = None \/
     exists e, dial_answer env (d0 + k) = Some e /\ is_timeout e = false).
Proof.
  induction n as [| n IH]; [left; intros j Hj; lia |].
  destruct IH as [Hall | (k & Hk & Hto & Hend)].
  - destruct (dial_answer env (d0 + n)) as [e |] eqn:Ea.
    + destruct (is_timeout e) eqn:Et.
      * left. intros j Hj. destruct (Nat.eq_dec j n) as [-> | Hne].
        -- exists e. now split.
        -- apply Hall. lia.
      * right. exists n. split; [lia |]. split; [exact Hall |].
        right. exists e. now split.
    + right. exists n. split; [lia |]. split; [exact Hall |]. now left.
  - right. exists k. split; [lia |]. now split.
Qed.

Lemma count_agent_calls_attempts (cfg : Config) (addr : bytes) (k : nat) :
  count_events isAgentCall (repeat (attempt cfg addr) k) = O.
Proof.
  unfold count_events. induction k as [| k IH]; cbn; [reflexivity | exact IH].
Qed.

Section DialCases.

Variable env : Env.
Variable cfg : Config.

(** With [cfgDialRetry >= 1] a run of [dial] is one of three: every
    attempt timed out, an attempt failed otherwise, or an attempt
    connected and [agentInit] ran. *)
Lemma dial_cases (addr : bytes) (conn : Conn) (s : State) :
  1 <= cfgDialRetry cfg ->
  (exists e, is_timeout e = true /\
     (forall j, Z.of_nat j < cfgDialRetry cfg ->
        timed_out env (count_events isDial (trace s) + j)) /\
     dial env cfg addr conn s
     = (Ret (None, Some e),
        extend s (repeat (attempt cfg addr) (Z.to_nat (cfgDialRetry cfg))
                  ++ [ConnWrite codeDialTimeout]))) \/
  (exists k e, Z.of_nat k < cfgDialRetry cfg /\
     (forall j, (j < k)%nat -> timed_out env (count_events isDial (trace s) + j)) /\
     dial_answer env (count_events isDial (trace s) + k) = Some e /\
     is_timeout e = false /\
     dial env cfg addr conn s
     = (Ret (None, Some e),
        extend s (repeat (attempt cfg addr) (S k) ++ [ConnWrite codeDialErr]))) \/
  (exists k, Z.of_nat k < cfgDialRetry cfg /\
     (forall j, (j < k)%nat -> timed_out env (count_events isDial (trace s) + j)) /\
     dial_answer env (count_events isDial (trace s) + k) = None /\
     dial env cfg addr conn s
     = match agentInit env cfg (Some (agentOf (count_events isDial (trace s) + k))) conn
               (extend s (repeat (attempt cfg addr) (S k))) with
       | (Ret None, s2) =>
           (Ret (Some (agentOf (count_events isDial (trace s) + k)), None), s2)
       | (Ret (Some e), s2) =>
           (Ret (None, Some e), extend s2 [AgentClose; ConnWrite codeDialErr])
       | (Panic m, s2) => (Panic m, s2)
       | (OutOfFuel, s2) => (OutOfFuel, s2)
       end).
Proof.
  intros Hr.
  destruct (dial_answers_cases env (count_events isDial (trace s))
              (Z.to_nat (cfgDialRetry cfg)))
    as [Hall | (k & Hk & Hto & [Hnone | (e & He & Ht)])].
  - left. destruct (dial_all_timeouts env cfg addr conn s Hr) as (e & Ht & Hd).
    { intros j Hj. apply Hall. lia. }
    exists e. split; [exact Ht |]. split; [| exact Hd].
    intros j Hj. apply Hall. lia.
  - right. right. exists k. split; [lia |]. split; [exact Hto |].
    split; [exact Hnone |].
    apply dial_connected; [lia | exact Hto | exact Hnone].
  - right. left. exists k, e. split; [lia |]. split; [exact Hto |].
    split; [exact He |]. split; [exact Ht |].
    apply dial_hard_error; [lia | exact Hto | exact He | exact Ht].
Qed.

(** The calls [agentInit] makes on a connected backend: the deadline
    first, then writes and the deadline only. *)
Lemma agentInit_calls (a : AgentConn) (conn : Conn) (s s' : State)
    (o : outcome (option error)) :
  agentInit env cfg (Some a) conn s = (o, s') ->
  exists evs,
    trace s' = trace s ++ AgentSetWriteDeadline (Some (cfgDialTimeout cfg)) :: evs /\
    Forall (fun e => isBoot e = true) evs /\
    o <> OutOfFuel.
Proof.
  unfold agentInit, bind. rewrite agent_call_eq.
  destruct (agent_answer env (count_events isAgentCall (trace s))) as [e1 |].
  { intros H. injection H as <- <-. exists []. repeat split; [constructor | discriminate]. }
  unfold lift.
  destruct (addrPreamble (remoteAddr conn)) as [p | m |] eqn:Ep.
  2: { intros H. injection H as <- <-. exists [].
       repeat split; [constructor | discriminate]. }
  2: { exfalso. unfold addrPreamble in Ep. destruct (firstn _ _); discriminate. }
  rewrite agent_call_eq.
  destruct (agent_answer env _) as [e2 |].
  { intros H. injection H as <- <-. rewrite extend_extend.
    exists [AgentWrite p]. repeat split; [repeat constructor | discriminate]. }
  rewrite extend_extend.
  unfold onReader. cbn [extend reader].
  destruct (reader s) as [b |] eqn:Eb.
  2: { intros H. injection H as <- <-.
       exists [AgentWrite p]. repeat split; [repeat constructor | discriminate]. }
  destruct (Peek_Buffered b) as [b' [Hw [Hp | Hp]]]; rewrite Hp.
  2: { intros H. injection H as <- <-.
       exists [AgentWrite p]. repeat split; [repeat constructor | discriminate]. }
  match goal with
  | |- context [agent_call env (Some a) ?e ?st] => rewrite (agent_call_eq env a e st)
  end.
  destruct (agent_answer env _) as [e3 |].
  { intros H. injection H as <- <-.
    exists [AgentWrite p; AgentWrite (window b)].
    cbn [extend trace]. rewrite <- app_assoc.
    repeat split; [repeat constructor | discriminate]. }
  match goal with
  | |- context [agent_call env (Some a) ?e ?st] => rewrite (agent_call_eq env a e st)
  end.
  intros H. injection H as <- <-.
  exists [AgentWrite p; AgentWrite (window b); AgentSetWriteDeadline None].
  cbn [extend trace]. rewrite <- !app_assoc.
  repeat split; [repeat constructor | ].
  destruct (agent_answer env _); discriminate.
Qed.

(** When the preamble cannot be built, [agentInit] panics right after
    its first call, provided that call succeeded. *)
Lemma agentInit_preamble_panic (a : AgentConn) (conn : Conn) (s : State) (m : string) :
  addrPreamble (remoteAddr conn) = Panic m ->
  agent_answer env (count_events isAgentCall (trace s)) = None ->
  agentInit env cfg (Some a) conn s
  = (Panic m, extend s [AgentSetWriteDeadline (Some (cfgDialTimeout cfg))]).
Proof.
  intros Hp Ha. unfold agentInit, bind. rewrite agent_call_eq, Ha.
  unfold lift. now rewrite Hp.
Qed.

(** The trace of [dial]: attempts on the one address, at most
    [cfgDialRetry] of them, then the calls of the bootstrap if an
    attempt connected, then what ends it. *)
Lemma dial_shape (addr : bytes) (conn : Conn) (s s' : State)
    (o : outcome (option AgentConn * option error)) :
  dial env cfg addr conn s = (o, s') ->
  exists k boots tail,
    trace s' = trace s ++ repeat (attempt cfg addr) k ++ boots ++ tail /\
    (k <= Z.to_nat (cfgDialRetry cfg))%nat /\
    Forall (fun e => isBoot e = true) boots /\
    match o with
    | Ret (_, None) => boots <> [] /\ tail = []
    | Ret (_, Some _) =>
        (boots = [] /\
         (tail = [ConnWrite codeDialErr] \/ tail = [ConnWrite codeDialTimeout])) \/
        (boots <> [] /\ tail = [AgentClose; ConnWrite codeDialErr])
    | Panic _ => tail = []
    | OutOfFuel => False
    end.
Proof.
  intros H.
  destruct (Z.le_gt_cases 1 (cfgDialRetry cfg)) as [Hr | Hr].
  2: { destruct (dial_no_attempt env cfg addr conn s ltac:(lia)) as [msg Hn].
       rewrite Hn in H. injection H as <- <-.
       exists O, [], []. cbn. rewrite app_nil_r.
       repeat split; [lia | constructor]. }
  destruct (dial_cases addr conn s Hr)
    as [(e & _ & _ & Hd) | [(k & e & Hk & _ & _ & _ & Hd) | (k & Hk & _ & _ & Hd)]];
    rewrite Hd in H.
  - injection H as <- <-.
    exists (Z.to_nat (cfgDialRetry cfg)), [], [ConnWrite codeDialTimeout].
    cbn [extend trace app]. repeat split; [lia | constructor |].
    left. split; [reflexivity | now right].
  - injection H as <- <-.
    exists (S k), [], [ConnWrite codeDialErr].
    cbn [extend trace app]. repeat split; [lia | constructor |].
    left. split; [reflexivity | now left].
  - destruct (agentInit env cfg _ conn _) as [o2 s2] eqn:E2.
    apply agentInit_calls in E2. destruct E2 as (evs & Ht & Hb & Hnf).
    cbn [extend trace] in Ht.
    assert (Hboots : Forall (fun e => isBoot e = true)
                       (AgentSetWriteDeadline (Some (cfgDialTimeout cfg)) :: evs))
      by (constructor; [reflexivity | exact Hb]).
    destruct o2 as [[e |] | m |]; injection H as <- <-.
    + exists (S k), (AgentSetWriteDeadline (Some (cfgDialTimeout cfg)) :: evs),
        [AgentClose; ConnWrite codeDialErr].
      cbn [extend trace]. rewrite Ht, <- !app_assoc.
      repeat split; [lia | exact Hboots |].
      right. split; [discriminate | reflexivity].
    + exists (S k), (AgentSetWriteDeadline (Some (cfgDialTimeout cfg)) :: evs), [].
      rewrite Ht, <- !app_assoc, app_nil_r.
      repeat split; [lia | exact Hboots | discriminate].
    + exists (S k), (AgentSetWriteDeadline (Some (cfgDialTimeout cfg)) :: evs), [].
      rewrite Ht, <- !app_assoc, app_nil_r.
      repeat split; [lia | exact Hboots].
    + exfalso. now apply Hnf.
Qed.

End DialCases.

(* ================================================================== *)
(** * What the status token tells about the dial *)

Lemma in_attempts (cfg : Config) (addr : bytes) (k : nat) (e : event) :
  In e (repeat (attempt cfg addr) k) -> e = attempt cfg addr.
Proof. apply repeat_spec. Qed.

Lemma boot_calls_only (evs : list event) :
  Forall (fun e => isBoot e = true) evs ->
  count_events isDial evs = O /\
  (forall e, In e evs -> isBoot e = true).
Proof.
  intros H. split; [| now apply Forall_forall].
  unfold count_events. induction H as [| e evs He _ IH]; [reflexivity |].
  destruct e; cbn in He |- *; try discriminate; exact IH.
Qed.

(** Membership in a trace put together from attempts, bootstrap calls
    and single events, taken apart until a case is left that is not
    absurd. *)
Ltac in_trace :=
  repeat match goal with
  | H : In _ (_ ++ _) |- _ => apply in_app_or in H
  | H : In _ (repeat (attempt _ _) _) |- _ => apply in_attempts in H
  | H : In _ (_ :: _) |- _ => destruct H as [H | H]
  | H : In _ [] |- _ => destruct H
  | H : _ \/ _ |- _ => destruct H as [H | H]
  | Hb : (forall e, In e ?l -> isBoot e = true), H : In _ ?l |- _ => apply Hb in H
  | Hq : Forall (fun e => quiet e = true) ?l, H : In _ ?l |- _ =>
      apply (proj1 (Forall_forall _ _) Hq) in H
  end;
  unfold attempt in *; try discriminate.

(** X10: what a token of [dial] tells, with [cfgDialRetry >= 1].  When
    503 was written, [dial] made exactly [cfgDialRetry] attempts, every
    one of them timed out, and it did nothing else.  When 502 was
    written, the attempts before the last one timed out and the last one
    either failed with an error that is not a timeout, and then no
    backend socket was ever closed, or connected, and then the
    connection was closed again before the token was written. *)
Theorem dial_token_tells_cause (env : Env) (cfg : Config) (addr : bytes)
    (conn : Conn) (s s' : State) (o : outcome (option AgentConn * option error))
    (new : list event)
    (Hretry : 1 <= cfgDialRetry cfg)
    (Hrun : dial env cfg addr conn s = (o, s'))
    (Hnew : trace s' = trace s ++ new) :
  let d0 := count_events isDial (trace s) in
  (In (ConnWrite codeDialTimeout) new ->
   (forall j, Z.of_nat j < cfgDialRetry cfg -> timed_out env (d0 + j)) /\
   new = repeat (attempt cfg addr) (Z.to_nat (cfgDialRetry cfg))
         ++ [ConnWrite codeDialTimeout]) /\
  (In (ConnWrite codeDialErr) new ->
   exists k, Z.of_nat k < cfgDialRetry cfg /\
     (forall j, (j < k)%nat -> timed_out env (d0 + j)) /\
     count_events isDial new = S k /\
     ((exists e, dial_answer env (d0 + k) = Some e /\ is_timeout e = false /\
         ~ In AgentClose new) \/
      (dial_answer env (d0 + k) = None /\
       exists boots, new = repeat (attempt cfg addr) (S k) ++ boots
                           ++ [AgentClose; ConnWrite codeDialErr] /\
         Forall (fun e => isBoot e = true) boots))).
Proof.
  intros d0. subst d0.
  destruct (dial_cases env cfg addr conn s Hretry)
    as [(e & Ht & Hall & Hd) | [(k & e & Hk & Hto & He & Ht & Hd) | (k & Hk & Hto & He & Hd)]];
    rewrite Hd in Hrun.
  - injection Hrun as <- <-. cbn [extend trace] in Hnew.
    apply app_inv_head in Hnew. subst new. split.
    + intros _. split; [exact Hall | reflexivity].
    + intros Hin. exfalso. in_trace.
  - injection Hrun as <- <-. cbn [extend trace] in Hnew.
    apply app_inv_head in Hnew. subst new. split.
    + intros Hin. exfalso. in_trace.
    + intros _. exists k. split; [exact Hk |]. split; [exact Hto |]. split.
      * change (count_events isDial
                  (repeat (attempt cfg addr) (S k) ++ [ConnWrite codeDialErr]) = S k).
        rewrite count_events_app. unfold attempt. rewrite count_dials_repeat.
        cbn. lia.
      * left. exists e. split; [exact He |]. split; [exact Ht |].
        intros Hin. in_trace.
  - destruct (agentInit env cfg _ conn _) as [o2 s2] eqn:E2.
    apply agentInit_calls in E2. destruct E2 as (evs & Hts & Hb & _).
    cbn [extend trace] in Hts.
    assert (Hboots : Forall (fun e => isBoot e = true)
                       (AgentSetWriteDeadline (Some (cfgDialTimeout cfg)) :: evs))
      by (constructor; [reflexivity | exact Hb]).
    destruct (boot_calls_only _ Hboots) as [Hnd _].
    destruct (boot_calls_only _ Hb) as [_ Hin_b].
    destruct o2 as [[e |] | m |]; injection Hrun as <- <-.
    + cbn [extend trace] in Hnew. rewrite Hts, <- !app_assoc in Hnew.
      apply app_inv_head in Hnew. subst new. split.
      * intros Hin. exfalso. in_trace.
      * intros _. exists k. split; [exact Hk |]. split; [exact Hto |]. split.
        -- change (count_events isDial
                     (repeat (attempt cfg addr) (S k)
                      ++ (AgentSetWriteDeadline (Some (cfgDialTimeout cfg)) :: evs)
                      ++ [AgentClose; ConnWrite codeDialErr]) = S k).
           rewrite !count_events_app. unfold attempt at 1.
           rewrite count_dials_repeat, Hnd. cbn. lia.
        -- right. split; [exact He |].
           exists (AgentSetWriteDeadline (Some (cfgDialTimeout cfg)) :: evs).
           split; [reflexivity | exact Hboots].
    + rewrite Hts, <- !app_assoc in Hnew. apply app_inv_head in Hnew. subst new.
      split; intros Hin; exfalso; in_trace.
    + rewrite Hts, <- !app_assoc in Hnew. apply app_inv_head in Hnew. subst new.
      split; intros Hin; exfalso; in_trace.
    + rewrite Hts, <- !app_assoc in Hnew. apply app_inv_head in Hnew. subst new.
      split; intros Hin; exfalso; in_trace.
Qed.

Lemma dial_token_tells_cause_witness :
  let r := dial envTimeout (cfgOf 3) backendAddr (clientOf []) (initState []) in
  In (ConnWrite codeDialTimeout) (trace (snd r)) /\
  (forall j, Z.of_nat j < 3 -> timed_out envTimeout j) /\
  trace (snd r) = repeat (attempt (cfgOf 3) backendAddr) 3 ++ [ConnWrite codeDialTimeout].
Proof.
  intros r.
  assert (H3 : 1 <= cfgDialRetry (cfgOf 3)) by (cbn; lia).
  assert (Hin : In (ConnWrite codeDialTimeout) (trace (snd r))) by (vm_compute; tauto).
  split; [exact Hin |].
  exact (proj1 (dial_token_tells_cause envTimeout (cfgOf 3) backendAddr (clientOf [])
                  (initState []) (snd r) (fst r) (trace (snd r)) H3 eq_refl eq_refl)
           Hin).
Defined.

(* ================================================================== *)
(** * The shapes of a handler's trace *)

Lemma count_writes_attempts (cfg : Config) (addr : bytes) (k : nat) :
  count_events isConnWrite (repeat (attempt cfg addr) k) = O.
Proof.
  unfold count_events. induction k as [| k IH]; cbn; [reflexivity | exact IH].
Qed.

Lemma count_writes_boots (evs : list event) :
  Forall (fun e => isBoot e = true) evs -> count_events isConnWrite evs = O.
Proof.
  unfold count_events. induction 1 as [| e evs He _ IH]; [reflexivity |].
  destruct e; cbn in He |- *; try discriminate; exact IH.
Qed.

(** Every trace of [handle]: a refused handshake; or dial attempts on
    the decrypted address, followed by an error token, by a bootstrap
    that failed, by a bootstrap and the relay, or by a recovered
    panic. *)
Lemma handle_shape (env : Env) (cfg : Config) (conn : Conn) (pool : list Reader) :
  exists addr err s2 b2,
    handshake env cfg (atHandshake env conn pool) = (Ret (addr, err), s2) /\
    reader s2 = Some b2 /\ ready b2 /\
    match err with
    | Some _ =>
        trace (snd (handle env cfg conn (initState pool)))
        = [ConnWrite codeBadReq; ConnClose] \/
        trace (snd (handle env cfg conn (initState pool)))
        = [ConnWrite codeBadAddr; ConnClose]
    | None =>
        trace s2 = [] /\
        exists k boots ending,
          trace (snd (handle env cfg conn (initState pool)))
          = repeat (attempt cfg addr) k ++ boots ++ ending /\
          (k <= Z.to_nat (cfgDialRetry cfg))%nat /\
          Forall (fun e => isBoot e = true) boots /\
          ((boots = [] /\
            (ending = [ConnWrite codeDialErr; ConnClose] \/
             ending = [ConnWrite codeDialTimeout; ConnClose])) \/
           (boots <> [] /\ ending = [AgentClose; ConnWrite codeDialErr; ConnClose]) \/
           (boots <> [] /\ ending = relay env 0) \/
           (exists m, ending = [ConnClose; LogPanic m]))
    end.
Proof.
  destruct (handle_run env cfg conn pool) as (addr & err & s2 & s' & Hh & Hrun & _ & Ht).
  destruct (handshake_ready env cfg (atHandshake env conn pool) (NewReader conn)
              eq_refl (NewReader_ready conn))
    as (addr' & err' & s2' & evs & b2 & Hh' & Hf & Hr2 & Hb2 & Htok & _).
  rewrite Hh in Hh'. injection Hh' as <- <- <-.
  destruct Hf as (_ & _ & _ & Ht2 & _). cbn [trace atHandshake app] in Ht2.
  exists addr, err, s2, b2. split; [exact Hh |]. split; [exact Hr2 |].
  split; [exact Hb2 |]. rewrite Hrun. cbn [snd].
  destruct err as [e |].
  - rewrite Ht, Ht2. destruct Htok as [-> | ->]; [now left | now right].
  - cbn [token_shape] in Htok. rewrite Htok in Ht2. split; [exact Ht2 |].
    destruct Ht as (o & s3 & Hd & Ho).
    destruct (dial_shape env cfg addr conn s2 s3 o Hd)
      as (k & boots & tail & Ht3 & Hk & Hb & Hcase).
    rewrite Ht2 in Ht3. cbn [app] in Ht3.
    exists k, boots.
    destruct o as [[ag [e |]] | m |]; [| | | contradiction].
    + destruct Hcase as [(-> & [-> | ->]) | (Hne & ->)].
      * eexists. split; [rewrite Ho, Ht3, <- !app_assoc; reflexivity |].
        split; [exact Hk |]. split; [exact Hb |]. left. split; [reflexivity | now left].
      * eexists. split; [rewrite Ho, Ht3, <- !app_assoc; reflexivity |].
        split; [exact Hk |]. split; [exact Hb |]. left. split; [reflexivity | now right].
      * eexists. split; [rewrite Ho, Ht3, <- !app_assoc; reflexivity |].
        split; [exact Hk |]. split; [exact Hb |]. right. left. now split.
    + destruct Hcase as (Hne & ->).
      exists (relay env 0). split.
      * rewrite Ho, Ht3, app_nil_r, !count_events_app, count_writes_attempts,
          (count_writes_boots boots Hb), <- !app_assoc. reflexivity.
      * split; [exact Hk |]. split; [exact Hb |]. right. right. left. now split.
    + subst tail. exists [ConnClose; LogPanic m]. split.
      * rewrite Ho, Ht3, app_nil_r, <- !app_assoc. reflexivity.
      * split; [exact Hk |]. split; [exact Hb |]. right. right. right. now exists m.
Qed.

Lemma relay_cases (env : Env) :
  relay env 0 = [ConnWrite codeOK; AgentClose; ConnClose] \/
  relay env 0 = [ConnWrite codeOK; Go (SafeCopy AgentSock ClientSock);
                 IoCopy ClientSock AgentSock; AgentClose; ConnClose].
Proof. unfold relay. destruct (conn_write_answer env 0); [now left | now right]. Qed.

(** X11: [handle] dials nothing but the address its handshake
    decrypted, always with [cfgDialTimeout], and at most [cfgDialRetry]
    times; the dial calls come first in the trace, and there is none
    when the handshake failed. *)
Theorem handle_dials_decrypted_address (env : Env) (cfg : Config) (conn : Conn)
    (pool : list Reader) :
  exists addr err s2 k rest,
    handshake env cfg (atHandshake env conn pool) = (Ret (addr, err), s2) /\
    trace (snd (handle env cfg conn (initState pool)))
    = repeat (DialTimeout addr (cfgDialTimeout cfg)) k ++ rest /\
    Forall (fun e => isDial e = false) rest /\
    (k <= Z.to_nat (cfgDialRetry cfg))%nat /\
    (err <> None -> k = O).
Proof.
  destruct (handle_shape env cfg conn pool) as (addr & err & s2 & b2 & Hh & _ & _ & Ht).
  exists addr, err, s2.
  destruct err as [e |].
  - exists O, (trace (snd (handle env cfg conn (initState pool)))).
    split; [exact Hh |]. split; [reflexivity |].
    split; [destruct Ht as [-> | ->]; repeat constructor |].
    split; [lia | reflexivity].
  - destruct Ht as (_ & k & boots & ending & -> & Hk & Hb & Hcase).
    exists k, (boots ++ ending). split; [exact Hh |]. split; [reflexivity |].
    split; [| split; [exact Hk | intros H; now contradiction H]].
    apply Forall_app. split.
    + apply (Forall_impl _ (P := fun e => isBoot e = true)); [| exact Hb].
      intros e He. destruct e; cbn in He |- *; congruence.
    + destruct Hcase as [(_ & [-> | ->]) | [(_ & ->) | [(_ & ->) | (m & ->)]]];
        [repeat constructor | repeat constructor | repeat constructor | |
         repeat constructor].
      destruct (relay_cases env) as [-> | ->]; repeat constructor.
Qed.

(** X12: in every run of [handle], the runs that panic included, the
    client socket is closed exactly once, and the close is the last
    thing the handler does to either socket: it makes no write, dial,
    copy or close after it and only logs a recovered panic.  (The
    goroutine started for the relay runs on its own.) *)
Theorem client_closed_last (env : Env) (cfg : Config) (conn : Conn)
    (pool : list Reader) :
  exists before after,
    trace (snd (handle env cfg conn (initState pool))) = before ++ ConnClose :: after /\
    ~ In ConnClose before /\
    (after = [] \/ exists m, after = [LogPanic m]).
Proof.
  destruct (handle_traces env cfg conn pool)
    as [(pre & Hq & ->) | [(pre & c & Hq & -> & Hc) | (pre & m & Hq & ->)]].
  - destruct (relay_cases env) as [-> | ->].
    + exists (pre ++ [ConnWrite codeOK; AgentClose]), [].
      split; [now rewrite <- app_assoc |]. split; [| now left].
      intros Hin. in_trace.
    + exists (pre ++ [ConnWrite codeOK; Go (SafeCopy AgentSock ClientSock);
                      IoCopy ClientSock AgentSock; AgentClose]), [].
      split; [now rewrite <- app_assoc |]. split; [| now left].
      intros Hin. in_trace.
  - exists (pre ++ [ConnWrite c]), [].
    split; [now rewrite <- app_assoc |]. split; [| now left].
    intros Hin. in_trace.
  - exists pre, [LogPanic m]. split; [reflexivity |]. split; [| right; now exists m].
    intros Hin. in_trace.
Qed.

(** X13: [handle] closes a backend socket at most once, and does
    nothing to the backend after the close: it makes no call on the
    socket, starts no copy and dials no more.  A backend connection that
    was opened is closed before [handle] returns, unless the handler
    panicked. *)
Theorem backend_closed_once (env : Env) (cfg : Config) (conn : Conn)
    (pool : list Reader) :
  let t := trace (snd (handle env cfg conn (initState pool))) in
  (~ In AgentClose t \/
   exists before after,
     t = before ++ AgentClose :: after /\
     ~ In AgentClose before /\
     Forall (fun e => usesBackend e = false) after) /\
  ((exists e, In e t /\ isBoot e = true) ->
   (forall m, ~ In (LogPanic m) t) ->
   In AgentClose t).
Proof.
  intros t. subst t.
  destruct (handle_shape env cfg conn pool) as (addr & err & s2 & b2 & _ & _ & _ & Ht).
  destruct err as [e |].
  - split.
    + left. intros Hin. destruct Ht as [Ht | Ht]; rewrite Ht in Hin; in_trace.
    + intros (ev & Hin & Hev) _. exfalso.
      destruct Ht as [Ht | Ht]; rewrite Ht in Hin; in_trace; subst ev; discriminate.
  - destruct Ht as (_ & k & boots & ending & -> & _ & Hb & Hcase).
    destruct (boot_calls_only boots Hb) as [_ Hin_b].
    destruct Hcase as [(-> & Hend) | [(_ & ->) | [(_ & ->) | (m & ->)]]].
    + split.
      * left. intros Hin. destruct Hend as [-> | ->]; in_trace.
      * intros (ev & Hin & Hev) _. exfalso.
        destruct Hend as [-> | ->]; in_trace; subst ev; discriminate.
    + split.
      * right. exists (repeat (attempt cfg addr) k ++ boots),
          [ConnWrite codeDialErr; ConnClose].
        split; [now rewrite <- app_assoc |]. split; [| repeat constructor].
        intros Hin. in_trace.
      * intros _ _. apply in_or_app. right. apply in_or_app. right. now left.
    + destruct (relay_cases env) as [-> | ->].
      * split.
        -- right. exists (repeat (attempt cfg addr) k ++ boots ++ [ConnWrite codeOK]),
             [ConnClose].
           split; [now rewrite <- !app_assoc |]. split; [| repeat constructor].
           intros Hin. in_trace.
        -- intros _ _. apply in_or_app. right. apply in_or_app. right.
           cbn. tauto.
      * split.
        -- right.
           exists (repeat (attempt cfg addr) k ++ boots
                   ++ [ConnWrite codeOK; Go (SafeCopy AgentSock ClientSock);
                       IoCopy ClientSock AgentSock]),
             [ConnClose].
           split; [now rewrite <- !app_assoc |]. split; [| repeat constructor].
           intros Hin. in_trace.
        -- intros _ _. apply in_or_app. right. apply in_or_app. right.
           cbn. tauto.
    + split.
      * left. intros Hin. in_trace.
      * intros _ Hno. exfalso. apply (Hno m).
        apply in_or_app. right. apply in_or_app. right. cbn. tauto.
Qed.

(** X14: when the write of 200 to the client fails, [handle] starts no
    copy in either direction: it closes the backend socket, then the
    client socket, and returns. *)
Theorem failed_200_starts_no_relay (env : Env) (cfg : Config) (conn : Conn)
    (pool : list Reader) (e : error)
    (Hfail : conn_write_answer env 0 = Some e) :
  let t := trace (snd (handle env cfg conn (initState pool))) in
  Forall (fun ev => isRelay ev = false) t /\
  (In (ConnWrite codeOK) t ->
   exists pre, t = pre ++ [ConnWrite codeOK; AgentClose; ConnClose] /\
     Forall (fun ev => quiet ev = true) pre).
Proof.
  intros t. subst t.
  destruct (handle_traces env cfg conn pool)
    as [(pre & Hq & ->) | [(pre & c & Hq & -> & Hc) | (pre & m & Hq & ->)]];
    pose proof (proj1 (quiet_not_relay pre Hq)) as Hnr.
  - unfold relay. rewrite Hfail. cbn [app]. split.
    + apply Forall_app. split; [exact Hnr | repeat constructor].
    + intros _. exists pre. now split.
  - split.
    + apply Forall_app. split; [exact Hnr | repeat constructor].
    + intros Hin. exfalso. in_trace. injection Hin as ->. now apply Hc.
  - split.
    + apply Forall_app. split; [exact Hnr | repeat constructor].
    + intros Hin. exfalso. in_trace.
Qed.

Lemma failed_200_starts_no_relay_witness :
  let t := trace (snd (handle envClientGone (cfgOf 1) binaryABC (initState []))) in
  Forall (fun ev => isRelay ev = false) t /\
  exists pre, t = pre ++ [ConnWrite codeOK; AgentClose; ConnClose] /\
    Forall (fun ev => quiet ev = true) pre.
Proof.
  intros t.
  assert (Hin : In (ConnWrite codeOK) t) by (vm_compute; tauto).
  destruct (failed_200_starts_no_relay envClientGone (cfgOf 1) binaryABC []
              (OtherError "write: broken pipe") eq_refl) as [Hno Hshape].
  split; [exact Hno | exact (Hshape Hin)].
Defined.

(* ================================================================== *)
(** * A client address the preamble cannot hold *)

Lemma addrPreamble_panics (addr : bytes) :
  (len addr + 1) mod 256 = 0 ->
  addrPreamble addr = Panic "index out of range [0] with length 0".
Proof.
  intros H. unfold addrPreamble. rewrite int_of_byte_of_int, H. reflexivity.
Qed.

(** X15: for a client whose remote address has a length one below a
    multiple of 256 (255 bytes, say), a backend that was dialled with
    success and took the deadline is never closed by [handle]: building
    the preamble panics before [defer agent.Close()] is reached and
    outside the error path of [dial] that closes the socket.  The run
    then consists of the dial attempts, the one deadline call, the close
    of the client socket and the log line; no status token is written. *)
Theorem backend_left_open_on_preamble_panic (env : Env) (cfg : Config)
    (conn : Conn) (pool : list Reader)
    (Hlen : (len (remoteAddr conn) + 1) mod 256 = 0)
    (Hans : agent_answer env 0 = None) :
  let t := trace (snd (handle env cfg conn (initState pool))) in
  ~ In AgentClose t /\
  ~ In (ConnWrite codeOK) t /\
  ((exists e, In e t /\ isBoot e = true) ->
   exists addr k m,
     t = repeat (attempt cfg addr) (S k)
         ++ [AgentSetWriteDeadline (Some (cfgDialTimeout cfg)); ConnClose; LogPanic m]).
Proof.
  intros t. subst t.
  destruct (handle_run env cfg conn pool) as (addr & err & s2 & s' & Hh & Hrun & _ & Ht).
  destruct (handshake_ready env cfg (atHandshake env conn pool) (NewReader conn)
              eq_refl (NewReader_ready conn))
    as (addr' & err' & s2' & evs & b2 & Hh' & Hf & _ & _ & Htok & _).
  rewrite Hh in Hh'. injection Hh' as <- <- <-.
  destruct Hf as (_ & _ & _ & Ht2 & _). cbn [trace atHandshake app] in Ht2.
  rewrite Hrun. cbn [snd].
  destruct err as [e |].
  - rewrite Ht, Ht2.
    destruct Htok as [-> | ->];
      (split; [intros Hin; in_trace |]);
      (split; [intros Hin; in_trace |]);
      intros (ev & Hin & Hev); exfalso; in_trace; subst ev; discriminate.
  - cbn [token_shape] in Htok. rewrite Htok in Ht2.
    destruct Ht as (o & s3 & Hd & Ho).
    destruct (Z.le_gt_cases 1 (cfgDialRetry cfg)) as [Hr | Hr].
    2: { destruct (dial_no_attempt env cfg addr conn s2 ltac:(lia)) as [msg Hn].
         rewrite Hn in Hd. injection Hd as <- <-. rewrite Ho, Ht2.
         (split; [intros Hin; in_trace |]);
         (split; [intros Hin; in_trace |]);
         intros (ev & Hin & Hev); exfalso; in_trace; subst ev; discriminate. }
    destruct (dial_cases env cfg addr conn s2 Hr)
      as [(e & _ & _ & Hc) | [(k & e & _ & _ & _ & _ & Hc) | (k & _ & _ & _ & Hc)]];
      rewrite Hc in Hd.
    + injection Hd as <- <-. rewrite Ho. cbn [extend trace]. rewrite Ht2.
      (split; [intros Hin; in_trace |]);
      (split; [intros Hin; in_trace |]);
      intros (ev & Hin & Hev); exfalso; in_trace; subst ev; discriminate.
    + injection Hd as <- <-. rewrite Ho. cbn [extend trace]. rewrite Ht2.
      (split; [intros Hin; in_trace |]);
      (split; [intros Hin; in_trace |]);
      intros (ev & Hin & Hev); exfalso; in_trace; subst ev; discriminate.
    + rewrite (agentInit_preamble_panic env cfg _ conn _ _ (addrPreamble_panics _ Hlen))
        in Hd.
      2: { cbn [extend trace]. rewrite Ht2. cbn [app].
           rewrite count_agent_calls_attempts. exact Hans. }
      injection Hd as <- <-. rewrite Ho. cbn [extend trace]. rewrite Ht2.
      cbn [app]. rewrite <- !app_assoc. cbn [app].
      (split; [intros Hin; in_trace |]);
      (split; [intros Hin; in_trace |]).
      intros _. exists addr, k. eexists. reflexivity.
Qed.

Lemma backend_left_open_on_preamble_panic_witness :
  let t := trace (snd (handle envOK (cfgOf 1) client255 (initState []))) in
  In (AgentSetWriteDeadline (Some (3 * Second))) t /\
  ~ In AgentClose t /\
  ~ In (ConnWrite codeOK) t.
Proof.
  intros t.
  assert (Hlen : (len (remoteAddr client255) + 1) mod 256 = 0) by reflexivity.
  destruct (backend_left_open_on_preamble_panic envOK (cfgOf 1) client255 [] Hlen eq_refl)
    as (H1 & H2 & _).
  split; [vm_compute; tauto |]. split; [exact H1 | exact H2].
Defined.

(* ================================================================== *)
(** * A bootstrap that fails *)

(** [agentInit] on a connected backend, call by call: it stops at the
    first call the backend fails. *)
Lemma agentInit_steps (env : Env) (cfg : Config) (a : AgentConn) (conn : Conn)
    (s : State) (b : Reader) (p : bytes) :
  reader s = Some b -> Buffered b <= defaultBufSize ->
  addrPreamble (remoteAddr conn) = Ret p ->
  (fst (agentInit env cfg (Some a) conn s),
   trace (snd (agentInit env cfg (Some a) conn s)))
  = match agent_answer env (count_events isAgentCall (trace s)) with
    | Some e => (Ret (Some e), trace s ++ firstn 1 (bootstrap cfg p (window b)))
    | None =>
        match agent_answer env (count_events isAgentCall (trace s) + 1) with
        | Some e => (Ret (Some e), trace s ++ firstn 2 (bootstrap cfg p (window b)))
        | None =>
            match agent_answer env (count_events isAgentCall (trace s) + 2) with
            | Some e => (Ret (Some e), trace s ++ firstn 3 (bootstrap cfg p (window b)))
            | None =>
                (Ret (agent_answer env (count_events isAgentCall (trace s) + 3)),
                 trace s ++ bootstrap cfg p (window b))
            end
        end
    end.
Proof.
  intros Hb Hcap Hp. unfold agentInit, bind. rewrite agent_call_eq.
  destruct (agent_answer env (count_events isAgentCall (trace s))) as [e1 |];
    [reflexivity |].
  unfold lift. rewrite Hp. rewrite agent_call_eq.
  cbn [extend trace]. rewrite count_events_app.
  change (count_events isAgentCall [AgentSetWriteDeadline (Some (cfgDialTimeout cfg))])
    with 1%nat.
  destruct (agent_answer env (count_events isAgentCall (trace s) + 1)) as [e2 |].
  { unfold ret. cbn [fst snd extend trace]. rewrite <- ?app_assoc. reflexivity. }
  unfold onReader. cbn [extend reader]. rewrite Hb, (Peek_Buffered_ok b Hcap).
  match goal with
  | |- context [agent_call env (Some a) ?e ?st] => rewrite (agent_call_eq env a e st)
  end.
  cbn [extend trace]. rewrite !count_events_app.
  change (count_events isAgentCall [AgentSetWriteDeadline (Some (cfgDialTimeout cfg))])
    with 1%nat.
  change (count_events isAgentCall [AgentWrite p]) with 1%nat.
  replace (count_events isAgentCall (trace s) + 1 + 1)%nat
    with (count_events isAgentCall (trace s) + 2)%nat by lia.
  destruct (agent_answer env (count_events isAgentCall (trace s) + 2)) as [e3 |].
  { unfold ret. cbn [fst snd extend trace]. rewrite <- ?app_assoc. reflexivity. }
  match goal with
  | |- context [agent_call env (Some a) ?e ?st] => rewrite (agent_call_eq env a e st)
  end.
  cbn [extend trace fst snd]. rewrite !count_events_app.
  change (count_events isAgentCall [AgentSetWriteDeadline (Some (cfgDialTimeout cfg))])
    with 1%nat.
  change (count_events isAgentCall [AgentWrite p]) with 1%nat.
  change (count_events isAgentCall [AgentWrite (window b)]) with 1%nat.
  replace (count_events isAgentCall (trace s) + 1 + 1 + 1)%nat
    with (count_events isAgentCall (trace s) + 3)%nat by lia.
  now rewrite <- !app_assoc.
Qed.

(** X16: when an attempt of [dial] connects and the backend then fails
    one of the four calls of the bootstrap, [dial] makes no further call
    of the bootstrap and no further dial: it closes the backend socket,
    writes 502 to the client and returns the error of the failed call
    with a nil connection.  The write deadline it set is not cleared
    first. *)
Theorem bootstrap_failure_closes_backend (env : Env) (cfg : Config) (addr : bytes)
    (conn : Conn) (s : State) (b : Reader) (p : bytes) (k j : nat) (e : error)
    (Hk : Z.of_nat k < cfgDialRetry cfg)
    (Hto : forall i, (i < k)%nat -> timed_out env (count_events isDial (trace s) + i))
    (Hconn : dial_answer env (count_events isDial (trace s) + k) = None)
    (Hreader : reader s = Some b) (Hcap : Buffered b <= defaultBufSize)
    (Hp : addrPreamble (remoteAddr conn) = Ret p)
    (Hj : (j < 4)%nat)
    (Hok : forall i, (i < j)%nat ->
             agent_answer env (count_events isAgentCall (trace s) + i) = None)
    (Hfail : agent_answer env (count_events isAgentCall (trace s) + j) = Some e) :
  fst (dial env cfg addr conn s) = Ret (None, Some e) /\
  trace (snd (dial env cfg addr conn s))
  = trace s ++ repeat (attempt cfg addr) (S k)
    ++ firstn (S j) (bootstrap cfg p (window b))
    ++ [AgentClose; ConnWrite codeDialErr].
Proof.
  rewrite (dial_connected env cfg addr conn s k Hk Hto Hconn).
  pose proof (agentInit_steps env cfg
                (agentOf (count_events isDial (trace s) + k)) conn
                (extend s (repeat (attempt cfg addr) (S k))) b p Hreader Hcap Hp) as Hst.
  destruct (agentInit env cfg _ conn _) as [o2 s2].
  cbn [fst snd] in Hst.
  assert (Hcount : count_events isAgentCall
                     (trace (extend s (repeat (attempt cfg addr) (S k))))
                   = count_events isAgentCall (trace s)).
  { cbn [extend trace]. rewrite count_events_app, count_agent_calls_attempts. lia. }
  rewrite Hcount in Hst. cbn [extend trace] in Hst.
  assert (Hcase : (j = 0 \/ j = 1 \/ j = 2 \/ j = 3)%nat) by lia.
  destruct Hcase as [-> | [-> | [-> | ->]]].
  - rewrite Nat.add_0_r in Hfail. rewrite Hfail in Hst.
    injection Hst as -> Hts. cbn [fst snd extend trace]. rewrite Hts.
    split; [reflexivity | now rewrite <- !app_assoc].
  - pose proof (Hok 0%nat ltac:(lia)) as H0. rewrite Nat.add_0_r in H0.
    rewrite H0, Hfail in Hst.
    injection Hst as -> Hts. cbn [fst snd extend trace]. rewrite Hts.
    split; [reflexivity | now rewrite <- !app_assoc].
  - pose proof (Hok 0%nat ltac:(lia)) as H0. rewrite Nat.add_0_r in H0.
    rewrite H0, (Hok 1%nat ltac:(lia)), Hfail in Hst.
    injection Hst as -> Hts. cbn [fst snd extend trace]. rewrite Hts.
    split; [reflexivity | now rewrite <- !app_assoc].
  - pose proof (Hok 0%nat ltac:(lia)) as H0. rewrite Nat.add_0_r in H0.
    rewrite H0, (Hok 1%nat ltac:(lia)), (Hok 2%nat ltac:(lia)), Hfail in Hst.
    injection Hst as -> Hts. cbn [fst snd extend trace]. rewrite Hts.
    split; [reflexivity | now rewrite <- !app_assoc].
Qed.

Lemma bootstrap_failure_closes_backend_witness :
  let r := dial (envAgentFails 2) (cfgOf 1) backendAddr (clientOf [])
             (stateWith (clientOf []) (bytes_of_string "hello")) in
  fst r = Ret (None, Some (NetError true false)) /\
  trace (snd r)
  = [DialTimeout backendAddr (3 * Second);
     AgentSetWriteDeadline (Some (3 * Second));
     AgentWrite ("015"%char :: bytes_of_string "192.0.2.1:50000");
     AgentWrite (bytes_of_string "hello");
     AgentClose; ConnWrite codeDialErr].
Proof.
  intros r.
  refine (bootstrap_failure_closes_backend (envAgentFails 2) (cfgOf 1) backendAddr
            (clientOf []) (stateWith (clientOf []) (bytes_of_string "hello"))
            (mkReader 0 (bytes_of_string "hello") (Some (clientOf [])) None None)
            ("015"%char :: bytes_of_string "192.0.2.1:50000")
            0 2 (NetError true false) _ _ eq_refl eq_refl _ eq_refl _ _ eq_refl).
  - cbn. lia.
  - intros i Hi. lia.
  - vm_compute. discriminate.
  - lia.
  - intros i Hi. assert (Hc : (i = 0 \/ i = 1)%nat) by lia.
    destruct Hc as [-> | ->]; reflexivity.
Defined.

(* ================================================================== *)
(** * The bytes behind the frame *)

(** X17: in a run of [handle] that reaches the 200, no byte the client
    sent behind its handshake frame is lost or sent twice.  Those the
    reader had already buffered when the handshake returned are sent to
    the backend in the bootstrap, right behind the preamble; the others
    are still unread in the client socket, where the relay will find
    them; and the two parts together are the bytes behind the frame, in
    order, for a binary frame and for a text frame alike. *)
Theorem pipelined_bytes_conserved (env : Env) (cfg : Config) (conn : Conn)
    (pool : list Reader)
    (Hlen : len (remoteAddr conn) <= 254)
    (Hok : In (ConnWrite codeOK) (trace (snd (handle env cfg conn (initState pool))))) :
  exists addr s2 b2,
    handshake env cfg (atHandshake env conn pool) = (Ret (addr, None), s2) /\
    reader s2 = Some b2 /\
    agent_received (trace (snd (handle env cfg conn (initState pool))))
    = (byte_of_int (len (remoteAddr conn)) :: remoteAddr conn) ++ window b2 /\
    (forall n tl,
       concat (incoming conn) = zero :: n :: tl ->
       window b2 ++ queued b2 = skipn (Z.to_nat (int_of_byte n)) tl) /\
    (forall line rest,
       concat (incoming conn) = line ++ newline :: rest ->
       hd newline line <> zero -> ~ In newline line ->
       len line + 1 <= defaultBufSize ->
       window b2 ++ queued b2 = rest).
Proof.
  destruct (addrPreamble_exact (remoteAddr conn) Hlen) as [Hp _].
  destruct (handle_run env cfg conn pool) as (addr & err & s2 & s' & Hh & Hrun & _ & Ht).
  destruct (handshake_ready env cfg (atHandshake env conn pool) (NewReader conn)
              eq_refl (NewReader_ready conn))
    as (addr' & err' & s2' & evs & b2 & Hh' & Hf & Hr2 & _ & Htok & _ & Hbin & Htxt).
  rewrite Hh in Hh'. injection Hh' as <- <- <-.
  destruct Hf as (_ & _ & _ & Ht2 & _). cbn [trace atHandshake app] in Ht2.
  rewrite Hrun in Hok |- *. cbn [snd] in Hok |- *.
  destruct err as [e |].
  { exfalso. rewrite Ht, Ht2 in Hok.
    destruct Htok as [-> | ->]; in_trace. }
  cbn [token_shape] in Htok. rewrite Htok in Ht2.
  destruct Ht as (o & s3 & Hd & Ho).
  pose proof (dial_run env cfg addr conn s2 s3 o Hd) as (devs & Hf3 & Hshape).
  destruct Hf3 as (_ & _ & _ & Ht3 & _). rewrite Ht2 in Ht3. cbn [app] in Ht3.
  destruct o as [[ag [e |]] | m |]; [| | | contradiction].
  - exfalso. rewrite Ho, Ht3 in Hok.
    destruct Hshape as (_ & pre & c & -> & Hq & Hc).
    in_trace; injection Hok as ->; discriminate.
  - destruct (dial_success env cfg addr conn s2 s3 ag Hd)
      as (dials & b & p & Hdials & Hb & Hp' & Ht3').
    rewrite Hr2 in Hb. injection Hb as <-.
    rewrite Hp in Hp'. injection Hp' as <-.
    rewrite Ht2 in Ht3'. cbn [app] in Ht3'.
    exists addr, s2, b2. split; [exact Hh |]. split; [exact Hr2 |]. split; [| split].
    + destruct (dials_send_nothing dials Hdials) as [Hr0 _].
      rewrite Ho, Ht3', !agent_received_app, Hr0, relay_sends_nothing.
      cbn [agent_received flat_map app]. now rewrite !app_nil_r.
    + intros n tl Hst. rewrite stream_NewReader in Hbin.
      specialize (Hbin (n :: tl) Hst). unfold binary_verdict in Hbin.
      destruct (_ <? _)%nat; [destruct Hbin as [Hne _]; now contradiction Hne |].
      destruct (Decrypt env _ _) as [a [e |]];
        [destruct Hbin as [Hne _]; now contradiction Hne |].
      destruct Hbin as (_ & _ & _ & Hs). exact Hs.
    + intros line rest Hst Hhd Hnot Hll. rewrite stream_NewReader in Htxt.
      specialize (Htxt line rest Hst Hhd Hnot Hll). unfold text_verdict in Htxt.
      destruct (DecryptBase64 env _ _) as [a [e |]];
        [destruct Htxt as [Hne _]; now contradiction Hne |].
      destruct Htxt as (_ & _ & _ & Hs). exact Hs.
  - exfalso. rewrite Ho, Ht3 in Hok. destruct Hshape as [Hq _]. in_trace.
Qed.

Lemma pipelined_bytes_conserved_witness :
  let t := trace (snd (handle envOK (cfgOf 1) binarySplit (initState []))) in
  In (ConnWrite codeOK) t /\
  exists b2,
    agent_received t
    = ("015"%char :: bytes_of_string "192.0.2.1:50000") ++ window b2 /\
    window b2 = bytes_of_string "he" /\
    window b2 ++ queued b2 = bytes_of_string "hello".
Proof.
  intros t.
  assert (Hlen : len (remoteAddr binarySplit) <= 254) by (vm_compute; discriminate).
  assert (Hin : In (ConnWrite codeOK) t) by (vm_compute; tauto).
  split; [exact Hin |].
  destruct (pipelined_bytes_conserved envOK (cfgOf 1) binarySplit [] Hlen Hin)
    as (addr & s2 & b2 & Hh & Hr & Hrecv & Hbin & _).
  exists b2. split; [exact Hrecv |].
  split.
  - vm_compute in Hh. injection Hh as <- <-. cbn [reader] in Hr.
    injection Hr as <-. reflexivity.
  - exact (Hbin "003"%char (bytes_of_string "ABChello") eq_refl).
Defined.

(* ================================================================== *)
(** * A negative retry count, end to end *)

(** X18: [config] accepts a negative GW_DIAL_RETRY, and with it the
    gateway serves no client: in every run of [handle] no dial is made
    and no 200 is written, and a client whose handshake succeeds gets no
    status token at all, since [dial] panics on the nil connection and
    the handler only closes the client socket and logs the panic. *)
Theorem negative_retry_drops_every_client (getenv : string -> string)
    (retry : Z) (timeout : option Z)
    (Hretry : getenv "GW_DIAL_RETRY" = Itoa retry)
    (Hneg : - 2 ^ 63 <= retry < 0)
    (Htimeout : getenv "GW_DIAL_TIMEOUT" = setting timeout)
    (Ht : match timeout with Some n => isInt n | None => True end) :
  exists cfg,
    config getenv = Configured cfg /\
    cfgDialRetry cfg = retry /\
    forall (env : Env) (conn : Conn) (pool : list Reader),
      let t := trace (snd (handle env cfg conn (initState pool))) in
      count_events isDial t = O /\
      ~ In (ConnWrite codeOK) t /\
      (forall addr s2,
         handshake env cfg (atHandshake env conn pool) = (Ret (addr, None), s2) ->
         exists m, t = [ConnClose; LogPanic m]).
Proof.
  assert (Hr : isInt retry) by (unfold isInt; lia).
  assert (Hz : (retry =? 0) = false) by (apply Z.eqb_neq; lia).
  exists (mkConfig (bytes_of_string (getenv "GW_SECRET")) retry
            (wrap64 (value_or 3 timeout * Second))).
  split; [| split; [reflexivity |]].
  { rewrite (config_of_settings getenv (Some retry) timeout Hretry Htimeout Hr Ht).
    cbn [value_or]. now rewrite Hz. }
  intros env conn pool t. subst t.
  set (cfg := mkConfig (bytes_of_string (getenv "GW_SECRET")) retry
                (wrap64 (value_or 3 timeout * Second))).
  destruct (handle_run env cfg conn pool) as (addr & err & s2 & s' & Hh & Hrun & _ & Htr).
  destruct (handshake_ready env cfg (atHandshake env conn pool) (NewReader conn)
              eq_refl (NewReader_ready conn))
    as (addr' & err' & s2' & evs & b2 & Hh' & Hf & _ & _ & Htok & _).
  rewrite Hh in Hh'. injection Hh' as <- <- <-.
  destruct Hf as (_ & _ & _ & Ht2 & _). cbn [trace atHandshake app] in Ht2.
  rewrite Hrun. cbn [snd].
  destruct err as [e |].
  - rewrite Htr, Ht2.
    destruct Htok as [-> | ->];
      (split; [reflexivity |]); (split; [intros Hin; in_trace |]);
      intros addr0 s0 H;
      change (handshake env cfg (atHandshake env conn pool) = (Ret (addr0, None), s0)) in H;
      rewrite Hh in H; discriminate.
  - cbn [token_shape] in Htok. rewrite Htok in Ht2.
    destruct Htr as (o & s3 & Hd & Ho).
    destruct (dial_no_attempt env cfg addr conn s2) as [msg Hn]; [cbn; lia |].
    rewrite Hn in Hd. injection Hd as <- <-. rewrite Ho, Ht2.
    split; [reflexivity |]. split; [intros Hin; in_trace |].
    intros _ _ _. now exists msg.
Qed.

Lemma negative_retry_drops_every_client_witness :
  exists cfg,
    config (getenvOf "-1" "") = Configured cfg /\
    cfgDialRetry cfg = -1 /\
    exists m,
      trace (snd (handle envOK cfg binaryABC (initState []))) = [ConnClose; LogPanic m].
Proof.
  assert (Hneg : - 2 ^ 63 <= -1 < 0) by lia.
  destruct (negative_retry_drops_every_client (getenvOf "-1" "") (-1) None
              eq_refl Hneg eq_refl I) as (cfg & Hcfg & Hr & Hall).
  exists cfg. split; [exact Hcfg |]. split; [exact Hr |].
  destruct (Hall envOK binaryABC []) as (_ & _ & Hdrop).
  assert (Hc : cfg = mkConfig (bytes_of_string "secret") (-1) (3 * Second)).
  { assert (E : config (getenvOf "-1" "")
                = Configured (mkConfig (bytes_of_string "secret") (-1) (3 * Second)))
      by reflexivity.
    rewrite E in Hcfg. now injection Hcfg. }
  subst cfg.
  exact (Hdrop (bytes_of_string "CBA") _ eq_refl).
Defined.
